(** * Scene rendering for the CEC1 challenge: a shallow embedding

    Source: [clarity/data/scene_renderer_cec1.py] (class [Renderer] and
    [check_scene_exists]).

    Samples are values of an abstract scalar type [F] carrying the float64
    operations the renderer uses; no algebraic law is assumed of them, so the
    structural results hold for any arithmetic.  Where a numeric fact is
    needed (the half-cosine window) the scalars are the real numbers.

    Python exceptions, logging calls, calls of the external SNR metric and
    [soundfile.write] are effects: every function lives in a small
    writer-and-error monad [M] that records them in order. *)

From Stdlib Require Import ZArith Reals Lra Lia.
From stdpp Require Import base tactics option list list_numbers strings pretty gmap.

Local Open Scope string_scope.
Local Open Scope list_scope.
Local Open Scope Z_scope.

(** ** Scalars: the float64 operations used by the renderer *)

Class Float64 (F : Type) := {
  of_int : Z → F;            (* int -> float conversion *)
  fadd : F → F → F;
  fsub : F → F → F;
  fmul : F → F → F;
  fdiv : F → F → F;
  fpow : F → F → F;          (* [x ** y] *)
  fcos : F → F;              (* [np.cos] *)
  math_pi : F;               (* [math.pi] *)
  to_int : F → Z;            (* [int(x)]: truncation toward zero *)
}.

(** ** Arrays

    A numpy array is one-dimensional, shape [(n,)], or two-dimensional with
    two columns, shape [(n, 2)]: the shapes of mono and stereo audio. *)

Inductive ndarray (A : Type) : Type :=
| Arr1 (xs : list A)
| Arr2 (rows : list (A * A)).
Arguments Arr1 {A} xs.
Arguments Arr2 {A} rows.

(** [len(a)]: the extent of the first axis. *)
Definition arr_len {A} (a : ndarray A) : nat :=
  match a with Arr1 xs => length xs | Arr2 rows => length rows end.

(** [len(np.shape(a))] *)
Definition ndim {A} (a : ndarray A) : nat :=
  match a with Arr1 _ => 1%nat | Arr2 _ => 2%nat end.

(** [np.shape(a)] *)
Definition shape {A} (a : ndarray A) : list nat :=
  match a with Arr1 xs => [length xs] | Arr2 rows => [length rows; 2%nat] end.

(** Every element, row by row. *)
Definition arr_flat {A} (a : ndarray A) : list A :=
  match a with
  | Arr1 xs => xs
  | Arr2 rows => rows ≫= (λ p, [p.1; p.2])
  end.

Definition arr_map {A B} (f : A → B) (a : ndarray A) : ndarray B :=
  match a with
  | Arr1 xs => Arr1 (f <$> xs)
  | Arr2 rows => Arr2 (prod_map f f <$> rows)
  end.

(** ** Python slices (step 1) *)

(** Position denoted by an index [i] of a slice over [n] items: negative
    indices count from the end, and everything is clamped to [0..n]. *)
Definition slice_index (n : nat) (i : Z) : nat :=
  if i <? 0 then Z.to_nat (Z.max 0 (i + Z.of_nat n))
  else Z.to_nat (Z.min i (Z.of_nat n)).

(** [(lo, hi)] such that [l[start:stop]] is the items [lo <= k < hi];
    [None] is an omitted bound. *)
Definition slice_bounds (n : nat) (start stop : option Z) : nat * nat :=
  let lo := from_option (slice_index n) 0%nat start in
  let hi := from_option (slice_index n) n stop in
  (lo, Nat.max lo hi).

Definition py_slice {A} (l : list A) (start stop : option Z) : list A :=
  let '(lo, hi) := slice_bounds (length l) start stop in
  take (hi - lo) (drop lo l).

(** [a[start:stop]] on the first axis. *)
Definition arr_slice {A} (a : ndarray A) (start stop : option Z) : ndarray A :=
  match a with
  | Arr1 xs => Arr1 (py_slice xs start stop)
  | Arr2 rows => Arr2 (py_slice rows start stop)
  end.

(** [range(a, b)] *)
Definition py_range (a b : Z) : list Z := seqZ a (b - a).

(** ** Effects *)

Inductive exn : Type :=
| Exception (msg : string)
| ValueError (msg : string)
| AssertionError
| UnboundLocalError (name : string)
| RuntimeError (msg : string)
| KeyError (key : string)
| Unrepresented (what : string).

Inductive result (A : Type) : Type :=
| Ok (a : A)
| Raise (e : exn).
Arguments Ok {A} a.
Arguments Raise {A} e.

Inductive level : Type := DEBUG | INFO | WARNING | ERROR.

(** What [soundfile.write] is handed: float samples, or the int16 samples
    produced by [astype]. *)
Inductive payload (F : Type) : Type :=
| Floats (a : ndarray F)
| Int16s (a : ndarray Z).
Arguments Floats {F} a.
Arguments Int16s {F} a.

Inductive event (F : Type) : Type :=
| Log (lvl : level) (msg : string)
| SnrMetric (target noise : ndarray F)
| SoundfileWrite (filename : string) (data : payload F) (rate : Z) (subtype : string).
Arguments Log {F} lvl msg.
Arguments SnrMetric {F} target noise.
Arguments SoundfileWrite {F} filename data rate subtype.

(** A computation: the events it performed, in order, and how it ended. *)
Definition M (F A : Type) : Type := (list (event F) * result A)%type.

Definition ret {F A} (a : A) : M F A := ([], Ok a).
Definition raise {F A} (e : exn) : M F A := ([], Raise e).
Definition emit {F} (ev : event F) : M F unit := ([ev], Ok tt).

Definition bind {F A B} (k : A → M F B) (m : M F A) : M F B :=
  match m with
  | (l, Ok a) => let '(l', r) := k a in (l ++ l', r)
  | (l, Raise e) => (l, Raise e)
  end.

(** stdpp's notations [x ← m; k] and [m;; k] for sequencing. *)
#[global] Instance M_ret {F} : MRet (M F) := λ A, ret.
#[global] Instance M_bind {F} : MBind (M F) := λ A B, bind.

(** [for x in xs: s = body s x] *)
Fixpoint for_each {F A S} (body : S → A → M F S) (xs : list A) (s : S) : M F S :=
  match xs with
  | [] => ret s
  | x :: xs' => s' ← body s x; for_each body xs' s'
  end.

Definition events {F A} (m : M F A) : list (event F) := m.1.
Definition outcome {F A} (m : M F A) : result A := m.2.

(** [m] returns [a] (it raises nothing). *)
Definition returns {F A} (m : M F A) (a : A) : Prop := outcome m = Ok a.
(** [m] ends by raising [e]. *)
Definition raises {F A} (m : M F A) (e : exn) : Prop := outcome m = Raise e.

(** ** numpy, soundfile and the utilities of [clarity.data.utils] *)

Section Renderer.
Context {F : Type} `{!Float64 F}.

(** The external SNR metric and summation utility of [clarity.data.utils];
    their internals are a fixed external contract. *)
Variable better_ear_speechweighted_snr : ndarray F → ndarray F → F.
Variable sum_signals : list (ndarray F) → ndarray F.

(** The float [0.0]. *)
Definition fzero : F := of_int 0.

(** Modelled from the spec: [clarity.data.utils.pad], which is not among the
    source files; the spec gives [pad(signal, target_length) -> signal]
    (zero-extends). *)
Definition pad (signal : ndarray F) (target_length : nat) : ndarray F :=
  match signal with
  | Arr1 xs => Arr1 (xs ++ replicate (target_length - length xs) fzero)
  | Arr2 rows => Arr2 (rows ++ replicate (target_length - length rows) (fzero, fzero))
  end.

(** [np.pad(a, [(before, after)])] with the default constant mode.  The one
    pair of widths applies to every axis, so a two-dimensional array also
    gains columns and leaves the shapes represented here. *)
Definition np_pad (a : ndarray F) (before after : Z) : M F (ndarray F) :=
  if (before <? 0) || (after <? 0)
  then raise (ValueError "index can't contain negative values")
  else match a with
       | Arr1 xs =>
           mret (Arr1 (replicate (Z.to_nat before) fzero ++ xs
                         ++ replicate (Z.to_nat after) fzero))
       | Arr2 rows =>
           if (before =? 0) && (after =? 0) then mret a
           else raise (Unrepresented "array with more than two columns")
       end.

(** [np.linspace(start, stop, num)], endpoint included: numpy evaluates
    [i * step + start] and stores [stop] itself in the last slot. *)
Definition linspace (start stop : F) (num : Z) : M F (list F) :=
  if num <? 0
  then raise (ValueError ("Number of samples, " +:+ pretty num +:+ ", must be non-negative."))
  else
    let div := num - 1 in
    let delta := fsub stop start in
    let y := of_int <$> seqZ 0 num in
    let y := if 0 <? div
             then (λ i, fadd (fmul i (fdiv delta (of_int div))) start) <$> y
             else (λ i, fadd (fmul i delta) start) <$> y in
    mret (if 1 <? num then take (Z.to_nat num - 1) y ++ [stop] else y).

(** Broadcasting of a one-dimensional operand [w] against [k] items, as an
    in-place operator needs it: [w] has [k] items, or a single one that is
    repeated. *)
Definition broadcast_to (k : nat) (w : list F) : M F (list F) :=
  if decide (length w = k) then mret w
  else match w with
       | [c] => mret (replicate k c)
       | _ => raise (ValueError "operands could not be broadcast together")
       end.

(** Broadcasting of a one-dimensional operand against rows of two items. *)
Definition broadcast_row (w : list F) : M F (F * F) :=
  match w with
  | [c] => mret (c, c)
  | [c0; c1] => mret (c0, c1)
  | _ => raise (ValueError "operands could not be broadcast together")
  end.

(** [a[start:stop] *= w] *)
Definition imul_slice (a : ndarray F) (start stop : option Z) (w : list F)
  : M F (ndarray F) :=
  let '(lo, hi) := slice_bounds (arr_len a) start stop in
  match a with
  | Arr1 xs =>
      w' ← broadcast_to (hi - lo) w;
      mret (Arr1 (take lo xs ++ zip_with fmul (take (hi - lo) (drop lo xs)) w'
                    ++ drop hi xs))
  | Arr2 rows =>
      w' ← broadcast_row w;
      mret (Arr2 (take lo rows
                    ++ ((λ p, (fmul p.1 w'.1, fmul p.2 w'.2))
                          <$> take (hi - lo) (drop lo rows))
                    ++ drop hi rows))
  end.

(** [np.squeeze] drops every axis of extent one, so its result may have
    fewer dimensions than its argument. *)
Inductive squeezed : Type :=
| Sq0 (x : F)
| Sq1 (xs : list F)
| Sq2 (rows : list (F * F)).

Definition np_squeeze (a : ndarray F) : squeezed :=
  match a with
  | Arr1 [x] => Sq0 x
  | Arr1 xs => Sq1 xs
  | Arr2 [(l, r)] => Sq1 [l; r]
  | Arr2 rows => Sq2 rows
  end.

Definition sq_ndim (a : squeezed) : nat :=
  match a with Sq0 _ => 0%nat | Sq1 _ => 1%nat | Sq2 _ => 2%nat end.

(** Element-wise sum of two sequences, the longer one giving the length. *)
Fixpoint vadd (u v : list F) : list F :=
  match u, v with
  | [], _ => v
  | _, [] => u
  | x :: u', y :: v' => fadd x y :: vadd u' v'
  end.

(** The sums [out[k] = sum over i + j = k of a[i] * b[j]] for a kernel
    [b0 :: b']. *)
Fixpoint convolve_sum (a : list F) (b0 : F) (b' : list F) : list F :=
  match a with
  | [] => []
  | x :: a' => fmul x b0 :: vadd (fmul x <$> b') (convolve_sum a' b0 b')
  end.

(** [scipy.signal.convolve(a, b, mode="full", method="fft")] on
    one-dimensional inputs: the full linear convolution, given here by its
    defining sums (the FFT method computes the same sequence up to
    rounding); an empty input gives an empty result. *)
Definition convolve (a b : list F) : list F :=
  match b with
  | [] => []
  | b0 :: b' => convolve_sum a b0 b'
  end.

(** [np.vstack([l, r]).T] *)
Definition vstack_T (l r : list F) : M F (ndarray F) :=
  if decide (length l = length r) then mret (Arr2 (zip l r))
  else raise (ValueError "all the input array dimensions must match exactly").

(** [np.max] and [np.min] of an integer array. *)
Definition np_max (xs : list Z) : M F Z :=
  match xs with
  | [] => raise (ValueError "zero-size array to reduction operation maximum which has no identity")
  | x :: xs' => mret (foldr Z.max x xs')
  end.

Definition np_min (xs : list Z) : M F Z :=
  match xs with
  | [] => raise (ValueError "zero-size array to reduction operation minimum which has no identity")
  | x :: xs' => mret (foldr Z.min x xs')
  end.

(** Narrowing to 16 bits keeps the low 16 bits, read as two's complement. *)
Definition wrap16 (z : Z) : Z := (z + 32768) `mod` 65536 - 32768.

(** [x.astype(int16)] of one sample: conversion to an integer, then
    narrowing. *)
Definition astype_int16 (x : F) : Z := wrap16 (to_int x).

(** A stored wav file: its sampling rate and its frames (one-dimensional
    when the file has one channel). *)
Record SoundFile : Type := {
  samplerate : Z;
  frames : ndarray F;
}.

Definition sf_channels (w : SoundFile) : Z :=
  match frames w with Arr1 _ => 1 | Arr2 _ => 2 end.

(** Storage, as the renderer reads it. *)
Definition filesystem : Type := gmap string SoundFile.

(** [wave_file.seek(offset)]: a position outside the file is refused. *)
Definition sf_seek (w : SoundFile) (offset : Z) : M F nat :=
  if (0 <=? offset) && (offset <=? Z.of_nat (arr_len (frames w)))
  then mret (Z.to_nat offset)
  else raise (RuntimeError "Internal psf_fseek() failed.").

(** [wave_file.read(frames=nsamples)] from position [pos]: at most
    [nsamples] frames, all that remain when [nsamples] is negative. *)
Definition sf_read (w : SoundFile) (pos : nat) (nsamples : Z) : ndarray F :=
  let stop := if nsamples <? 0 then None
              else Some (Z.of_nat pos + nsamples) in
  arr_slice (frames w) (Some (Z.of_nat pos)) stop.

(** ** class Renderer *)

Record Renderer : Type := {
  input_path : string;
  output_path : string;
  sample_rate : Z;
  ramp_duration : F;
  n_tail : Z;
  pre_duration : F;
  post_duration : F;
  test_nbits : Z;
  channels : list Z;
}.

(** [Renderer.__init__] *)
Definition Renderer_init (input_path output_path : string) (num_channels : Z)
    (sample_rate : Z) (ramp_duration tail_duration pre_duration post_duration : F)
    (test_nbits : Z) : Renderer :=
  {| input_path := input_path;
     output_path := output_path;
     sample_rate := sample_rate;
     ramp_duration := ramp_duration;
     n_tail := to_int (fmul tail_duration (of_int sample_rate));
     pre_duration := pre_duration;
     post_duration := post_duration;
     test_nbits := test_nbits;
     channels := if num_channels =? 0 then []
                 else py_range 1 (num_channels + 1) ++ [0] |}.

(** [Renderer.read_signal].  Every call in this file passes an integer
    [offset]. *)
Definition read_signal (self : Renderer) (fs : filesystem) (filename : string)
    (offset nsamples nchannels : Z) (offset_is_samples : bool) : M F (ndarray F) :=
  match fs !! filename with
  | None => raise (Exception ("Unable to read " +:+ filename +:+ "."))
  | Some wave_file =>
      if negb ((nchannels =? 0) || (nchannels =? sf_channels wave_file))
      then raise (Exception ("Wav file (" +:+ filename +:+ ") was expected to have "
                               +:+ pretty nchannels +:+ " channels."))
      else if negb (samplerate wave_file =? sample_rate self)
      then raise (Exception ("Sampling rate is not " +:+ pretty (sample_rate self)
                               +:+ " for filename " +:+ filename +:+ "."))
      else
        let offset := if offset_is_samples then offset
                      else offset * samplerate wave_file in
        pos ← (if offset =? 0 then mret 0%nat else sf_seek wave_file offset);
        mret (sf_read wave_file pos nsamples)
  end.

(** [read_signal(filename)] with every default. *)
Definition read_signal_default (self : Renderer) (fs : filesystem)
    (filename : string) : M F (ndarray F) :=
  read_signal self fs filename 0 (-1) 0 false.

(** [Renderer.write_signal].  ([signal *= 32768] also rescales the caller's
    buffer; no caller in this file reads it again.)  The call of
    [soundfile.write] on the last line is recorded and taken to succeed:
    the storage accepts every write.  [write_signal_with] below leaves
    that open. *)
Definition write_signal (self : Renderer) (filename : string)
    (signal : ndarray F) (rate : Z) (floating_point : bool) : M F unit :=
  (if negb (rate =? sample_rate self)
   then emit (Log WARNING ("Sampling rate mismatch: " +:+ filename
                             +:+ " with sample rate=" +:+ pretty rate +:+ "."))
   else mret ());;
  conv ←
    (if negb floating_point then
       if test_nbits self =? 16 then
         let signal := arr_map (λ x, fmul x (of_int 32768)) signal in
         let signal := arr_map astype_int16 signal in
         hi ← np_max (arr_flat signal);
         if hi <=? 32767 then
           lo ← np_min (arr_flat signal);
           if lo >=? -32768 then mret (Int16s signal, Some "PCM_16")
           else raise AssertionError
         else raise AssertionError
       else if test_nbits self =? 24 then mret (Floats signal, Some "PCM_24")
       else mret (Floats signal, None)
     else mret (Floats signal, Some "FLOAT"));
  match conv.2 with
  | None => raise (UnboundLocalError "subtype")
  | Some subtype => emit (SoundfileWrite filename conv.1 rate subtype)
  end.

(** [int(self.sample_rate * duration)] *)
Definition duration_samples (self : Renderer) (duration : F) : Z :=
  to_int (fmul (of_int (sample_rate self)) duration).

(** The window [(np.cos(np.linspace(pi, 2 pi, n)) + 1) / 2]. *)
Definition half_cosine (n : Z) : M F (list F) :=
  grid ← linspace math_pi (fmul (of_int 2) math_pi) n;
  let ramp := fcos <$> grid in
  mret ((λ x, fdiv (fadd x (of_int 1)) (of_int 2)) <$> ramp).

(** [Renderer.apply_ramp] *)
Definition apply_ramp (self : Renderer) (signal : ndarray F) (ramp_duration : F)
  : M F (ndarray F) :=
  ramp ← half_cosine (duration_samples self ramp_duration);
  let signal_ramped := signal in
  signal_ramped ← imul_slice signal_ramped
                    (Some 0) (Some (Z.of_nat (length ramp))) ramp;
  signal_ramped ← imul_slice signal_ramped
                    (Some (- Z.of_nat (length ramp))) None (reverse ramp);
  mret signal_ramped.

(** [Renderer.apply_brir] *)
Definition apply_brir (self : Renderer) (signal brir : ndarray F)
  : M F (ndarray F) :=
  let output_len := Z.of_nat (arr_len signal) + n_tail self in
  let brir := np_squeeze brir in
  ears ←
    match signal, brir with
    | Arr1 xs, Sq2 rows =>
        mret (Some (convolve xs rows.*1, convolve xs rows.*2))
    | Arr2 srows, Sq2 rows =>
        mret (Some (convolve srows.*1 rows.*1, convolve srows.*2 rows.*2))
    | _, _ =>
        emit (Log ERROR "Signal does not have the required shape.");;
        mret None
    end;
  match ears with
  | None => raise (UnboundLocalError "signal_l")
  | Some (signal_l, signal_r) =>
      output ← vstack_T signal_l signal_r;
      mret (arr_slice output (Some 0) (Some output_len))
  end.

(** The message of the [ValueError] of [compute_snr]. *)
Definition mismatch_message (len_target len_noise : nat) : string :=
  "Target (" +:+ pretty len_target +:+ ") differs in length from Noise ("
    +:+ pretty len_noise +:+ ")".

(** The slice [a[pre_samples:-post_samples]] of [compute_snr], with the
    sample counts the method computes. *)
Definition snr_segment (self : Renderer) (a : ndarray F) : ndarray F :=
  arr_slice a (Some (duration_samples self (pre_duration self)))
              (Some (- duration_samples self (post_duration self))).

(** [Renderer.compute_snr].  The first two statements of the method assign
    [pre_samples] and [post_samples] afresh. *)
Definition compute_snr (self : Renderer) (target noise : ndarray F)
    (pre_samples post_samples : Z) : M F F :=
  let pre_samples := duration_samples self (pre_duration self) in
  let post_samples := duration_samples self (post_duration self) in
  let segment_target := arr_slice target (Some pre_samples) (Some (- post_samples)) in
  let segment_noise := arr_slice noise (Some pre_samples) (Some (- post_samples)) in
  if decide (arr_len segment_target = arr_len segment_noise) then
    emit (SnrMetric segment_target segment_noise);;
    mret (better_ear_speechweighted_snr segment_target segment_noise)
  else
    raise (ValueError (mismatch_message (arr_len segment_target)
                                        (arr_len segment_noise))).

(** What the loop of [render] carries from one channel to the next:
    [snr_ref], the [outputs] list and the last [target_brir] loaded
    ([None] while unassigned). *)
Record loop_state : Type := {
  st_snr_ref : option F;
  st_outputs : list (string * ndarray F);
  st_target_brir : option (ndarray F);
}.

(** [10 ** ((-snr_dB) / 20)] *)
Definition db_gain (snr_dB : Z) : F :=
  fpow (of_int 10) (fdiv (of_int (- snr_dB)) (of_int 20)).

(** The body of [for channel in self.channels] in [render]. *)
Definition render_channel (self : Renderer) (fs : filesystem)
    (brir_stem prefix : string) (target interferer_signal : ndarray F)
    (snr_dB pre_samples post_samples : Z)
    (st : loop_state) (channel : Z) : M F loop_state :=
  let target_brir_fn := brir_stem +:+ "_t_CH" +:+ pretty channel +:+ ".wav" in
  let interferer_brir_fn := brir_stem +:+ "_i1_CH" +:+ pretty channel +:+ ".wav" in
  target_brir ← read_signal_default self fs target_brir_fn;
  interferer_brir ← read_signal_default self fs interferer_brir_fn;
  target_at_ear ← apply_brir self target target_brir;
  interferer_at_ear ← apply_brir self interferer_signal interferer_brir;
  emit (Log INFO ("Scaling interferer to obtain mixture SNR = "
                    +:+ pretty snr_dB +:+ " dB."));;
  snr_ref ←
    match st_snr_ref st with
    | None =>
        snr_ref ← compute_snr self target_at_ear interferer_at_ear
                    pre_samples post_samples;
        emit (Log DEBUG ("Using channel " +:+ pretty channel +:+ " as reference."));;
        mret snr_ref
    | Some snr_ref => mret snr_ref
    end;
  let interferer_at_ear := arr_map (λ x, fmul x snr_ref) interferer_at_ear in
  let interferer_at_ear := arr_map (λ x, fmul x (db_gain snr_dB)) interferer_at_ear in
  let signal_at_ear := sum_signals [target_at_ear; interferer_at_ear] in
  mret {| st_snr_ref := Some snr_ref;
          st_outputs := st_outputs st
            ++ [ (prefix +:+ "_mixed_CH" +:+ pretty channel +:+ ".wav", signal_at_ear);
                 (prefix +:+ "_target_CH" +:+ pretty channel +:+ ".wav", target_at_ear);
                 (prefix +:+ "_interferer_CH" +:+ pretty channel +:+ ".wav", interferer_at_ear) ];
          st_target_brir := Some target_brir |}.

(** What [render] has in hand before it writes: the [outputs] list. *)
Definition render_outputs (self : Renderer) (fs : filesystem)
    (target noise_type interferer room scene : string)
    (offset snr_dB : Z) (dataset : string) (pre_samples post_samples : Z)
  : M F (list (string * ndarray F)) :=
  let brir_stem := input_path self +:+ "/" +:+ dataset +:+ "/rooms/brir/brir_" +:+ room in
  let anechoic_brir_stem :=
    input_path self +:+ "/" +:+ dataset +:+ "/rooms/brir/anech_brir_" +:+ room in
  let target_fn := input_path self +:+ "/" +:+ dataset +:+ "/targets/" +:+ target +:+ ".wav" in
  let interferer_fn :=
    input_path self +:+ "/" +:+ dataset +:+ "/interferers/" +:+ noise_type
      +:+ "/" +:+ interferer +:+ ".wav" in
  target ← read_signal_default self fs target_fn;
  target ← np_pad target pre_samples post_samples;
  interferer_signal ←
    read_signal self fs interferer_fn offset (Z.of_nat (arr_len target)) 0 true;
  (* [interferer] is the name of the recording, a string *)
  (if decide (arr_len target ≠ String.length interferer)
   then emit (Log DEBUG "Target and interferer have different lengths")
   else mret ());;
  interferer_signal ← apply_ramp self interferer_signal (ramp_duration self);
  let prefix := output_path self +:+ "/" +:+ scene in
  let outputs := [ (prefix +:+ "_target.wav", target);
                   (prefix +:+ "_interferer.wav", interferer_signal) ] in
  st ← for_each
         (render_channel self fs brir_stem prefix target interferer_signal
            snr_dB pre_samples post_samples)
         (channels self)
         {| st_snr_ref := None; st_outputs := outputs; st_target_brir := None |};
  target_brir ←
    (if decide (channels self = [])
     then target_brir ← read_signal_default self fs (brir_stem +:+ "_t_CH0.wav");
          mret (Some target_brir)
     else mret (st_target_brir st));
  let anechoic_brir_fn := anechoic_brir_stem +:+ "_t_CH1.wav" in
  anechoic_brir ← read_signal_default self fs anechoic_brir_fn;
  match target_brir with
  | None => raise (UnboundLocalError "target_brir")
  | Some target_brir =>
      let anechoic_brir_pad := pad anechoic_brir (arr_len target_brir) in
      target_anechoic ← apply_brir self target anechoic_brir_pad;
      mret (st_outputs st ++ [ (prefix +:+ "_target_anechoic.wav", target_anechoic) ])
  end.

(** [Renderer.render] *)
Definition render (self : Renderer) (fs : filesystem)
    (target noise_type interferer room scene : string)
    (offset snr_dB : Z) (dataset : string) (pre_samples post_samples : Z)
  : M F unit :=
  outputs ← render_outputs self fs target noise_type interferer room scene
              offset snr_dB dataset pre_samples post_samples;
  for_each (λ _ out, write_signal self out.1 out.2 (sample_rate self) true)
           outputs ().

(** *** A storage that can refuse a write

    [soundfile.write] can itself raise (a directory that does not exist, a
    full disk).  [write_error] is the answer of the storage for a file
    name: the exception the call ends in, or [None] when the file is
    written.  The call is recorded in either case. *)
Definition soundfile_write (write_error : string → option exn)
    (filename : string) (data : payload F) (rate : Z) (subtype : string)
  : M F unit :=
  emit (SoundfileWrite filename data rate subtype);;
  match write_error filename with
  | Some e => raise e
  | None => mret ()
  end.

(** [Renderer.write_signal] on such a storage. *)
Definition write_signal_with (write_error : string → option exn)
    (self : Renderer) (filename : string)
    (signal : ndarray F) (rate : Z) (floating_point : bool) : M F unit :=
  (if negb (rate =? sample_rate self)
   then emit (Log WARNING ("Sampling rate mismatch: " +:+ filename
                             +:+ " with sample rate=" +:+ pretty rate +:+ "."))
   else mret ());;
  conv ←
    (if negb floating_point then
       if test_nbits self =? 16 then
         let signal := arr_map (λ x, fmul x (of_int 32768)) signal in
         let signal := arr_map astype_int16 signal in
         hi ← np_max (arr_flat signal);
         if hi <=? 32767 then
           lo ← np_min (arr_flat signal);
           if lo >=? -32768 then mret (Int16s signal, Some "PCM_16")
           else raise AssertionError
         else raise AssertionError
       else if test_nbits self =? 24 then mret (Floats signal, Some "PCM_24")
       else mret (Floats signal, None)
     else mret (Floats signal, Some "FLOAT"));
  match conv.2 with
  | None => raise (UnboundLocalError "subtype")
  | Some subtype => soundfile_write write_error filename conv.1 rate subtype
  end.

(** [Renderer.render] on such a storage. *)
Definition render_with (write_error : string → option exn)
    (self : Renderer) (fs : filesystem)
    (target noise_type interferer room scene : string)
    (offset snr_dB : Z) (dataset : string) (pre_samples post_samples : Z)
  : M F unit :=
  outputs ← render_outputs self fs target noise_type interferer room scene
              offset snr_dB dataset pre_samples post_samples;
  for_each (λ _ out, write_signal_with write_error self out.1 out.2
                       (sample_rate self) true)
           outputs ().

End Renderer.

(** ** check_scene_exists *)

(** The list [files_to_check] that [check_scene_exists] builds. *)
Definition files_to_check (scene_id output_path : string) (num_channels : Z)
  : list string :=
  let channels := if num_channels =? 0 then []
                  else py_range 1 (num_channels + 1) ++ [0] in
  let pattern := output_path +:+ "/" +:+ scene_id in
  [ pattern +:+ "_target.wav";
    pattern +:+ "_target_anechoic.wav";
    pattern +:+ "_interferer.wav" ]
  ++ (channels ≫= λ ch,
        [ pattern +:+ "_mixed_CH" +:+ pretty ch +:+ ".wav";
          pattern +:+ "_interferer_CH" +:+ pretty ch +:+ ".wav";
          pattern +:+ "_target_CH" +:+ pretty ch +:+ ".wav" ]).

(** [check_scene_exists]; [path_exists] is [os.path.exists] on the storage
    at hand and [scene] the scene dictionary. *)
Definition check_scene_exists (path_exists : string → bool)
    (scene : gmap string string) (output_path : string) (num_channels : Z)
  : result bool :=
  match scene !! "scene" with
  | None => Raise (KeyError "scene")
  | Some scene_id =>
      Ok (foldl (λ scene_exists filename, scene_exists && path_exists filename)
                true (files_to_check scene_id output_path num_channels))
  end.

(** ** Exact arithmetic: samples as real numbers *)

(** [int(x)] on a real: the integer part, toward zero. *)
Definition Rtrunc (x : R) : Z :=
  if Rle_dec 0 x then Int_part x else - Int_part (- x).

(** The integer that [int(x * y)] yields on the machine is the truncation
    of the product rounded to float64, which can differ by one from the
    truncation of the exact product ([int(44100 * 0.3)] is 13230, the exact
    product of the two floats lies just below).  [real_float64 int] is the
    arithmetic of the real numbers with that conversion left open:
    statements made for every [int] hold of the machine's. *)
Definition real_float64 (int : R → Z) : Float64 R :=
  {| of_int := IZR;
     fadd := Rplus;
     fsub := Rminus;
     fmul := Rmult;
     fdiv := Rdiv;
     fpow := Rpower;
     fcos := cos;
     math_pi := PI;
     to_int := int |}.

(** The instance with exact truncation, for worked examples: it is used at
    arguments whose product is a whole number, or rounds to the same
    integer, so that the machine computes the same sample count. *)
#[global] Instance R_float64 : Float64 R :=
  {| of_int := IZR;
     fadd := Rplus;
     fsub := Rminus;
     fmul := Rmult;
     fdiv := Rdiv;
     fpow := Rpower;
     fcos := cos;
     math_pi := PI;
     to_int := Rtrunc |}.

(** A renderer with the default arguments of [__init__]: 44.1 kHz, ramp
    0.5 s, tail 0.2 s, pre 2 s, post 1 s, 16 bits. *)
Definition default_renderer (input_path output_path : string) (num_channels : Z)
  : Renderer (F:=R) :=
  Renderer_init input_path output_path num_channels
    44100 (5 / 10)%R (2 / 10)%R 2%R 1%R 16.

(** ** A small scene, for worked examples

    One frame per second keeps the signals short: ramp 1 s, tail 2 s,
    pre 1 s, post 1 s, one hearing-aid channel (channels [1; 0]). *)
Definition tiny_renderer : Renderer (F:=R) :=
  Renderer_init "in" "out" 1 1 1%R 2%R 1%R 1%R 16.

(** The same, with two seconds before the speech and one after. *)
Definition trim_renderer : Renderer (F:=R) :=
  Renderer_init "in" "out" 1 1 1%R 2%R 2%R 1%R 16.

Definition mono_file (xs : list R) : SoundFile (F:=R) :=
  {| samplerate := 1; frames := Arr1 xs |}.
Definition stereo_file (rows : list (R * R)) : SoundFile (F:=R) :=
  {| samplerate := 1; frames := Arr2 rows |}.

(** The target BRIR of channel 1 has three frames, that of channel 0 two. *)
Definition tiny_fs : filesystem (F:=R) :=
  <[ "in/dev/targets/T.wav" := mono_file [1; 2]%R ]> (
  <[ "in/dev/interferers/noise/N.wav" := mono_file [1; 1; 1; 1; 1]%R ]> (
  <[ "in/dev/rooms/brir/brir_R_t_CH1.wav" := stereo_file [(1, 1); (0, 0); (1, 1)]%R ]> (
  <[ "in/dev/rooms/brir/brir_R_i1_CH1.wav" := stereo_file [(1, 1); (0, 0); (0, 0)]%R ]> (
  <[ "in/dev/rooms/brir/brir_R_t_CH0.wav" := stereo_file [(1, 1); (0, 0)]%R ]> (
  <[ "in/dev/rooms/brir/brir_R_i1_CH0.wav" := stereo_file [(1, 1); (0, 0)]%R ]> (
  <[ "in/dev/rooms/brir/anech_brir_R_t_CH1.wav" := stereo_file [(1, 1); (1, 1)]%R ]>
  ∅)))))).

(** Stand-ins for the two external utilities in the worked examples: a
    metric that reports unit gain, and a sum that adds sample by sample. *)
Definition unit_metric (target noise : ndarray R) : R := 1%R.

Definition add_signals (signals : list (ndarray R)) : ndarray R :=
  foldr (λ a acc,
           match a, acc with
           | Arr1 xs, Arr1 ys => Arr1 (vadd xs ys)
           | Arr2 xs, Arr2 ys => Arr2 (zip (vadd xs.*1 ys.*1) (vadd xs.*2 ys.*2))
           | _, Arr1 [] => a
           | _, _ => acc
           end) (Arr1 []) signals.

(** [render] on the small scene: target T, interferer N of class noise,
    room R, scene S1, offset 0, 0 dB, dataset dev, one frame of padding on
    each side. *)
Definition tiny_outputs : M R (list (string * ndarray R)) :=
  render_outputs unit_metric add_signals tiny_renderer tiny_fs
    "T" "noise" "N" "R" "S1" 0 0 "dev" 1 1.

Definition tiny_render : M R unit :=
  render unit_metric add_signals tiny_renderer tiny_fs
    "T" "noise" "N" "R" "S1" 0 0 "dev" 1 1.


(** Its events. *)
Definition tiny_events : list (event R) := events tiny_render.

(** The same scene rendered at 20 dB with a metric that reports the value
    2, so that neither factor of the interferer's gain is 1. *)
Definition double_metric (target noise : ndarray R) : R := 2%R.

Definition loud_render : M R unit :=
  render double_metric add_signals tiny_renderer tiny_fs
    "T" "noise" "N" "R" "S1" 0 20 "dev" 1 1.

Definition loud_events : list (event R) := events loud_render.

(** ** Auxiliary notions used in the statements *)

Section Notions.
Context {F : Type} `{!Float64 F}.

(** A signal copied into both columns. *)
Definition duplicate (S : list F) : list (F * F) := (λ x, (x, x)) <$> S.

(** The two ears of [apply_brir], before truncation. *)
Definition ears (sl sr : list F) (B : list (F * F)) : list (F * F) :=
  zip (convolve sl B.*1) (convolve sr B.*2).

End Notions.

(** ** The naming rule [{prefix}_{role}[_CH{channel}].wav] *)

Inductive role : Type := Target | Interferer | Mixed | TargetAnechoic.

Definition role_name (r : role) : string :=
  match r with
  | Target => "target"
  | Interferer => "interferer"
  | Mixed => "mixed"
  | TargetAnechoic => "target_anechoic"
  end.

Definition artifact_suffix (r : role) (channel : option Z) : string :=
  "_" +:+ role_name r
    +:+ match channel with
        | None => ".wav"
        | Some c => "_CH" +:+ pretty c +:+ ".wav"
        end.

Definition artifact (prefix : string) (key : role * option Z) : string :=
  prefix +:+ artifact_suffix key.1 key.2.

(** The artifacts of a scene with the given channels, in the order in which
    [render] records them. *)
Definition artifact_keys (chans : list Z) : list (role * option Z) :=
  [ (Target, None); (Interferer, None) ]
  ++ (chans ≫= λ c, [ (Mixed, Some c); (Target, Some c); (Interferer, Some c) ])
  ++ [ (TargetAnechoic, None) ].

(** Computations that perform no event. *)
Definition silent {F A} (m : M F A) : Prop := m.1 = [].

Section SceneNotions.
Context {F : Type} `{!Float64 F}.
Variable better_ear_speechweighted_snr : ndarray F → ndarray F → F.
Variable sum_signals : list (ndarray F) → ndarray F.

(** The file names [render] derives from its arguments. *)
Definition brir_stem (self : Renderer (F:=F)) (dataset room : string) : string :=
  input_path self +:+ "/" +:+ dataset +:+ "/rooms/brir/brir_" +:+ room.
Definition anechoic_brir_fn (self : Renderer (F:=F)) (dataset room : string) : string :=
  (input_path self +:+ "/" +:+ dataset +:+ "/rooms/brir/anech_brir_" +:+ room)
    +:+ "_t_CH1.wav".
Definition target_fn (self : Renderer (F:=F)) (dataset target : string) : string :=
  input_path self +:+ "/" +:+ dataset +:+ "/targets/" +:+ target +:+ ".wav".
Definition interferer_fn (self : Renderer (F:=F))
    (dataset noise_type interferer : string) : string :=
  input_path self +:+ "/" +:+ dataset +:+ "/interferers/" +:+ noise_type
    +:+ "/" +:+ interferer +:+ ".wav".
Definition target_brir_fn (stem : string) (channel : Z) : string :=
  stem +:+ "_t_CH" +:+ pretty channel +:+ ".wav".
Definition interferer_brir_fn (stem : string) (channel : Z) : string :=
  stem +:+ "_i1_CH" +:+ pretty channel +:+ ".wav".
Definition out_prefix (self : Renderer (F:=F)) (scene : string) : string :=
  output_path self +:+ "/" +:+ scene.

(** A signal at the ear: the BRIR stored under [brir_fn], applied to
    [signal]. *)
Definition at_ear (self : Renderer (F:=F)) (fs : filesystem) (brir_fn : string)
    (signal : ndarray F) : M F (ndarray F) :=
  brir ← read_signal_default self fs brir_fn;
  apply_brir self signal brir.

(** [a * g] for a scalar [g]. *)
Definition scale (g : F) (a : ndarray F) : ndarray F := arr_map (λ x, fmul x g) a.

(** An entry of the [outputs] list of [render], by role and channel. *)
Definition entry : Type := (role * option Z) * ndarray F.

(** The same entries under their file names. *)
Definition named (prefix : string) (entries : list entry) : list (string * ndarray F) :=
  (λ kv, (artifact prefix kv.1, kv.2)) <$> entries.

(** The three entries [render] records for one channel, given its at-ear
    pair and the gain in force. *)
Definition channel_entries (snr_dB : Z) (g : F)
    (channel : Z) (pair : ndarray F * ndarray F) : list entry :=
  let interferer_at_ear := scale (db_gain snr_dB) (scale g pair.2) in
  [ ((Mixed, Some channel), sum_signals [pair.1; interferer_at_ear]);
    ((Target, Some channel), pair.1);
    ((Interferer, Some channel), interferer_at_ear) ].

(** The value of the metric on the trimmed segments of a pair. *)
Definition pair_gain (self : Renderer (F:=F)) (pair : ndarray F * ndarray F) : F :=
  better_ear_speechweighted_snr (snr_segment self pair.1) (snr_segment self pair.2).

(** The calls of the SNR metric among the events, with their arguments. *)
Definition snr_calls (evs : list (event F)) : list (ndarray F * ndarray F) :=
  omap (λ ev, match ev with SnrMetric t n => Some (t, n) | _ => None end) evs.

(** How many times a computation calls the SNR metric, however it ends. *)
Definition metric_calls {A} (m : M F A) : nat := length (snr_calls (events m)).

(** The calls of [soundfile.write] among the events: file name and data. *)
Definition written (evs : list (event F)) : list (string * payload F) :=
  omap (λ ev, match ev with SoundfileWrite fn d _ _ => Some (fn, d) | _ => None end) evs.

(** [pairs] lists, channel by channel, the target and the interferer at the
    ear: the channel's two BRIRs applied to [target] and to [signal]. *)
Definition at_ear_pairs (self : Renderer (F:=F)) (fs : filesystem) (stem : string)
    (target signal : ndarray F) (chans : list Z)
    (pairs : list (ndarray F * ndarray F)) : Prop :=
  Forall2 (λ c pair,
             at_ear self fs (target_brir_fn stem c) target = ([], Ok pair.1)
             ∧ at_ear self fs (interferer_brir_fn stem c) signal = ([], Ok pair.2))
          chans pairs.

(** The metric on the first pair (of no consequence without channels). *)
Definition first_gain (self : Renderer (F:=F))
    (pairs : list (ndarray F * ndarray F)) : F :=
  from_option (pair_gain self) fzero (head pairs).

(** The arguments of the metric on the first pair, if there is one. *)
Definition first_call (self : Renderer (F:=F))
    (pairs : list (ndarray F * ndarray F)) : list (ndarray F * ndarray F) :=
  (λ pair, (snr_segment self pair.1, snr_segment self pair.2))
    <$> option_list (head pairs).

(** The entries of all channels, in order, under one gain. *)
Definition all_channel_entries (snr_dB : Z) (g : F)
    (chans : list Z) (pairs : list (ndarray F * ndarray F)) : list entry :=
  zip chans pairs ≫= λ cp, channel_entries snr_dB g cp.1 cp.2.

(** Every entry of a scene: the padded target, the ramped interferer, the
    channels, the anechoic target. *)
Definition scene_entries (snr_dB : Z) (g : F) (padded ramped : ndarray F)
    (chans : list Z) (pairs : list (ndarray F * ndarray F))
    (target_anechoic : ndarray F) : list entry :=
  [ ((Target, None), padded); ((Interferer, None), ramped) ]
  ++ all_channel_entries snr_dB g chans pairs
  ++ [ ((TargetAnechoic, None), target_anechoic) ].

(** The warning [write_signal] logs for a rate that is not the renderer's. *)
Definition rate_warning (self : Renderer (F:=F)) (filename : string) (rate : Z)
  : list (event F) :=
  if rate =? sample_rate self then []
  else [Log WARNING ("Sampling rate mismatch: " +:+ filename
                       +:+ " with sample rate=" +:+ pretty rate +:+ ".")].

(** The 16-bit samples [write_signal] derives from a float signal. *)
Definition to_pcm16 (signal : ndarray F) : ndarray Z :=
  arr_map astype_int16 (arr_map (λ x, fmul x (of_int 32768)) signal).

(** What one completed round of the loop of [render] logs: the scaling
    message and, in the round that sets [snr_ref] ([first]), the call of
    the metric and the message naming the reference channel. *)
Definition channel_trace (self : Renderer (F:=F)) (snr_dB : Z) (first : bool)
    (channel : Z) (pair : ndarray F * ndarray F) : list (event F) :=
  Log INFO ("Scaling interferer to obtain mixture SNR = " +:+ pretty snr_dB +:+ " dB.")
  :: if first
     then [ SnrMetric (snr_segment self pair.1) (snr_segment self pair.2);
            Log DEBUG ("Using channel " +:+ pretty channel +:+ " as reference.") ]
     else [].

(** The same for a sequence of rounds, of which only the first can be the
    one that sets [snr_ref]. *)
Fixpoint loop_trace (self : Renderer (F:=F)) (snr_dB : Z) (first : bool)
    (rounds : list (Z * (ndarray F * ndarray F))) : list (event F) :=
  match rounds with
  | [] => []
  | round :: rounds' =>
      channel_trace self snr_dB first round.1 round.2
      ++ loop_trace self snr_dB false rounds'
  end.

(** The renderer with another value of [test_nbits]. *)
Definition with_test_nbits (self : Renderer (F:=F)) (nbits : Z) : Renderer (F:=F) :=
  {| input_path := input_path self;
     output_path := output_path self;
     sample_rate := sample_rate self;
     ramp_duration := ramp_duration self;
     n_tail := n_tail self;
     pre_duration := pre_duration self;
     post_duration := post_duration self;
     test_nbits := nbits;
     channels := channels self |}.

End SceneNotions.


(** [y] is [x] scaled by a factor between 0 and 1. *)
Definition attenuated (x y : R) : Prop := ∃ f : R, (0 <= f <= 1)%R ∧ y = (x * f)%R.
(** * Properties *)

(** ** The monad *)

Section Monad.
Context {F : Type}.

Lemma bind_run {A B} (m : M F A) (k : A → M F B) evs a :
  m = (evs, Ok a) → m ≫= k = (evs ++ (k a).1, (k a).2).
Proof. intros ->. unfold mbind, M_bind, bind. by destruct (k a). Qed.

Lemma bind_raise {A B} (m : M F A) (k : A → M F B) evs e :
  m = (evs, Raise e) → m ≫= k = (evs, Raise e).
Proof. by intros ->. Qed.

Lemma bind_Ok {A B} (m : M F A) (k : A → M F B) evs b :
  m ≫= k = (evs, Ok b) ↔
  ∃ e1 a e2, m = (e1, Ok a) ∧ k a = (e2, Ok b) ∧ evs = e1 ++ e2.
Proof.
  split.
  - destruct m as [e1 [a|e]]; unfold mbind, M_bind, bind.
    + destruct (k a) as [e2 r] eqn:Hk. intros [= <- ->]. by exists e1, a, e2.
    + intros [= _ [=]].
  - intros (e1 & a & e2 & -> & Hk & ->).
    unfold mbind, M_bind, bind. by rewrite Hk.
Qed.

Lemma bind_returns {A B} (m : M F A) (k : A → M F B) b :
  returns (m ≫= k) b ↔ ∃ a, returns m a ∧ returns (k a) b.
Proof.
  unfold returns, outcome. split.
  - destruct (m ≫= k) as [evs r] eqn:Hm. simpl. intros ->.
    apply bind_Ok in Hm as (e1 & a & e2 & -> & Hk & _).
    exists a. by rewrite Hk.
  - intros (a & Ha & Hk). destruct m as [e1 r]. simpl in Ha. subst r.
    erewrite bind_run by done. done.
Qed.

Lemma mret_run {A} (a : A) : (mret a : M F A) = ([], Ok a).
Proof. done. Qed.

End Monad.

(** ** Slices *)

Lemma slice_index_nonneg n i : 0 ≤ i → slice_index n i = (Z.to_nat i `min` n)%nat.
Proof. intros. unfold slice_index. case_match; lia. Qed.

Lemma slice_index_neg n i : i < 0 → slice_index n i = (n - Z.to_nat (- i))%nat.
Proof. intros. unfold slice_index. case_match; lia. Qed.

Lemma length_py_slice {A} (l : list A) start stop :
  length (py_slice l start stop)
  = ((slice_bounds (length l) start stop).2 - (slice_bounds (length l) start stop).1)%nat.
Proof.
  unfold py_slice. destruct (slice_bounds _ _ _) as [lo hi] eqn:Hb. simpl.
  rewrite length_take, length_drop.
  unfold slice_bounds in Hb. simplify_eq.
  destruct start as [s|], stop as [t|]; simpl; unfold slice_index;
    repeat case_match; lia.
Qed.

(** A prefix [l[0:k]]. *)
Lemma py_slice_prefix {A} (l : list A) (k : Z) :
  0 ≤ k → py_slice l (Some 0) (Some k) = take (Z.to_nat k) l.
Proof.
  intros. unfold py_slice, slice_bounds. simpl.
  rewrite !slice_index_nonneg by lia. simpl.
  rewrite Nat.sub_0_r, drop_0.
  destruct (decide (Z.to_nat k ≤ length l)%nat).
  - by rewrite Nat.min_l.
  - rewrite Nat.min_r, !take_ge by lia. done.
Qed.

(** Trimming: [l[pre:-post]] with room for both margins. *)
Lemma py_slice_trim {A} (l : list A) (pre post : Z) :
  0 ≤ pre → 0 < post → pre + post ≤ Z.of_nat (length l) →
  py_slice l (Some pre) (Some (- post))
  = take (length l - Z.to_nat pre - Z.to_nat post) (drop (Z.to_nat pre) l).
Proof.
  intros. unfold py_slice, slice_bounds. simpl.
  rewrite slice_index_nonneg, slice_index_neg by lia.
  rewrite (Nat.min_l (Z.to_nat pre)) by lia. f_equal. lia.
Qed.

(** The number of frames of a slice of an array. *)
Lemma arr_len_arr_slice {A} (a : ndarray A) start stop :
  arr_len (arr_slice a start stop)
  = ((slice_bounds (arr_len a) start stop).2
     - (slice_bounds (arr_len a) start stop).1)%nat.
Proof. destruct a; simpl; apply length_py_slice. Qed.

Lemma arr_len_trim {A} (a : ndarray A) (pre post : Z) :
  0 ≤ pre → 0 < post →
  arr_len (arr_slice a (Some pre) (Some (- post)))
  = (arr_len a - Z.to_nat pre - Z.to_nat post)%nat.
Proof.
  intros Hpre Hpost. rewrite arr_len_arr_slice. unfold slice_bounds. simpl.
  rewrite slice_index_nonneg, slice_index_neg by lia. lia.
Qed.

Lemma arr_len_to_zero {A} (a : ndarray A) (pre : Z) :
  arr_len (arr_slice a (Some pre) (Some (- 0))) = 0%nat.
Proof.
  rewrite arr_len_arr_slice. unfold slice_bounds. simpl.
  unfold slice_index at 2. simpl. lia.
Qed.

(** ** Convolution *)

Section Convolution.
Context {F : Type} `{!Float64 F}.

Lemma length_vadd (u v : list F) :
  length (vadd u v) = (length u `max` length v)%nat.
Proof.
  revert v. induction u as [|x u IH]; intros [|y v]; simpl; auto with lia.
Qed.

Lemma length_convolve_sum (a : list F) b0 b' :
  a ≠ [] → length (convolve_sum a b0 b') = (length a + length b')%nat.
Proof.
  induction a as [|x a IH]; [done|]. intros _. simpl.
  rewrite length_vadd, length_fmap.
  destruct a as [|y a]; [simpl; lia|].
  rewrite IH by done. simpl. lia.
Qed.

(** "Full" mode: [len(a) + len(b) - 1] samples, none for an empty input. *)
Lemma length_convolve (a b : list F) :
  length (convolve a b)
  = match a, b with
    | [], _ | _, [] => 0%nat
    | _, _ => (length a + length b - 1)%nat
    end.
Proof.
  destruct b as [|b0 b']; [by destruct a|].
  destruct a as [|x a]; [done|].
  unfold convolve. rewrite length_convolve_sum by done. simpl. lia.
Qed.

Lemma length_convolve_eq (a b c : list F) :
  length b = length c → length (convolve a b) = length (convolve a c).
Proof.
  intros Hbc. rewrite !length_convolve.
  destruct a, b, c; simpl in *; lia.
Qed.

End Convolution.
(** ** apply_brir *)

Section ApplyBrir.
Context {F : Type} `{!Float64 F}.
Implicit Types (self : Renderer (F:=F)) (S b : list F) (B : list (F * F)).

Lemma duplicate_fst S : (duplicate S).*1 = S.
Proof. unfold duplicate. rewrite <- list_fmap_compose. apply list_fmap_id. Qed.

Lemma duplicate_snd S : (duplicate S).*2 = S.
Proof. unfold duplicate. rewrite <- list_fmap_compose. apply list_fmap_id. Qed.

Lemma zip_diag S : zip S S = duplicate S.
Proof. induction S; simpl; congruence. Qed.

Lemma py_slice_fmap {A C} (f : A → C) (l : list A) start stop :
  py_slice (f <$> l) start stop = f <$> py_slice l start stop.
Proof.
  unfold py_slice. rewrite length_fmap.
  destruct (slice_bounds _ _ _). by rewrite fmap_take, fmap_drop.
Qed.

Lemma np_squeeze_rows B : length B ≠ 1%nat → np_squeeze (Arr2 B) = Sq2 B.
Proof. destruct B as [|[l r] [|? ?]]; done. Qed.

Lemma length_ears S B :
  length (ears S S B)
  = match S, B with
    | [], _ | _, [] => 0%nat
    | _, _ => (length S + length B - 1)%nat
    end.
Proof.
  unfold ears. rewrite length_zip, !length_convolve.
  destruct S, B; simpl; rewrite ?length_fmap; lia.
Qed.

Lemma vstack_T_ears (sl sr : list F) B :
  length sl = length sr →
  vstack_T (convolve sl B.*1) (convolve sr B.*2) = ([], Ok (Arr2 (ears sl sr B))).
Proof.
  intros Hlen. unfold vstack_T. rewrite decide_True; [done|].
  rewrite !length_convolve.
  destruct sl, sr, B; simplify_eq/=; rewrite ?length_fmap; lia.
Qed.

(** Mono signal, BRIR that stays two-dimensional under [np.squeeze]. *)
Lemma apply_brir_mono self S B :
  length B ≠ 1%nat →
  apply_brir self (Arr1 S) (Arr2 B)
  = ([], Ok (Arr2 (py_slice (ears S S B) (Some 0)
                     (Some (Z.of_nat (length S) + n_tail self))))).
Proof.
  intros HB. unfold apply_brir. rewrite np_squeeze_rows by done. simpl.
  erewrite bind_run by (by apply vstack_T_ears). done.
Qed.

(** Stereo signal, likewise. *)
Lemma apply_brir_stereo self (rows : list (F * F)) B :
  length B ≠ 1%nat →
  apply_brir self (Arr2 rows) (Arr2 B)
  = ([], Ok (Arr2 (py_slice (ears rows.*1 rows.*2 B) (Some 0)
                     (Some (Z.of_nat (length rows) + n_tail self))))).
Proof.
  intros HB. unfold apply_brir. rewrite np_squeeze_rows by done. simpl.
  erewrite bind_run by (apply vstack_T_ears; by rewrite !length_fmap). done.
Qed.

(** What happens on every other shape: the error is logged, and the
    statement after the branches then reads [signal_l], never assigned. *)
Lemma apply_brir_else self (signal brir : ndarray F) :
  sq_ndim (np_squeeze brir) ≠ 2%nat →
  apply_brir self signal brir
  = ([Log ERROR "Signal does not have the required shape."],
     Raise (UnboundLocalError "signal_l")).
Proof.
  intros Hnd. unfold apply_brir.
  destruct (np_squeeze brir) as [x|xs|rows]; [| |done]; by destruct signal.
Qed.

Lemma apply_brir_single_row self (signal : ndarray F) l r :
  apply_brir self signal (Arr2 [(l, r)])
  = ([Log ERROR "Signal does not have the required shape."],
     Raise (UnboundLocalError "signal_l")).
Proof. by apply apply_brir_else. Qed.

(** C10. For every mono signal [S] and every BRIR, [apply_brir] of the
    stereo signal that carries [S] in both columns equals [apply_brir] of
    [S] itself; and when the two columns of the BRIR are the same sequence
    [b], that common value is the mono convolution of [S] with [b], cut to
    [len(S) + n_tail] samples and copied into both columns (a BRIR of a
    single row excepted: [np.squeeze] flattens it and both calls end in the
    same error). *)
Theorem apply_brir_duplicated_signal self S B b :
  apply_brir self (Arr2 (duplicate S)) (Arr2 B) = apply_brir self (Arr1 S) (Arr2 B)
  ∧ apply_brir self (Arr1 S) (Arr2 (duplicate b))
    = if decide (length b = 1%nat)
      then ([Log ERROR "Signal does not have the required shape."],
            Raise (UnboundLocalError "signal_l"))
      else ([], Ok (Arr2 (duplicate (py_slice (convolve S b) (Some 0)
                                       (Some (Z.of_nat (length S) + n_tail self)))))).
Proof.
  split.
  - destruct (decide (length B = 1%nat)) as [HB|HB].
    + destruct B as [|[l r] [|? ?]]; simplify_eq/=.
      by rewrite !apply_brir_single_row.
    + rewrite apply_brir_mono, apply_brir_stereo by done.
      unfold duplicate at 3. rewrite length_fmap.
      by rewrite duplicate_fst, duplicate_snd.
  - case_decide as Hb.
    + destruct b as [|x [|? ?]]; simplify_eq/=. apply apply_brir_single_row.
    + rewrite apply_brir_mono by (unfold duplicate; by rewrite length_fmap).
      unfold ears. rewrite duplicate_fst, duplicate_snd, zip_diag.
      unfold duplicate. by rewrite py_slice_fmap.
Qed.

(** C4, as amended. For a non-empty mono signal [S], a two-column BRIR [B]
    of at least two rows and a tail [n_tail >= 0], [apply_brir] returns an
    array of shape [(len(S) + min(n_tail, len(B) - 1), 2)]: the convolution
    is cut to [len(S) + n_tail] samples but never extended, so the shape is
    [(len(S) + n_tail, 2)] when the BRIR has more than [n_tail] rows. *)
Theorem apply_brir_shape self S B :
  S ≠ [] → (2 ≤ length B)%nat → 0 ≤ n_tail self →
  ∃ out, apply_brir self (Arr1 S) (Arr2 B) = ([], Ok out)
    ∧ shape out
      = [(length S + (Z.to_nat (n_tail self) `min` (length B - 1)))%nat; 2%nat]
    ∧ (n_tail self < Z.of_nat (length B) →
       shape out = [Z.to_nat (Z.of_nat (length S) + n_tail self); 2%nat]).
Proof.
  intros HS HB Htail. eexists. split; [apply apply_brir_mono; lia|].
  simpl. rewrite py_slice_prefix by lia. rewrite length_take, length_ears.
  destruct S as [|x S]; [done|]. destruct B as [|y B]; [simpl in HB; lia|].
  simpl. split; [|intros ?]; do 2 f_equal; lia.
Qed.

(** C6. A one-dimensional BRIR, or a BRIR of a single row (which
    [np.squeeze] makes one-dimensional), is none of the supported shape
    combinations, whatever the signal: [apply_brir] logs the error and then
    raises [UnboundLocalError]; it does not return. *)
Theorem apply_brir_unsupported_raises self (signal : ndarray F) b l r :
  apply_brir self signal (Arr1 b)
  = ([Log ERROR "Signal does not have the required shape."],
     Raise (UnboundLocalError "signal_l"))
  ∧ apply_brir self signal (Arr2 [(l, r)])
    = ([Log ERROR "Signal does not have the required shape."],
       Raise (UnboundLocalError "signal_l")).
Proof.
  split; [|apply apply_brir_single_row].
  apply apply_brir_else. by destruct b as [|? [|? ?]].
Qed.

End ApplyBrir.

(** ** Truncation of reals *)

Lemma Rtrunc_IZR z : Rtrunc (IZR z) = z.
Proof.
  unfold Rtrunc. destruct (Rle_dec 0 (IZR z)) as [H|H].
  - symmetry. apply Int_part_spec. rewrite <- minus_IZR. split; [|lra].
    replace (z - 1) with (z + -1) by lia. rewrite plus_IZR. lra.
  - assert (Int_part (- IZR z) = - z) as ->; [|lia].
    rewrite <- opp_IZR. symmetry.
    apply Int_part_spec. rewrite <- minus_IZR. split; [|lra].
    replace (- z - 1) with (- z + -1) by lia. rewrite plus_IZR. lra.
Qed.

Lemma Rtrunc_mult a b : Rtrunc (IZR a * IZR b) = a * b.
Proof. rewrite <- mult_IZR. apply Rtrunc_IZR. Qed.

Lemma duration_samples_IZR (self : Renderer (F:=R)) k :
  duration_samples self (IZR k) = sample_rate self * k.
Proof. unfold duration_samples. simpl. apply Rtrunc_mult. Qed.

(** The sample counts of the default configuration. *)
Lemma default_n_tail ip op n : n_tail (default_renderer ip op n) = 8820.
Proof.
  simpl. replace (2 / 10 * 44100)%R with (IZR 8820) by lra. apply Rtrunc_IZR.
Qed.

Lemma default_ramp_samples ip op n :
  duration_samples (default_renderer ip op n) (5 / 10)%R = 22050.
Proof.
  unfold duration_samples. simpl.
  replace (44100 * (5 / 10))%R with (IZR 22050) by lra. apply Rtrunc_IZR.
Qed.

Lemma tiny_n_tail : n_tail tiny_renderer = 2.
Proof. simpl. apply (Rtrunc_mult 2 1). Qed.

Lemma trim_n_tail : n_tail trim_renderer = 2.
Proof. simpl. apply (Rtrunc_mult 2 1). Qed.

(** ** apply_brir on concrete inputs *)

(** C4, counterexample. With the default configuration ([n_tail] = 8820)
    a one-sample signal and a two-row BRIR give an array of shape (2, 2),
    not (1 + 8820, 2). *)
Lemma apply_brir_short_brir :
  ∃ out,
    apply_brir (default_renderer "in" "out" 1) (Arr1 [1%R]) (Arr2 [(1, 1); (0, 0)]%R)
    = ([], Ok out)
    ∧ shape out = [2%nat; 2%nat]
    ∧ shape out
      ≠ [Z.to_nat (Z.of_nat (length [1%R]) + n_tail (default_renderer "in" "out" 1));
         2%nat].
Proof.
  eexists. split; [by apply apply_brir_mono|].
  rewrite default_n_tail. split; [|intros [=]]. done.
Qed.

Lemma apply_brir_shape_witness :
  [1%R] ≠ [] ∧ (2 ≤ length [(1, 1); (0, 0); (0, 0)]%R)%nat ∧ 0 ≤ n_tail tiny_renderer
  ∧ ∃ out,
      apply_brir tiny_renderer (Arr1 [1%R]) (Arr2 [(1, 1); (0, 0); (0, 0)]%R)
      = ([], Ok out)
      ∧ shape out
        = [(length [1%R]
            + (Z.to_nat (n_tail tiny_renderer)
               `min` (length [(1, 1); (0, 0); (0, 0)]%R - 1)))%nat; 2%nat]
      ∧ (n_tail tiny_renderer < Z.of_nat (length [(1, 1); (0, 0); (0, 0)]%R) →
         shape out
         = [Z.to_nat (Z.of_nat (length [1%R]) + n_tail tiny_renderer); 2%nat]).
Proof.
  assert (0 ≤ n_tail tiny_renderer) as Htail by (rewrite tiny_n_tail; lia).
  split; [done|]. split; [simpl; lia|]. split; [exact Htail|].
  apply (apply_brir_shape tiny_renderer [1%R] [(1, 1); (0, 0); (0, 0)]%R);
    [done | simpl; lia | exact Htail].
Defined.
(** ** compute_snr *)

Section ComputeSnr.
Context {F : Type} `{!Float64 F}.
Variable metric : ndarray F → ndarray F → F.
Set Default Proof Using "Type".
Implicit Types (self : Renderer (F:=F)) (target noise : ndarray F).

Lemma compute_snr_run self target noise pre post :
  compute_snr metric self target noise pre post
  = if decide (arr_len (snr_segment self target) = arr_len (snr_segment self noise))
    then ([SnrMetric (snr_segment self target) (snr_segment self noise)],
          Ok (metric (snr_segment self target) (snr_segment self noise)))
    else ([], Raise (ValueError (mismatch_message
                                   (arr_len (snr_segment self target))
                                   (arr_len (snr_segment self noise))))).
Proof. unfold compute_snr, snr_segment. by case_decide. Qed.

(** The arguments [pre_samples] and [post_samples] have no effect. *)
Lemma compute_snr_arguments self target noise pre post pre' post' :
  compute_snr metric self target noise pre post
  = compute_snr metric self target noise pre' post'.
Proof. done. Qed.


End ComputeSnr.

(** The segment that the small renderers trim. *)
Lemma tiny_segment (a : ndarray R) :
  snr_segment tiny_renderer a = arr_slice a (Some 1) (Some (-1)).
Proof.
  unfold snr_segment.
  change (pre_duration tiny_renderer) with (IZR 1).
  change (post_duration tiny_renderer) with (IZR 1).
  by rewrite !duration_samples_IZR.
Qed.

Lemma trim_segment (a : ndarray R) :
  snr_segment trim_renderer a = arr_slice a (Some 2) (Some (-1)).
Proof.
  unfold snr_segment.
  change (pre_duration trim_renderer) with (IZR 2).
  change (post_duration trim_renderer) with (IZR 1).
  by rewrite !duration_samples_IZR.
Qed.



(** C3. [compute_snr] does not use the [pre_samples] and [post_samples] it
    is given.  On a renderer whose configured margins are 2 and 1 samples,
    a call with [pre_samples = 1] and [post_samples = 1] on five-sample
    signals hands the metric the samples 2..3 (margins 2 and 1), not the
    samples 1..3 that the arguments ask for; and any two calls that differ
    only in these arguments behave alike. *)
Theorem compute_snr_ignores_arguments
    (metric : ndarray R → ndarray R → R) (pre post pre' post' : Z)
    (self : Renderer (F:=R)) (target noise : ndarray R) :
  compute_snr metric trim_renderer
    (Arr1 [10; 11; 12; 13; 14]%R) (Arr1 [20; 21; 22; 23; 24]%R) 1 1
  = ([SnrMetric (Arr1 [12; 13]%R) (Arr1 [22; 23]%R)],
     Ok (metric (Arr1 [12; 13]%R) (Arr1 [22; 23]%R)))
  ∧ arr_slice (Arr1 [10; 11; 12; 13; 14]%R) (Some 1) (Some (- 1))
    = Arr1 [11; 12; 13]%R
  ∧ compute_snr metric self target noise pre post
    = compute_snr metric self target noise pre' post'.
Proof.
  split; [|split; done].
  rewrite compute_snr_run, !trim_segment. done.
Qed.
(** ** write_signal *)

Lemma wrap16_range z : -32768 ≤ wrap16 z ≤ 32767.
Proof. unfold wrap16. pose proof (Z.mod_pos_bound (z + 32768) 65536). lia. Qed.

Lemma foldr_max_le (bound x : Z) xs :
  x ≤ bound → Forall (λ y, y ≤ bound) xs → foldr Z.max x xs ≤ bound.
Proof. intros Hx. induction 1; simpl; lia. Qed.

Lemma foldr_min_ge (bound x : Z) xs :
  bound ≤ x → Forall (λ y, bound ≤ y) xs → bound ≤ foldr Z.min x xs.
Proof. intros Hx. induction 1; simpl; lia. Qed.

Section WriteSignal.
Context {F : Type} `{!Float64 F}.
Implicit Types (self : Renderer (F:=F)) (signal : ndarray F).

Lemma arr_flat_int16 signal :
  Forall (λ y, -32768 ≤ y ≤ 32767) (arr_flat (arr_map astype_int16 signal)).
Proof.
  destruct signal as [xs|rows]; simpl.
  - apply Forall_fmap, Forall_true. intros x. apply wrap16_range.
  - induction rows as [|[l r] rows IH]; simpl; [constructor|].
    repeat constructor; try apply wrap16_range. exact IH.
Qed.

(** After [astype] every sample is an int16, so the assertion on the
    converted array holds whatever the scaled samples were. *)
Lemma write_signal_pcm16 self filename signal :
  test_nbits self = 16 → arr_flat signal ≠ [] →
  write_signal self filename signal (sample_rate self) false
  = ([SoundfileWrite filename
        (Int16s (arr_map astype_int16 (arr_map (λ x, fmul x (of_int 32768)) signal)))
        (sample_rate self) "PCM_16"], Ok ()).
Proof.
  intros Hbits Hne. unfold write_signal. rewrite Hbits, Z.eqb_refl. simpl.
  set (scaled := arr_map _ signal).
  pose proof (arr_flat_int16 scaled) as Hrange.
  destruct (arr_flat (arr_map astype_int16 scaled)) as [|x xs] eqn:Hflat.
  { exfalso. apply Hne. subst scaled.
    destruct signal as [[|??]|[|[??]?]]; simplify_eq/=; done. }
  apply Forall_cons in Hrange as [Hx Hxs]. simpl.
  assert (foldr Z.max x xs ≤ 32767) as Hmax
    by (apply foldr_max_le; [lia|]; eapply Forall_impl; [done|]; simpl; lia).
  assert (-32768 ≤ foldr Z.min x xs) as Hmin
    by (apply foldr_min_ge; [lia|]; eapply Forall_impl; [done|]; simpl; lia).
  apply Z.leb_le in Hmax. apply Z.geb_le in Hmin.
  unfold mbind, M_bind, bind, mret, M_ret, ret. simpl.
  rewrite Hmax. simpl. rewrite Hmin, Z.eqb_refl. done.
Qed.

End WriteSignal.

(** C8. With the default 16-bit configuration, [write_signal] of the single
    sample 1.0 with [floating_point = False] scales it to 32768, outside
    [-32768, 32767]; the conversion to int16 wraps it to -32768, the
    assertion is evaluated on the converted array and holds, and the file is
    written: nothing is raised. *)
Theorem write_signal_full_scale_wraps :
  (1 * 32768 > 32767)%R
  ∧ write_signal (default_renderer "in" "out" 1) "out/S1_mixed_CH1.wav"
      (Arr1 [1%R]) 44100 false
    = ([SoundfileWrite "out/S1_mixed_CH1.wav" (Int16s (Arr1 [-32768])) 44100 "PCM_16"],
       Ok ()).
Proof.
  split; [lra|].
  change 44100 with (sample_rate (default_renderer "in" "out" 1)) at 1 2.
  rewrite write_signal_pcm16 by done.
  simpl. unfold astype_int16. simpl. by rewrite (Rtrunc_mult 1 32768).
Qed.
(** ** apply_ramp *)

Section Ramp.
Context {F : Type} `{!Float64 F}.
Implicit Types (self : Renderer (F:=F)) (S w : list F).

Lemma linspace_run (start stop : F) (num : Z) :
  0 ≤ num →
  ∃ grid, linspace start stop num = ([], Ok grid)
    ∧ length grid = Z.to_nat num
    ∧ (1 ≤ num →
       ∃ step, grid !! 0%nat = Some (fadd (fmul (of_int 0) step) start)).
Proof.
  intros Hnum. unfold linspace.
  destruct (num <? 0) eqn:Hneg; [lia|]. clear Hneg.
  eexists. split; [done|].
  set (y := (if 0 <? num - 1 then _ else _) : list F).
  assert (length y = Z.to_nat num) as Hy.
  { subst y. case_match; by rewrite !length_fmap, length_seqZ. }
  split.
  - case_match; [|done].
    rewrite length_app, length_take, Hy. simpl. lia.
  - intros Hpos.
    assert (∃ step, y !! 0%nat = Some (fadd (fmul (of_int 0) step) start))
      as [step Hstep].
    { subst y. rewrite (seqZ_cons 0 num) by lia.
      case_match; simpl; by eexists. }
    exists step. case_match; [|done].
    rewrite lookup_app_l by (rewrite length_take, Hy; lia).
    rewrite lookup_take_lt by lia. done.
Qed.

Lemma half_cosine_run (n : Z) :
  0 ≤ n →
  ∃ ramp, half_cosine n = ([], Ok ramp)
    ∧ length ramp = Z.to_nat n
    ∧ (1 ≤ n →
       ∃ step, ramp !! 0%nat
               = Some (fdiv (fadd (fcos (fadd (fmul (of_int 0) step) math_pi))
                                  (of_int 1)) (of_int 2))).
Proof.
  intros Hn. unfold half_cosine.
  destruct (linspace_run math_pi (fmul (of_int 2) math_pi) n Hn)
    as (grid & -> & Hlen & Hfirst).
  eexists. split; [done|]. split; [by rewrite !length_fmap|].
  intros Hpos. destruct (Hfirst Hpos) as [step Hstep]. exists step.
  by rewrite !list_lookup_fmap, Hstep.
Qed.

Lemma broadcast_to_same k w : length w = k → broadcast_to k w = ([], Ok w).
Proof. intros. unfold broadcast_to. by rewrite decide_True. Qed.

Lemma broadcast_to_mismatch k w :
  length w ≠ k → length w ≠ 1%nat →
  broadcast_to k w = ([], Raise (ValueError "operands could not be broadcast together")).
Proof.
  intros. unfold broadcast_to. rewrite decide_False by done.
  by destruct w as [|? [|? ?]].
Qed.

(** [S[0:k] *= w] for a window [w] of [k] samples, on a signal of at least
    [k] samples. *)
Lemma imul_slice_head S w k :
  length w = k → (k ≤ length S)%nat →
  imul_slice (Arr1 S) (Some 0) (Some (Z.of_nat k)) w
  = ([], Ok (Arr1 (zip_with fmul (take k S) w ++ drop k S))).
Proof.
  intros Hw Hlen. unfold imul_slice, slice_bounds. simpl.
  rewrite !slice_index_nonneg by lia. simpl.
  rewrite Nat2Z.id, Nat.min_l, Nat.sub_0_r, drop_0 by lia.
  by rewrite broadcast_to_same.
Qed.

(** [S[-k:] *= w] for a window [w] of [k >= 1] samples, on a signal of at
    least [k] samples. *)
Lemma imul_slice_tail S w k :
  length w = k → (1 ≤ k ≤ length S)%nat →
  imul_slice (Arr1 S) (Some (- Z.of_nat k)) None w
  = ([], Ok (Arr1 (take (length S - k) S ++ zip_with fmul (drop (length S - k) S) w))).
Proof.
  intros Hw Hlen. unfold imul_slice, slice_bounds. simpl.
  rewrite slice_index_neg by lia.
  replace (Z.to_nat (- - Z.of_nat k)) with k by lia.
  rewrite Nat.max_r by lia.
  replace (length S - (length S - k))%nat with k by lia.
  rewrite broadcast_to_same by done. simpl.
  rewrite (drop_ge S (length S)), app_nil_r by lia.
  rewrite (take_ge (drop _ S)) by (rewrite length_drop; lia). done.
Qed.

(** A signal shorter than the window cannot be multiplied by it. *)
Lemma imul_slice_head_short S w k :
  length w = k → (length S < k)%nat → k ≠ 1%nat →
  imul_slice (Arr1 S) (Some 0) (Some (Z.of_nat k)) w
  = ([], Raise (ValueError "operands could not be broadcast together")).
Proof.
  intros Hw Hlen Hone. unfold imul_slice, slice_bounds. simpl.
  rewrite !slice_index_nonneg by lia. simpl.
  rewrite Nat2Z.id, Nat.min_r, Nat.sub_0_r by lia.
  by rewrite broadcast_to_mismatch by lia.
Qed.

End Ramp.

(** The half-cosine window starts at [(cos pi + 1) / 2 = 0]. *)
Lemma half_cosine_R (n : Z) :
  1 ≤ n →
  ∃ ramp : list R, half_cosine n = ([], Ok ramp)
    ∧ length ramp = Z.to_nat n ∧ ramp !! 0%nat = Some 0%R.
Proof.
  intros Hn.
  destruct (half_cosine_run (F:=R) n) as (ramp & Hrun & Hlen & Hfirst); [lia|].
  exists ramp. split; [done|]. split; [done|].
  destruct (Hfirst Hn) as [step ->]. f_equal. simpl.
  replace (0 * step + PI)%R with PI by lra. rewrite cos_PI. lra.
Qed.

(** *** The window over the reals, for any conversion to integers *)

Section RampFrame.
Variable int : R → Z.
Let machine : Float64 R := real_float64 int.
#[local] Existing Instance machine | 0.

Lemma half_cosine_real (n : Z) :
  1 ≤ n →
  ∃ ramp : list R, half_cosine n = ([], Ok ramp)
    ∧ length ramp = Z.to_nat n ∧ ramp !! 0%nat = Some 0%R.
Proof.
  intros Hn.
  destruct (half_cosine_run (F:=R) n) as (ramp & Hrun & Hlen & Hfirst); [lia|].
  exists ramp. split; [done|]. split; [done|].
  destruct (Hfirst Hn) as [step ->]. f_equal. simpl.
  replace (0 * step + PI)%R with PI by lra. rewrite cos_PI. lra.
Qed.

(** C9, as amended. For a mono signal [S] and a ramp duration [D] whose
    window length [L = int(sample_rate * D)] satisfies [1 <= L <= len(S)],
    [apply_ramp] returns a signal of the same length in which every sample
    strictly between the two windows is unchanged and the first and the last
    sample are scaled by [(cos pi + 1) / 2], which is zero.  [L] is the
    integer the conversion [int] makes of the product, whatever that
    conversion is: the statement does not rest on how the product is
    rounded. *)
Theorem apply_ramp_frame (self : Renderer (F:=R)) (S : list R) (D : R) :
  1 ≤ duration_samples self D ≤ Z.of_nat (length S) →
  ∃ out, apply_ramp self (Arr1 S) D = ([], Ok (Arr1 out))
    ∧ length out = length S
    ∧ (∀ i, (Z.to_nat (duration_samples self D) ≤ i
             < length S - Z.to_nat (duration_samples self D))%nat →
            out !! i = S !! i)
    ∧ out !! 0%nat = (λ x, (x * 0)%R) <$> S !! 0%nat
    ∧ out !! (length S - 1)%nat = (λ x, (x * 0)%R) <$> S !! (length S - 1)%nat.
Proof.
  intros HL. unfold apply_ramp.
  destruct (half_cosine_real (duration_samples self D)) as (ramp & -> & Hlen & Hr0);
    [lia|].
  set (L := Z.to_nat (duration_samples self D)) in *.
  assert (1 ≤ L ≤ length S)%nat as HLn by lia.
  erewrite bind_run by done. simpl.
  rewrite (imul_slice_head S ramp (length ramp)) by lia. simpl.
  set (S1 := zip_with Rmult (take (length ramp) S) ramp ++ drop (length ramp) S).
  assert (length S1 = length S) as HS1.
  { subst S1. rewrite length_app, length_zip_with, length_take, length_drop. lia. }
  rewrite (imul_slice_tail S1 (reverse ramp) (length ramp))
    by (rewrite ?length_reverse; lia).
  simpl. eexists. split; [done|].
  assert (∀ i x, S !! i = Some x → (i < length ramp)%nat →
                 ∃ r, ramp !! i = Some r ∧ S1 !! i = Some (x * r)%R) as Hin.
  { intros i x Hx Hi. destruct (lookup_lt_is_Some_2 ramp i) as [r Hr]; [lia|].
    exists r. split; [done|]. subst S1.
    rewrite lookup_app_l by (rewrite length_zip_with, length_take; lia).
    rewrite lookup_zip_with, lookup_take_lt, Hx, Hr by lia. done. }
  assert (∀ i, (length ramp ≤ i)%nat → S1 !! i = S !! i) as Hout.
  { intros i Hi. subst S1.
    rewrite lookup_app_r by (rewrite length_zip_with, length_take; lia).
    rewrite length_zip_with, length_take, lookup_drop. f_equal. lia. }
  rewrite HS1. split; [|split; [|split]].
  - rewrite length_app, length_take, length_zip_with, length_drop, length_reverse. lia.
  - intros i Hi.
    rewrite lookup_app_l by (rewrite length_take; lia).
    rewrite lookup_take_lt by lia. apply Hout. lia.
  - destruct (lookup_lt_is_Some_2 S 0) as [x Hx]; [lia|]. rewrite Hx. simpl.
    destruct (Hin 0%nat x Hx) as (r & Hr & HS10); [lia|].
    rewrite Hr0 in Hr. simplify_eq.
    destruct (decide (length S = length ramp)) as [Heq|Hne].
    + rewrite Heq, Nat.sub_diag. simpl. rewrite drop_0.
      destruct (lookup_lt_is_Some_2 (reverse ramp) 0) as [r' Hr'];
        [rewrite length_reverse; lia|].
      rewrite lookup_zip_with, HS10, Hr'. simpl. f_equal. lra.
    + rewrite lookup_app_l by (rewrite length_take; lia).
      rewrite lookup_take_lt by lia. done.
  - destruct (lookup_lt_is_Some_2 S (length S - 1)) as [x Hx]; [lia|].
    rewrite Hx. simpl.
    rewrite lookup_app_r by (rewrite length_take; lia).
    rewrite length_take, lookup_zip_with, lookup_drop.
    replace (length S - length ramp + (length S - 1 - (length S - length ramp) `min` length S1))%nat
      with (length S - 1)%nat by lia.
    replace (length S - 1 - (length S - length ramp) `min` length S1)%nat
      with (length ramp - 1)%nat by lia.
    rewrite reverse_lookup by lia.
    replace (length ramp - Datatypes.S (length ramp - 1))%nat with 0%nat by lia.
    rewrite Hr0.
    destruct (decide (length ramp ≤ length S - 1)%nat) as [Hle|Hgt].
    + rewrite Hout, Hx by lia. done.
    + destruct (Hin (length S - 1)%nat x Hx) as (r & Hr & ->); [lia|].
      simpl. f_equal. lra.
Qed.

End RampFrame.

Lemma apply_ramp_frame_witness :
  1 ≤ duration_samples tiny_renderer 1%R ≤ Z.of_nat (length [3; 4; 5; 6]%R)
  ∧ ∃ out, apply_ramp tiny_renderer (Arr1 [3; 4; 5; 6]%R) 1%R = ([], Ok (Arr1 out))
      ∧ length out = length [3; 4; 5; 6]%R
      ∧ (∀ i, (Z.to_nat (duration_samples tiny_renderer 1%R) ≤ i
               < length [3; 4; 5; 6]%R
                 - Z.to_nat (duration_samples tiny_renderer 1%R))%nat →
              out !! i = [3; 4; 5; 6]%R !! i)
      ∧ out !! 0%nat = (λ x, (x * 0)%R) <$> [3; 4; 5; 6]%R !! 0%nat
      ∧ out !! (length [3; 4; 5; 6]%R - 1)%nat
        = (λ x, (x * 0)%R) <$> [3; 4; 5; 6]%R !! (length [3; 4; 5; 6]%R - 1)%nat.
Proof.
  assert (1 ≤ duration_samples tiny_renderer 1%R ≤ Z.of_nat (length [3; 4; 5; 6]%R))
    as HL by (rewrite (duration_samples_IZR tiny_renderer 1); simpl; lia).
  split; [exact HL|].
  exact (apply_ramp_frame Rtrunc tiny_renderer [3; 4; 5; 6]%R 1%R HL).
Defined.

(** C9, counterexample. With the default configuration the window has
    22050 samples; on a signal of two samples the in-place multiplication
    of [apply_ramp] raises [ValueError], so no ramped signal is returned. *)
Lemma apply_ramp_short_signal :
  apply_ramp (default_renderer "in" "out" 1) (Arr1 [1; 1]%R) (5 / 10)%R
  = ([], Raise (ValueError "operands could not be broadcast together"))
  ∧ ¬ ∃ out, returns (apply_ramp (default_renderer "in" "out" 1)
                        (Arr1 [1; 1]%R) (5 / 10)%R) out.
Proof.
  assert (apply_ramp (default_renderer "in" "out" 1) (Arr1 [1; 1]%R) (5 / 10)%R
          = ([], Raise (ValueError "operands could not be broadcast together")))
    as Hrun.
  { unfold apply_ramp. rewrite default_ramp_samples.
    destruct (half_cosine_run (F:=R) 22050) as (ramp & -> & Hlen & _); [lia|].
    erewrite bind_run by done. simpl.
    rewrite (imul_slice_head_short [1; 1]%R ramp (length ramp)); [done..| |];
      rewrite Hlen; simpl; lia. }
  split; [exact Hrun|].
  intros [out Hout]. unfold returns, outcome in Hout. by rewrite Hrun in Hout.
Qed.
(** ** render *)

(** Destructs a successful sequence [H : m ≫= k = (evs, Ok b)] into the run
    [H1] of [m], with value [a], and the run [H] of the rest. *)
Tactic Notation "inv_bind" hyp(H) "as" ident(a) ident(H1) :=
  let e1 := fresh "e" in let e2 := fresh "e" in
  apply bind_Ok in H as (e1 & a & e2 & H1 & H & ->).

Section Silent.
Context {F : Type} `{!Float64 F}.
Implicit Types (self : Renderer (F:=F)).

Lemma silent_ret {A} (a : A) : silent (mret a : M F A).
Proof. done. Qed.

Lemma silent_raise {A} e : silent (raise e : M F A).
Proof. done. Qed.

Lemma silent_bind {A B} (m : M F A) (k : A → M F B) :
  silent m → (∀ a, silent (k a)) → silent (m ≫= k).
Proof.
  destruct m as [evs [a|e]]; intros Hm Hk; [|exact Hm].
  specialize (Hk a). hnf in Hm, Hk |- *. simpl in Hm. subst evs.
  unfold mbind, M_bind, bind. destruct (k a) as [? ?]. simpl in *. by subst.
Qed.

Lemma silent_run {A} (m : M F A) evs r : silent m → m = (evs, r) → evs = [].
Proof. intros Hs ->. exact Hs. Qed.

Lemma silent_read_signal self fs fn offset nsamples nchannels samples :
  silent (read_signal self fs fn offset nsamples nchannels samples).
Proof.
  unfold read_signal. destruct (fs !! fn); [|reflexivity].
  do 2 (case_match; [reflexivity|]). apply silent_bind; [|reflexivity].
  unfold sf_seek. repeat case_match; reflexivity.
Qed.

Lemma silent_np_pad (a : ndarray F) before after : silent (np_pad a before after).
Proof. unfold np_pad. repeat case_match; reflexivity. Qed.

Lemma silent_linspace (start stop : F) num : silent (linspace start stop num).
Proof. unfold linspace. case_match; reflexivity. Qed.

Lemma silent_imul_slice (a : ndarray F) start stop w :
  silent (imul_slice a start stop w).
Proof.
  unfold imul_slice. destruct (slice_bounds _ _ _), a.
  - apply silent_bind; [|reflexivity]. unfold broadcast_to.
    repeat case_match; reflexivity.
  - apply silent_bind; [|reflexivity]. unfold broadcast_row.
    repeat case_match; reflexivity.
Qed.

Lemma silent_apply_ramp self (signal : ndarray F) D : silent (apply_ramp self signal D).
Proof.
  unfold apply_ramp, half_cosine.
  repeat (apply silent_bind; [|intros ?]);
    auto using silent_linspace, silent_imul_slice, silent_ret.
Qed.

(** [apply_brir] logs only on the path that raises. *)
Lemma apply_brir_Ok self (signal brir : ndarray F) evs out :
  apply_brir self signal brir = (evs, Ok out) → evs = [].
Proof.
  destruct (decide (sq_ndim (np_squeeze brir) = 2%nat)) as [Hnd|Hnd].
  - intros Hrun. refine (silent_run _ _ _ _ Hrun).
    unfold apply_brir. destruct (np_squeeze brir) as [| |rows]; try done.
    destruct signal; (apply silent_bind; [reflexivity|]); intros [[l r]|];
      try reflexivity;
      (apply silent_bind; [|reflexivity]); unfold vstack_T; case_decide; reflexivity.
  - by rewrite apply_brir_else.
Qed.

End Silent.
Section Render.
Context {F : Type} `{!Float64 F}.
Variable metric : ndarray F → ndarray F → F.
Variable sum_signals : list (ndarray F) → ndarray F.
Set Default Proof Using "Type".
Implicit Types (self : Renderer (F:=F)) (fs : filesystem (F:=F)).
Implicit Types (evs : list (event F)) (pair : ndarray F * ndarray F).

Lemma snr_calls_app evs1 evs2 :
  snr_calls (evs1 ++ evs2) = snr_calls evs1 ++ snr_calls evs2.
Proof. apply omap_app. Qed.

Lemma written_app evs1 evs2 : written (evs1 ++ evs2) = written evs1 ++ written evs2.
Proof. apply omap_app. Qed.

Lemma at_ear_intro self fs fn signal brir e1 e2 out :
  read_signal_default self fs fn = (e1, Ok brir) →
  apply_brir self signal brir = (e2, Ok out) →
  at_ear self fs fn signal = ([], Ok out).
Proof.
  intros Hread Hbrir. unfold at_ear.
  pose proof (silent_run _ _ _ (silent_read_signal _ _ _ _ _ _ _) Hread) as ->.
  pose proof (apply_brir_Ok _ _ _ _ _ Hbrir) as ->.
  erewrite bind_run by done. by rewrite Hbrir.
Qed.

(** One round of the loop. *)
Lemma render_channel_Ok self fs stem prefix target signal snr_dB pre post st c evs st' :
  render_channel metric sum_signals self fs stem prefix target signal
    snr_dB pre post st c = (evs, Ok st') →
  ∃ tb pair,
    read_signal_default self fs (target_brir_fn stem c) = ([], Ok tb)
    ∧ at_ear self fs (target_brir_fn stem c) target = ([], Ok pair.1)
    ∧ at_ear self fs (interferer_brir_fn stem c) signal = ([], Ok pair.2)
    ∧ st' = {| st_snr_ref := Some (default (pair_gain metric self pair) (st_snr_ref st));
               st_outputs := st_outputs st
                 ++ named prefix
                      (channel_entries sum_signals snr_dB
                         (default (pair_gain metric self pair) (st_snr_ref st)) c pair);
               st_target_brir := Some tb |}
    ∧ snr_calls evs
      = match st_snr_ref st with
        | None => [(snr_segment self pair.1, snr_segment self pair.2)]
        | Some _ => []
        end
    ∧ written evs = [].
Proof.
  unfold render_channel. intros Hrun.
  inv_bind Hrun as tb Htb. inv_bind Hrun as ib Hib.
  inv_bind Hrun as tae Htae. inv_bind Hrun as iae Hiae.
  inv_bind Hrun as u Hlog. inv_bind Hrun as g Hg.
  exists tb, (tae, iae). simpl.
  split; [by rewrite (silent_run _ _ _ (silent_read_signal _ _ _ _ _ _ _) Htb) in Htb|].
  split; [by eapply at_ear_intro|].
  split; [by eapply at_ear_intro|].
  pose proof (silent_run _ _ _ (silent_read_signal _ _ _ _ _ _ _) Htb) as ->.
  pose proof (silent_run _ _ _ (silent_read_signal _ _ _ _ _ _ _) Hib) as ->.
  apply apply_brir_Ok in Htae as ->. apply apply_brir_Ok in Hiae as ->.
  injection Hlog as <-. injection Hrun as <- <-.
  destruct (st_snr_ref st) as [g0|]; simpl in *.
  - injection Hg as <- <-. done.
  - inv_bind Hg as g1 Hsnr. injection Hg as <- <-.
    rewrite compute_snr_run in Hsnr. case_decide; [|done].
    injection Hsnr as <- <-. done.
Qed.

(** The whole loop, from any state: a state in which [snr_ref] is set
    keeps it and calls the metric no more. *)
Lemma render_loop_Ok self fs stem prefix target signal snr_dB pre post chans :
  ∀ st evs st',
  for_each (render_channel metric sum_signals self fs stem prefix target signal
              snr_dB pre post) chans st = (evs, Ok st') →
  ∃ pairs,
    at_ear_pairs self fs stem target signal chans pairs
    ∧ st_snr_ref st'
      = match st_snr_ref st with
        | Some g => Some g
        | None => pair_gain metric self <$> head pairs
        end
    ∧ (∀ g, st_snr_ref st' = Some g →
            st_outputs st'
            = st_outputs st
              ++ named prefix (all_channel_entries sum_signals snr_dB g chans pairs))
    ∧ (chans = [] → st' = st)
    ∧ snr_calls evs
      = match st_snr_ref st with Some _ => [] | None => first_call self pairs end
    ∧ written evs = []
    ∧ (∀ c, last chans = Some c →
            ∃ tb, read_signal_default self fs (target_brir_fn stem c) = ([], Ok tb)
                  ∧ st_target_brir st' = Some tb).
Proof.
  induction chans as [|c chans IH]; intros st evs st' Hrun; simpl in Hrun.
  - injection Hrun as <- <-. exists []. unfold at_ear_pairs, all_channel_entries, named.
    repeat split; try done.
    + by destruct (st_snr_ref st).
    + intros. simpl. by rewrite app_nil_r.
    + by destruct (st_snr_ref st).
  - inv_bind Hrun as st1 Hc.
    apply render_channel_Ok in Hc
      as (tb & pair & Htb & Ht & Hi & -> & Hcalls & Hwr).
    apply IH in Hrun as (pairs & Hpairs & Href & Houts & Hnil & Hcalls' & Hwr' & Hlast).
    simpl in *. exists (pair :: pairs).
    split; [by constructor|].
    split; [rewrite Href; by destruct (st_snr_ref st)|].
    split; [|split; [done|split; [|split]]].
    + intros g Hg. rewrite (Houts g Hg). rewrite Href in Hg. simplify_eq.
      unfold all_channel_entries, named. simpl.
      by rewrite <- app_assoc.
    + rewrite snr_calls_app, Hcalls, Hcalls'.
      by destruct (st_snr_ref st).
    + by rewrite written_app, Hwr, Hwr'.
    + intros c' Hc'. destruct chans as [|c2 chans].
      * simplify_eq/=. rewrite Hnil by done. by exists tb.
      * apply Hlast. by rewrite last_cons_cons in Hc'.
Qed.

(** What a successful [render] has computed when it starts writing. *)
Lemma render_outputs_Ok self fs target noise_type interferer room scene
    offset snr_dB dataset pre post evs outs :
  render_outputs metric sum_signals self fs target noise_type interferer room scene
    offset snr_dB dataset pre post = (evs, Ok outs) →
  ∃ t0 padded sig0 ramped pairs tb anech ta,
    read_signal_default self fs (target_fn self dataset target) = ([], Ok t0)
    ∧ np_pad t0 pre post = ([], Ok padded)
    ∧ read_signal self fs (interferer_fn self dataset noise_type interferer)
        offset (Z.of_nat (arr_len padded)) 0 true = ([], Ok sig0)
    ∧ apply_ramp self sig0 (ramp_duration self) = ([], Ok ramped)
    ∧ at_ear_pairs self fs (brir_stem self dataset room) padded ramped
        (channels self) pairs
    ∧ read_signal_default self fs
        (target_brir_fn (brir_stem self dataset room) (default 0 (last (channels self))))
      = ([], Ok tb)
    ∧ read_signal_default self fs (anechoic_brir_fn self dataset room) = ([], Ok anech)
    ∧ apply_brir self padded (pad anech (arr_len tb)) = ([], Ok ta)
    ∧ outs
      = named (out_prefix self scene)
          (scene_entries sum_signals snr_dB (first_gain metric self pairs)
             padded ramped (channels self) pairs ta)
    ∧ snr_calls evs = first_call self pairs
    ∧ written evs = [].
Proof.
  unfold render_outputs. intros Hrun.
  inv_bind Hrun as t0 Ht0. inv_bind Hrun as padded Hpad.
  inv_bind Hrun as sig0 Hsig. inv_bind Hrun as u Hdbg.
  inv_bind Hrun as ramped Hramp. inv_bind Hrun as st Hloop.
  inv_bind Hrun as otb Hotb. inv_bind Hrun as anech Hanech.
  pose proof (silent_run _ _ _ (silent_read_signal _ _ _ _ _ _ _) Ht0) as ->.
  pose proof (silent_run _ _ _ (silent_np_pad _ _ _) Hpad) as ->.
  pose proof (silent_run _ _ _ (silent_read_signal _ _ _ _ _ _ _) Hsig) as ->.
  pose proof (silent_run _ _ _ (silent_apply_ramp _ _ _) Hramp) as ->.
  pose proof (silent_run _ _ _ (silent_read_signal _ _ _ _ _ _ _) Hanech) as ->.
  apply render_loop_Ok in Hloop
    as (pairs & Hpairs & Href & Houts & Hnil & Hcalls & Hwr & Hlast).
  simpl in Href, Hcalls.
  assert (e5 = [] ∧ ∃ tb, otb = Some tb
            ∧ read_signal_default self fs
                (target_brir_fn (brir_stem self dataset room)
                   (default 0 (last (channels self)))) = ([], Ok tb))
    as (-> & tb & -> & Htb).
  { case_decide as Hch.
    - inv_bind Hotb as tb Htb. cbv [mret M_ret ret] in Hotb.
      injection Hotb as <- <-.
      pose proof (silent_run _ _ _ (silent_read_signal _ _ _ _ _ _ _) Htb) as ->.
      split; [done|]. exists tb. split; [done|]. by rewrite Hch.
    - cbv [mret M_ret ret] in Hotb. simplify_eq. split; [done|].
      destruct (last (channels self)) as [c|] eqn:Hc;
        [|by apply last_None in Hc].
      destruct (Hlast c eq_refl) as (tb & Htb & Hst). by exists tb. }
  inv_bind Hrun as ta Hta. injection Hrun as <- <-.
  apply apply_brir_Ok in Hta as He. subst.
  assert (u = ()) as -> by by destruct u.
  assert (snr_calls e2 = [] ∧ written e2 = []) as [Hc2 Hw2]
    by (destruct (decide (arr_len padded ≠ String.length interferer));
        cbv [mret M_ret ret emit] in Hdbg; by simplify_eq).
  exists t0, padded, sig0, ramped, pairs, tb, anech, ta.
  repeat (split; [done|]).
  split; [|split].
  - destruct pairs as [|pair pairs].
    + apply Forall2_nil_inv_r in Hpairs. rewrite Hnil by done.
      unfold scene_entries, all_channel_entries. rewrite Hpairs. done.
    + simpl in Href. rewrite (Houts _ Href).
      unfold scene_entries, named. rewrite !fmap_app, <- app_assoc. done.
  - rewrite !snr_calls_app, Hc2, Hcalls. simpl. by rewrite app_nil_r.
  - rewrite !written_app, Hw2, Hwr. done.
Qed.

Lemma write_signal_float self filename (signal : ndarray F) :
  write_signal self filename signal (sample_rate self) true
  = ([SoundfileWrite filename (Floats signal) (sample_rate self) "FLOAT"], Ok ()).
Proof. unfold write_signal. rewrite Z.eqb_refl. done. Qed.

(** The loop that writes the recorded entries. *)
Lemma write_all_run self (outs : list (string * ndarray F)) :
  for_each (λ _ out, write_signal self out.1 out.2 (sample_rate self) true) outs ()
  = ((λ out, SoundfileWrite out.1 (Floats out.2) (sample_rate self) "FLOAT") <$> outs,
     Ok ()).
Proof.
  induction outs as [|out outs IH]; [done|]. simpl.
  erewrite bind_run by apply write_signal_float. by rewrite IH.
Qed.

Lemma written_writes self (outs : list (string * ndarray F)) :
  written ((λ out, SoundfileWrite out.1 (Floats out.2) (sample_rate self) "FLOAT")
             <$> outs)
  = (λ out, (out.1, Floats out.2)) <$> outs.
Proof. induction outs as [|[fn a] outs IH]; [done|]. simpl. by f_equal. Qed.

Lemma snr_calls_writes self (outs : list (string * ndarray F)) :
  snr_calls ((λ out, SoundfileWrite out.1 (Floats out.2) (sample_rate self) "FLOAT")
               <$> outs) = [].
Proof. by induction outs. Qed.

(** [render] succeeds exactly when its computations do, and then writes
    every recorded entry once, in order. *)
Lemma render_Ok self fs target noise_type interferer room scene
    offset snr_dB dataset pre post evs :
  render metric sum_signals self fs target noise_type interferer room scene
    offset snr_dB dataset pre post = (evs, Ok ()) ↔
  ∃ evs0 outs,
    render_outputs metric sum_signals self fs target noise_type interferer room scene
      offset snr_dB dataset pre post = (evs0, Ok outs)
    ∧ evs = evs0 ++ ((λ out, SoundfileWrite out.1 (Floats out.2)
                               (sample_rate self) "FLOAT") <$> outs).
Proof.
  unfold render. split.
  - intros Hrun. inv_bind Hrun as outs Houts.
    rewrite write_all_run in Hrun. injection Hrun as <-. by eauto.
  - intros (evs0 & outs & Houts & ->).
    erewrite bind_run by done. by rewrite write_all_run.
Qed.

End Render.
(** ** Calls of the metric, in runs that succeed or fail *)

Section Calls.
Context {F : Type} `{!Float64 F}.
Variable metric : ndarray F → ndarray F → F.
Variable sum_signals : list (ndarray F) → ndarray F.
Set Default Proof Using "Type".
Implicit Types (self : Renderer (F:=F)) (fs : filesystem (F:=F)).

Lemma metric_calls_bind {A B} (m : M F A) (k : A → M F B) :
  metric_calls (m ≫= k)
  = (metric_calls m
     + match outcome m with Ok a => metric_calls (k a) | Raise _ => 0 end)%nat.
Proof.
  unfold metric_calls, events, outcome. destruct m as [evs [a|e]]; simpl.
  - unfold mbind, M_bind, bind. destruct (k a) as [evs' r]. simpl.
    by rewrite snr_calls_app, length_app.
  - lia.
Qed.

Lemma metric_calls_silent {A} (m : M F A) : silent m → metric_calls m = 0%nat.
Proof. unfold metric_calls, events. by intros ->. Qed.

Lemma metric_calls_apply_brir self (signal brir : ndarray F) :
  metric_calls (apply_brir self signal brir) = 0%nat.
Proof.
  destruct (apply_brir self signal brir) as [evs [out|e]] eqn:Hrun.
  - by rewrite (apply_brir_Ok _ _ _ _ _ Hrun).
  - destruct (decide (sq_ndim (np_squeeze brir) = 2%nat)) as [Hnd|Hnd].
    + assert (silent (apply_brir self signal brir)) as Hs.
      { unfold apply_brir. destruct (np_squeeze brir) as [| |rows]; try done.
        destruct signal; (apply silent_bind; [reflexivity|]); intros [[l r]|];
          try reflexivity;
          (apply silent_bind; [|reflexivity]); unfold vstack_T; case_decide;
          reflexivity. }
      rewrite <- Hrun. by apply metric_calls_silent.
    + rewrite apply_brir_else in Hrun by done. by injection Hrun as <- <-.
Qed.

Lemma metric_calls_compute_snr self (target noise : ndarray F) pre post :
  (metric_calls (compute_snr metric self target noise pre post) ≤ 1)%nat.
Proof. rewrite compute_snr_run. case_decide; simpl; unfold metric_calls; simpl; lia. Qed.

Lemma metric_calls_bind_l {A B} (m : M F A) (k : A → M F B) n :
  metric_calls m = 0%nat → (∀ a, metric_calls (k a) ≤ n)%nat →
  (metric_calls (m ≫= k) ≤ n)%nat.
Proof.
  intros Hm Hk. rewrite metric_calls_bind, Hm.
  destruct (outcome m) as [a|e]; [apply Hk|lia].
Qed.

Lemma metric_calls_bind_r {A B} (m : M F A) (k : A → M F B) :
  (∀ a, metric_calls (k a) = 0%nat) → metric_calls (m ≫= k) = metric_calls m.
Proof.
  intros Hk. rewrite metric_calls_bind.
  destruct (outcome m) as [a|e]; [rewrite Hk|]; lia.
Qed.

(** One round calls the metric at most once, and not at all when [snr_ref]
    is set; a round that completes leaves [snr_ref] set. *)
Lemma metric_calls_render_channel self fs stem prefix target signal snr_dB pre post st c :
  (metric_calls (render_channel metric sum_signals self fs stem prefix target signal
                   snr_dB pre post st c)
   ≤ if st_snr_ref st is Some _ then 0 else 1)%nat
  ∧ ∀ st', outcome (render_channel metric sum_signals self fs stem prefix target signal
                      snr_dB pre post st c) = Ok st' →
           is_Some (st_snr_ref st').
Proof.
  split.
  - unfold render_channel.
    apply metric_calls_bind_l;
      [apply metric_calls_silent, silent_read_signal|intros tb].
    apply metric_calls_bind_l;
      [apply metric_calls_silent, silent_read_signal|intros ib].
    apply metric_calls_bind_l; [apply metric_calls_apply_brir|intros tae].
    apply metric_calls_bind_l; [apply metric_calls_apply_brir|intros iae].
    apply metric_calls_bind_l; [reflexivity|intros _].
    rewrite metric_calls_bind_r by reflexivity.
    destruct (st_snr_ref st) as [g|]; [by apply Nat.eq_le_incl|].
    rewrite metric_calls_bind_r by reflexivity.
    apply metric_calls_compute_snr.
  - intros st' Hout.
    destruct (render_channel metric sum_signals self fs stem prefix target signal
                snr_dB pre post st c) as [evs r] eqn:Hrun.
    simpl in Hout. subst r.
    apply render_channel_Ok in Hrun as (tb & pair & _ & _ & _ & -> & _). by eexists.
Qed.

(** The loop calls the metric at most once, whatever its outcome. *)
Lemma metric_calls_loop self fs stem prefix target signal snr_dB pre post chans :
  ∀ st,
  (metric_calls (for_each (render_channel metric sum_signals self fs stem prefix
                             target signal snr_dB pre post) chans st)
   ≤ if st_snr_ref st is Some _ then 0 else 1)%nat.
Proof.
  induction chans as [|c chans IH]; intros st; simpl.
  - change (metric_calls (ret st)) with 0%nat. lia.
  - destruct (metric_calls_render_channel self fs stem prefix target signal
                snr_dB pre post st c) as [Hle Hset].
    rewrite metric_calls_bind.
    destruct (outcome (render_channel _ _ _ _ _ _ _ _ _ _ _ st c)) as [st1|e];
      [|lia].
    destruct (Hset st1 eq_refl) as [g Hg].
    specialize (IH st1). rewrite Hg in IH. lia.
Qed.

(** [render] calls the metric at most once, whatever its outcome. *)
Lemma metric_calls_render self fs target noise_type interferer room scene
    offset snr_dB dataset pre post :
  (metric_calls (render metric sum_signals self fs target noise_type interferer
                   room scene offset snr_dB dataset pre post) ≤ 1)%nat.
Proof.
  unfold render. rewrite metric_calls_bind.
  assert (metric_calls (render_outputs metric sum_signals self fs target noise_type
                          interferer room scene offset snr_dB dataset pre post) ≤ 1)%nat
    as Hout.
  { unfold render_outputs.
    apply metric_calls_bind_l;
      [apply metric_calls_silent, silent_read_signal|intros t0].
    apply metric_calls_bind_l; [apply metric_calls_silent, silent_np_pad|intros padded].
    apply metric_calls_bind_l;
      [apply metric_calls_silent, silent_read_signal|intros sig0].
    apply metric_calls_bind_l; [by case_decide|intros _].
    apply metric_calls_bind_l; [apply metric_calls_silent, silent_apply_ramp|intros ramped].
    rewrite metric_calls_bind_r;
      [exact (metric_calls_loop _ _ _ _ _ _ _ _ _ _
                {| st_snr_ref := None; st_outputs := _; st_target_brir := None |})|].
    intros st.
    apply Nat.le_0_r, metric_calls_bind_l.
    { case_decide; [|reflexivity].
      rewrite metric_calls_bind_r by reflexivity.
      apply metric_calls_silent, silent_read_signal. }
    intros otb. apply metric_calls_bind_l;
      [apply metric_calls_silent, silent_read_signal|intros anech].
    destruct otb as [tb|]; [|by apply Nat.eq_le_incl].
    apply metric_calls_bind_l; [apply metric_calls_apply_brir|intros ta].
    by apply Nat.eq_le_incl. }
  destruct (outcome (render_outputs _ _ _ _ _ _ _ _ _ _ _ _ _ _)) as [outs|e]; [|lia].
  rewrite write_all_run. unfold metric_calls at 2. simpl.
  rewrite snr_calls_writes. simpl. lia.
Qed.

End Calls.
(** ** File names *)

Lemma string_length_app (s t : string) :
  String.length (s +:+ t) = (String.length s + String.length t)%nat.
Proof. induction s as [|a s IH]; simpl; [done|]. by rewrite IH. Qed.

Lemma string_app_inj_r (t s1 s2 : string) : s1 +:+ t = s2 +:+ t → s1 = s2.
Proof.
  revert s2. induction s1 as [|a s1 IH]; intros [|b s2] Heq; simpl in Heq.
  - done.
  - apply (f_equal String.length) in Heq.
    rewrite !string_length_app in Heq. simpl in Heq.
    rewrite ?string_length_app in Heq. lia.
  - apply (f_equal String.length) in Heq.
    rewrite !string_length_app in Heq. simpl in Heq.
    rewrite ?string_length_app in Heq. lia.
  - injection Heq as -> Heq. f_equal. by apply IH.
Qed.

(** A file name determines the role and the channel. *)
Lemma artifact_suffix_inj r1 c1 r2 c2 :
  artifact_suffix r1 c1 = artifact_suffix r2 c2 → r1 = r2 ∧ c1 = c2.
Proof.
  unfold artifact_suffix.
  destruct r1, r2, c1 as [c1|], c2 as [c2|]; simpl; intros Heq;
    try discriminate Heq;
    try (split; [done|]; f_equal; simplify_eq;
         match goal with
         | H : _ +:+ ".wav" = _ +:+ ".wav" |- _ =>
             apply string_app_inj_r in H; by apply (inj pretty) in H
         end);
    try done.
Qed.

#[global] Instance artifact_inj prefix : Inj (=) (=) (artifact prefix).
Proof.
  intros [r1 c1] [r2 c2] Heq. unfold artifact in Heq. simpl in Heq.
  apply (inj (String.app prefix)) in Heq.
  apply artifact_suffix_inj in Heq as [-> ->]. done.
Qed.

(** Case analysis on membership in an explicit list. *)
Ltac elem_cases :=
  repeat match goal with
    | H : _ ∈ [] |- _ => by apply elem_of_nil in H
    | H : _ ∈ _ :: _ |- _ => apply elem_of_cons in H as [H|H]
    | H : _ ∈ _ ++ _ |- _ => apply elem_of_app in H as [H|H]
    end;
  simplify_eq.

(** Membership of an item that an explicit list shows. *)
Ltac elem_here :=
  solve [repeat first [apply list_elem_of_here | apply list_elem_of_further]].

(** An explicit list of distinct items has no duplicates. *)
Ltac NoDup_explicit :=
  repeat (apply NoDup_cons; split; [intros ?; by elem_cases|]); apply NoDup_nil_2.

Lemma NoDup_artifact_keys chans : NoDup chans → NoDup (artifact_keys chans).
Proof.
  intros Hnd. unfold artifact_keys.
  assert (NoDup (chans ≫= λ c, [(Mixed, Some c); (Target, Some c); (Interferer, Some c)]))
    as Hbind.
  { apply NoDup_bind; [| |done].
    - intros c1 c2 y _ _ H1 H2. by elem_cases.
    - intros c _. NoDup_explicit. }
  apply NoDup_app. split; [NoDup_explicit|].
  split.
  - intros x Hx [Hb|Ha]%elem_of_app.
    + apply list_elem_of_bind in Hb as (c & Hc & _). by elem_cases.
    + by elem_cases.
  - apply NoDup_app. split; [done|]. split; [|NoDup_explicit].
    intros x (c & Hc & _)%list_elem_of_bind Ha. by elem_cases.
Qed.

(** The channel sequence of [__init__] and of [check_scene_exists]. *)
Lemma init_channels (N : Z) :
  (if N =? 0 then [] else py_range 1 (N + 1) ++ [0])
  = if N =? 0 then [] else seqZ 1 N ++ [0].
Proof. case_match; [done|]. unfold py_range. do 2 f_equal. lia. Qed.

Lemma NoDup_init_channels (N : Z) :
  NoDup (if N =? 0 then [] else py_range 1 (N + 1) ++ [0]).
Proof.
  rewrite init_channels. case_match; [constructor|].
  apply NoDup_app. split; [apply NoDup_seqZ|].
  split; [|NoDup_explicit].
  intros x Hx%elem_of_seqZ H0. elem_cases. lia.
Qed.

Lemma last_init_channels (N : Z) :
  default 0 (last (if N =? 0 then [] else py_range 1 (N + 1) ++ [0])) = 0.
Proof. case_match; [done|]. by rewrite last_snoc. Qed.

(** The list of [check_scene_exists], by role and channel. *)
Lemma files_to_check_artifacts scene_id output_path N :
  files_to_check scene_id output_path N
  = artifact (output_path +:+ "/" +:+ scene_id)
    <$> ([ (Target, None); (TargetAnechoic, None); (Interferer, None) ]
         ++ ((if N =? 0 then [] else py_range 1 (N + 1) ++ [0])
               ≫= λ c, [ (Mixed, Some c); (Interferer, Some c); (Target, Some c) ])).
Proof.
  unfold files_to_check.
  generalize (if N =? 0 then [] else py_range 1 (N + 1) ++ [0]). intros cs.
  rewrite fmap_app. f_equal.
  induction cs as [|c cs IH]; [done|].
  change ((c :: cs) ≫= ?f) with (f c ++ (cs ≫= f)).
  rewrite fmap_app. by f_equal.
Qed.
(** ** What render writes *)

Section Written.
Context {F : Type} `{!Float64 F}.
Variable metric : ndarray F → ndarray F → F.
Variable sum_signals : list (ndarray F) → ndarray F.
Set Default Proof Using "Type".
Implicit Types (self : Renderer (F:=F)) (fs : filesystem (F:=F)).
Implicit Types (evs : list (event F)) (pair : ndarray F * ndarray F).
Implicit Types (entries : list (entry (F:=F))).

Lemma Forall2_zip_elem {A B} (P : A → B → Prop) l k x y :
  Forall2 P l k → (x, y) ∈ zip l k → P x y.
Proof.
  induction 1 as [|a b l k Hab _ IH]; simpl; intros Hin; [by elem_cases|].
  apply elem_of_cons in Hin as [?|?]; [by simplify_eq|auto].
Qed.

Lemma Forall2_elem_zip {A B} (P : A → B → Prop) l k x :
  Forall2 P l k → x ∈ l → ∃ y, (x, y) ∈ zip l k.
Proof.
  induction 1 as [|a b l k Hab _ IH]; simpl; intros Hin; [by elem_cases|].
  apply elem_of_cons in Hin as [->|Hin].
  - exists b. apply elem_of_cons. by left.
  - destruct (IH Hin) as [y Hy]. exists y. apply elem_of_cons. by right.
Qed.

(** The writes of a successful [render], as keyed entries. *)
Lemma render_written self fs target noise_type interferer room scene
    offset snr_dB dataset pre post evs :
  render metric sum_signals self fs target noise_type interferer room scene
    offset snr_dB dataset pre post = (evs, Ok ()) →
  ∃ t0 padded ramped pairs tb anech ta,
    read_signal_default self fs (target_fn self dataset target) = ([], Ok t0)
    ∧ np_pad t0 pre post = ([], Ok padded)
    ∧ at_ear_pairs self fs (brir_stem self dataset room) padded ramped
        (channels self) pairs
    ∧ read_signal_default self fs
        (target_brir_fn (brir_stem self dataset room) (default 0 (last (channels self))))
      = ([], Ok tb)
    ∧ read_signal_default self fs (anechoic_brir_fn self dataset room) = ([], Ok anech)
    ∧ apply_brir self padded (pad anech (arr_len tb)) = ([], Ok ta)
    ∧ snr_calls evs = first_call self pairs
    ∧ written evs
      = (λ kv, (artifact (out_prefix self scene) kv.1, Floats kv.2))
        <$> scene_entries sum_signals snr_dB (first_gain metric self pairs)
              padded ramped (channels self) pairs ta.
Proof.
  intros (evs0 & outs & Houts & ->)%render_Ok.
  apply render_outputs_Ok in Houts
    as (t0 & padded & sig0 & ramped & pairs & tb & anech & ta & Ht0 & Hpad & _ & _
        & Hpairs & Htb & Hanech & Hta & -> & Hcalls & Hwr).
  exists t0, padded, ramped, pairs, tb, anech, ta.
  repeat (split; [done|]). split.
  - by rewrite snr_calls_app, snr_calls_writes, app_nil_r.
  - rewrite written_app, Hwr, written_writes. unfold named.
    by rewrite <- list_fmap_compose.
Qed.

(** A file name is written with the data of the entry it names. *)
Lemma elem_of_written prefix entries (k : role * option Z) (data : payload F) :
  (artifact prefix k, data)
    ∈ (λ kv, (artifact prefix kv.1, Floats kv.2)) <$> entries
  ↔ ∃ a, (k, a) ∈ entries ∧ data = Floats a.
Proof.
  rewrite list_elem_of_fmap. split.
  - intros ([k' a] & [= Hk ->] & Hin). apply (inj _) in Hk as <-. by exists a.
  - intros (a & Hin & ->). by exists (k, a).
Qed.

Lemma scene_entries_keys snr_dB g padded ramped chans pairs ta :
  length chans = length pairs →
  (scene_entries sum_signals snr_dB g padded ramped chans pairs ta).*1
  = artifact_keys chans.
Proof.
  intros Hlen. unfold scene_entries, artifact_keys, all_channel_entries.
  rewrite !fmap_app. simpl. do 3 f_equal.
  revert pairs Hlen. induction chans as [|c chans IH]; intros [|p pairs] Hlen;
    simplify_eq/=; [done|].
  f_equal. by rewrite IH.
Qed.

(** Membership in the entries of a scene, role by role. *)
Lemma scene_entries_channel snr_dB g padded ramped chans pairs ta r c a :
  ((r, Some c), a) ∈ scene_entries sum_signals snr_dB g padded ramped chans pairs ta
  ↔ ∃ pair, (c, pair) ∈ zip chans pairs
            ∧ ((r, Some c), a) ∈ channel_entries sum_signals snr_dB g c pair.
Proof.
  unfold scene_entries, all_channel_entries. split.
  - intros Hin. elem_cases.
    apply list_elem_of_bind in Hin as ([c' pair] & Hin & Hzip). simpl in Hin.
    exists pair. unfold channel_entries in *. elem_cases;
      (split; [done|]); elem_here.
  - intros (pair & Hzip & Hin).
    apply elem_of_app. right. apply elem_of_app. left.
    apply list_elem_of_bind. by exists (c, pair).
Qed.

Lemma scene_entries_anechoic snr_dB g padded ramped chans pairs ta a :
  ((TargetAnechoic, None), a)
    ∈ scene_entries sum_signals snr_dB g padded ramped chans pairs ta
  ↔ a = ta.
Proof.
  unfold scene_entries, all_channel_entries. split.
  - intros Hin. elem_cases; [|done].
    apply list_elem_of_bind in Hin as ([c' pair] & Hin & Hzip).
    unfold channel_entries in Hin. by elem_cases.
  - intros ->. rewrite !elem_of_app. right. right. apply elem_of_cons. by left.
Qed.

Lemma scene_entries_target snr_dB g padded ramped chans pairs ta :
  ((Target, None), padded)
    ∈ scene_entries sum_signals snr_dB g padded ramped chans pairs ta
  ∧ ((Interferer, None), ramped)
    ∈ scene_entries sum_signals snr_dB g padded ramped chans pairs ta.
Proof. unfold scene_entries. split; apply elem_of_app; left; elem_here. Qed.

Lemma scale_gain (g : F) (snr_dB : Z) (a : ndarray F) :
  scale (db_gain snr_dB) (scale g a)
  = arr_map (λ x, fmul (fmul x g)
                    (fpow (of_int 10) (fdiv (of_int (- snr_dB)) (of_int 20)))) a.
Proof.
  unfold scale, db_gain. destruct a as [xs|rows]; simpl; f_equal.
  - by rewrite <- list_fmap_compose.
  - rewrite <- list_fmap_compose. apply list_fmap_ext. by intros ? [? ?].
Qed.

(** C1. [render] calls the SNR metric at most once, however it ends.  In
    every [render] that succeeds with a non-empty channel sequence the
    metric is called exactly once, on the trimmed target and interferer at
    the ear of the first channel; and for every channel the file
    [{prefix}_interferer_CH{c}.wav] is written with exactly one signal: the
    channel's interferer at the ear (its BRIR applied to the ramped
    interferer) with every sample multiplied by the value of that one call
    and then by [10 ** ((-snr_dB) / 20)]. *)
Theorem render_reference_gain self fs target noise_type interferer room scene
    offset snr_dB dataset pre post evs :
  (metric_calls (render metric sum_signals self fs target noise_type interferer
                   room scene offset snr_dB dataset pre post) ≤ 1)%nat
  ∧ (channels self ≠ [] →
  render metric sum_signals self fs target noise_type interferer room scene
    offset snr_dB dataset pre post = (evs, Ok ()) →
  ∃ padded ramped c0 target_at_ear0 interferer_at_ear0,
    (artifact (out_prefix self scene) (Target, None), Floats padded) ∈ written evs
    ∧ (artifact (out_prefix self scene) (Interferer, None), Floats ramped) ∈ written evs
    ∧ head (channels self) = Some c0
    ∧ at_ear self fs (target_brir_fn (brir_stem self dataset room) c0) padded
      = ([], Ok target_at_ear0)
    ∧ at_ear self fs (interferer_brir_fn (brir_stem self dataset room) c0) ramped
      = ([], Ok interferer_at_ear0)
    ∧ snr_calls evs
      = [(snr_segment self target_at_ear0, snr_segment self interferer_at_ear0)]
    ∧ ∀ c, c ∈ channels self →
        ∃ interferer_at_ear,
          at_ear self fs (interferer_brir_fn (brir_stem self dataset room) c) ramped
          = ([], Ok interferer_at_ear)
          ∧ ∀ data,
              (artifact (out_prefix self scene) (Interferer, Some c), data) ∈ written evs
              ↔ data
                = Floats
                    (arr_map
                       (λ x, fmul (fmul x (metric (snr_segment self target_at_ear0)
                                             (snr_segment self interferer_at_ear0)))
                               (fpow (of_int 10)
                                  (fdiv (of_int (- snr_dB)) (of_int 20))))
                       interferer_at_ear)).
Proof.
  split; [apply metric_calls_render|]. intros Hne Hrun.
  apply render_written in Hrun
    as (t0 & padded & ramped & pairs & tb & anech & ta & _ & _ & Hpairs & _ & _ & _
        & Hcalls & ->).
  unfold at_ear_pairs in Hpairs.
  destruct (channels self) as [|c0 chans] eqn:Hch; [done|].
  pose proof Hpairs as Hp0.
  apply Forall2_cons_inv_l in Hp0 as ([tae0 iae0] & pairs' & [Ht0 Hi0] & _ & ->).
  simpl in Ht0, Hi0, Hcalls.
  exists padded, ramped, c0, tae0, iae0.
  split; [apply elem_of_written; exists padded; split; [apply scene_entries_target|done]|].
  split; [apply elem_of_written; exists ramped; split; [apply scene_entries_target|done]|].
  repeat (split; [done|]).
  intros c Hc.
  destruct (Forall2_elem_zip _ _ _ _ Hpairs Hc) as [[tae iae] Hzip].
  pose proof (Forall2_zip_elem _ _ _ _ _ Hpairs Hzip) as [_ Hiae]. simpl in Hiae.
  exists iae. split; [done|]. intros data. rewrite <- scale_gain.
  rewrite elem_of_written. setoid_rewrite scene_entries_channel.
  unfold first_gain, pair_gain. simpl. split.
  - intros (a & ([tae' iae'] & Hzip' & Hin) & ->).
    pose proof (Forall2_zip_elem _ _ _ _ _ Hpairs Hzip') as [_ Hiae']. simpl in Hiae'.
    rewrite Hiae in Hiae'. injection Hiae' as <-.
    unfold channel_entries in Hin. by elem_cases.
  - intros ->. eexists. split; [|done]. exists (tae, iae). split; [done|].
    unfold channel_entries. elem_here.
Qed.

(** C2, as amended. In every [render] that succeeds on a renderer built by
    [__init__], the anechoic reference is [apply_brir] of the padded target
    with the anechoic BRIR zero-padded to the length of the target BRIR of
    channel 0: with channels configured, channel 0 is the last one of the
    loop and its BRIR is the one still bound after it; without channels it
    is loaded for this purpose. *)
Theorem render_anechoic_reference ip op N sr rd td pd pod nbits
    (self := Renderer_init ip op N sr rd td pd pod nbits)
    fs target noise_type interferer room scene offset snr_dB dataset pre post evs :
  render metric sum_signals self fs target noise_type interferer room scene
    offset snr_dB dataset pre post = (evs, Ok ()) →
  ∃ padded brir_ch0 anechoic_brir target_anechoic,
    (artifact (out_prefix self scene) (Target, None), Floats padded) ∈ written evs
    ∧ read_signal_default self fs (target_brir_fn (brir_stem self dataset room) 0)
      = ([], Ok brir_ch0)
    ∧ read_signal_default self fs (anechoic_brir_fn self dataset room)
      = ([], Ok anechoic_brir)
    ∧ apply_brir self padded (pad anechoic_brir (arr_len brir_ch0))
      = ([], Ok target_anechoic)
    ∧ ∀ data,
        (artifact (out_prefix self scene) (TargetAnechoic, None), data) ∈ written evs
        ↔ data = Floats target_anechoic.
Proof.
  intros Hrun.
  apply render_written in Hrun
    as (t0 & padded & ramped & pairs & tb & anech & ta & _ & _ & _ & Htb & Hanech
        & Hta & _ & ->).
  unfold self in Htb at 3. simpl in Htb. rewrite last_init_channels in Htb.
  exists padded, tb, anech, ta.
  split; [apply elem_of_written; exists padded; split; [apply scene_entries_target|done]|].
  repeat (split; [done|]).
  intros data. rewrite elem_of_written. setoid_rewrite scene_entries_anechoic.
  split; [by intros (a & -> & ->)|intros ->; by exists ta].
Qed.

Lemma artifact_keys_checked chans k :
  k ∈ artifact_keys chans
  ↔ k ∈ [ (Target, None); (TargetAnechoic, None); (Interferer, None) ]
        ++ (chans ≫= λ c, [ (Mixed, Some c); (Interferer, Some c); (Target, Some c) ]).
Proof.
  unfold artifact_keys. rewrite !elem_of_app, !list_elem_of_bind. split.
  - intros [Hk|[(c & Hk & Hc)|Hk]].
    + left. elem_cases; elem_here.
    + right. exists c. split; [|done]. elem_cases; elem_here.
    + left. elem_cases; elem_here.
  - intros [Hk|(c & Hk & Hc)].
    + elem_cases; [left|right; right|left]; elem_here.
    + right. left. exists c. split; [|done]. elem_cases; elem_here.
Qed.

Lemma length_artifact_keys chans :
  length (artifact_keys chans) = (3 + 3 * length chans)%nat.
Proof.
  unfold artifact_keys. rewrite !length_app. simpl.
  assert (length (chans ≫= λ c, [(Mixed, Some c); (Target, Some c); (Interferer, Some c)])
          = (3 * length chans)%nat) as ->; [|lia].
  induction chans as [|c chans IH]; [done|].
  change ((c :: chans) ≫= ?f) with (f c ++ (chans ≫= f)).
  rewrite length_app, IH. simpl. lia.
Qed.

Lemma foldl_and_true {A} (p : A → bool) (l : list A) b :
  foldl (λ acc x, acc && p x) b l = true ↔ b = true ∧ ∀ x, x ∈ l → p x = true.
Proof.
  revert b. induction l as [|x l IH]; intros b; simpl.
  - split; [intros ->; split; [done|]; intros ? ?; by elem_cases|by intros [-> _]].
  - rewrite IH, andb_true_iff. split.
    + intros [[-> Hx] Hl]. split; [done|]. intros y Hy. elem_cases; auto.
    + intros [-> Hl]. repeat split.
      * apply Hl, elem_of_cons. by left.
      * intros y Hy. apply Hl, elem_of_cons. by right.
Qed.

(** C5. For a renderer built by [__init__] with [num_channels = N], the
    files written by a successful [render] of a scene are, as a set, the
    files whose existence [check_scene_exists] tests for that scene,
    output path and [N]; there are [3 + 3 * |channels|] of them, all
    distinct, where the channel sequence is empty for [N = 0] and
    [1, ..., N, 0] otherwise; hence [check_scene_exists] answers [True]
    exactly when every written file exists. *)
Theorem render_writes_checked_files ip op N sr rd td pd pod nbits
    (self := Renderer_init ip op N sr rd td pd pod nbits)
    fs target noise_type interferer room scene offset snr_dB dataset pre post evs :
  render metric sum_signals self fs target noise_type interferer room scene
    offset snr_dB dataset pre post = (evs, Ok ()) →
  list_to_set (written evs).*1 =@{gset string} list_to_set (files_to_check scene op N)
  ∧ size (list_to_set (written evs).*1 : gset string)
    = (3 + 3 * length (channels self))%nat
  ∧ length (written evs) = (3 + 3 * length (channels self))%nat
  ∧ channels self = (if N =? 0 then [] else seqZ 1 N ++ [0])
  ∧ ∀ (path_exists : string → bool) (scene_dict : gmap string string),
      scene_dict !! "scene" = Some scene →
      (check_scene_exists path_exists scene_dict op N = Ok true
       ↔ ∀ f, f ∈ (written evs).*1 → path_exists f = true).
Proof.
  intros Hrun.
  apply render_written in Hrun
    as (t0 & padded & ramped & pairs & tb & anech & ta & _ & _ & Hpairs & _ & _ & _
        & _ & Hwr).
  apply Forall2_length in Hpairs.
  assert ((written evs).*1
          = artifact (op +:+ "/" +:+ scene) <$> artifact_keys (channels self)) as Hnames.
  { rewrite Hwr, <- list_fmap_compose.
    rewrite <- (scene_entries_keys snr_dB (first_gain metric self pairs)
                  padded ramped (channels self) pairs ta Hpairs).
    by rewrite <- list_fmap_compose. }
  assert (NoDup (written evs).*1) as Hnd.
  { rewrite Hnames. apply (NoDup_fmap_2 _), NoDup_artifact_keys, NoDup_init_channels. }
  assert (∀ f, f ∈ (written evs).*1 ↔ f ∈ files_to_check scene op N) as Hsame.
  { intros f. rewrite Hnames, files_to_check_artifacts, !list_elem_of_fmap.
    by setoid_rewrite artifact_keys_checked. }
  split; [|split; [|split; [|split]]].
  - apply set_eq. intros f. by rewrite !elem_of_list_to_set.
  - rewrite size_list_to_set by done.
    by rewrite Hnames, length_fmap, length_artifact_keys.
  - rewrite <- (length_fmap fst). fold (written evs).*1.
    by rewrite Hnames, length_fmap, length_artifact_keys.
  - apply init_channels.
  - intros path_exists scene_dict Hscene. unfold check_scene_exists.
    rewrite Hscene. split.
    + intros Heq f Hf. injection Heq as Heq.
      apply (foldl_and_true path_exists (files_to_check scene op N) true) in Heq
        as [_ Hall].
      by apply Hall, Hsame.
    + intros Hall. f_equal.
      apply (foldl_and_true path_exists (files_to_check scene op N) true).
      split; [done|]. intros f Hf. by apply Hall, Hsame.
Qed.

End Written.
(** ** The small scene *)

Lemma tiny_ramp_samples : duration_samples tiny_renderer (ramp_duration tiny_renderer) = 1.
Proof. apply (duration_samples_IZR tiny_renderer 1). Qed.

Lemma tiny_pre_samples : duration_samples tiny_renderer (pre_duration tiny_renderer) = 1.
Proof. apply (duration_samples_IZR tiny_renderer 1). Qed.

Lemma tiny_post_samples : duration_samples tiny_renderer (post_duration tiny_renderer) = 1.
Proof. apply (duration_samples_IZR tiny_renderer 1). Qed.

(** [render] succeeds on the small scene. *)
Lemma tiny_render_ok : tiny_render = (tiny_events, Ok ()).
Proof.
  assert (∃ evs, tiny_render = (evs, Ok ())) as [evs Hrun].
  { unfold tiny_render, render, render_outputs, render_channel, apply_ramp,
      compute_snr, apply_brir.
    rewrite tiny_ramp_samples, tiny_pre_samples, tiny_post_samples, tiny_n_tail.
    eexists. vm_compute. reflexivity. }
  unfold tiny_events, events. by rewrite Hrun.
Qed.

(** What the small scene writes as target and as anechoic reference: the
    padded target, and a reference of five frames, the anechoic BRIR having
    been padded to the two frames of the target BRIR of channel 0. *)
Lemma tiny_anechoic :
  ∃ ta, shape ta = [5%nat; 2%nat]
    ∧ (artifact "out/S1" (Target, None), Floats (Arr1 [0; 1; 2; 0]%R))
      ∈ written tiny_events
    ∧ ∀ data, (artifact "out/S1" (TargetAnechoic, None), data) ∈ written tiny_events
              ↔ data = Floats ta.
Proof.
  pose proof tiny_render_ok as Hrun. unfold tiny_render in Hrun.
  apply render_written in Hrun
    as (t0 & padded & ramped & pairs & tb & anech & ta & Ht0 & Hpad & _ & Htb
        & Hanech & Hta & _ & ->).
  vm_compute in Ht0. injection Ht0 as <-.
  vm_compute in Hpad. injection Hpad as <-.
  vm_compute in Htb. injection Htb as <-.
  vm_compute in Hanech. injection Hanech as <-.
  set (b := pad _ _) in Hta. vm_compute in b. subst b.
  rewrite apply_brir_mono in Hta by (simpl; lia). rewrite tiny_n_tail in Hta.
  exists ta. injection Hta as <-.
  change (out_prefix tiny_renderer "S1") with "out/S1".
  split; [|split].
  - vm_compute. reflexivity.
  - apply elem_of_written. exists (Arr1 [R0; R1; (R1 + R1)%R; R0]).
    split; [apply scene_entries_target|reflexivity].
  - intros data. rewrite elem_of_written. setoid_rewrite scene_entries_anechoic.
    split; [by intros (a & -> & ->)|intros ->; by eexists].
Qed.

(** C2, counterexample. In the small scene the target BRIR of channel 1 has
    three frames and that of channel 0 two.  Padding the anechoic BRIR to
    the length of channel 1's BRIR would give a reference of six frames;
    the file written holds five. *)
Lemma render_anechoic_not_channel_1 :
  ∃ brir_ch1 anechoic_brir claimed,
    read_signal_default tiny_renderer tiny_fs
      (target_brir_fn (brir_stem tiny_renderer "dev" "R") 1) = ([], Ok brir_ch1)
    ∧ read_signal_default tiny_renderer tiny_fs (anechoic_brir_fn tiny_renderer "dev" "R")
      = ([], Ok anechoic_brir)
    ∧ apply_brir tiny_renderer (Arr1 [0; 1; 2; 0]%R)
        (pad anechoic_brir (arr_len brir_ch1)) = ([], Ok claimed)
    ∧ tiny_render = (tiny_events, Ok ())
    ∧ (artifact "out/S1" (Target, None), Floats (Arr1 [0; 1; 2; 0]%R))
      ∈ written tiny_events
    ∧ (artifact "out/S1" (TargetAnechoic, None), Floats claimed) ∉ written tiny_events.
Proof.
  destruct tiny_anechoic as (ta & Hshape & Htarget & Hta).
  eexists _, _, _.
  split; [vm_compute; reflexivity|].
  split; [vm_compute; reflexivity|].
  split.
  { set (b := pad _ _). vm_compute in b. subst b.
    rewrite apply_brir_mono by (simpl; lia). rewrite tiny_n_tail. reflexivity. }
  split; [apply tiny_render_ok|]. split; [done|].
  intros Hin%Hta. injection Hin as <-. vm_compute in Hshape. discriminate Hshape.
Qed.

(** [render] also succeeds at 20 dB with the metric that reports 2. *)
Lemma loud_render_ok : loud_render = (loud_events, Ok ()).
Proof.
  assert (∃ evs, loud_render = (evs, Ok ())) as [evs Hrun].
  { unfold loud_render, render, render_outputs, render_channel, apply_ramp,
      compute_snr, apply_brir.
    rewrite tiny_ramp_samples, tiny_pre_samples, tiny_post_samples, tiny_n_tail.
    eexists. vm_compute. reflexivity. }
  unfold loud_events, events. by rewrite Hrun.
Qed.

Lemma render_reference_gain_witness :
  channels tiny_renderer ≠ []
  ∧ loud_render = (loud_events, Ok ())
  ∧ ∃ ramped target_at_ear0 interferer_at_ear0,
      snr_calls loud_events
      = [(snr_segment tiny_renderer target_at_ear0,
          snr_segment tiny_renderer interferer_at_ear0)]
      ∧ ∀ c, c ∈ channels tiny_renderer →
          ∃ interferer_at_ear,
            at_ear tiny_renderer tiny_fs
              (interferer_brir_fn (brir_stem tiny_renderer "dev" "R") c) ramped
            = ([], Ok interferer_at_ear)
            ∧ ∀ data,
                (artifact "out/S1" (Interferer, Some c), data) ∈ written loud_events
                ↔ data = Floats (arr_map (λ x, (x * 2 * Rpower 10 (-20 / 20))%R)
                                   interferer_at_ear).
Proof.
  assert (channels tiny_renderer ≠ []) as Hne by done.
  split; [exact Hne|]. split; [exact loud_render_ok|].
  destruct (proj2 (render_reference_gain double_metric add_signals tiny_renderer tiny_fs
                     "T" "noise" "N" "R" "S1" 0 20 "dev" 1 1 loud_events)
              Hne loud_render_ok)
    as (padded & ramped & c0 & tae0 & iae0 & _ & _ & _ & _ & _ & Hcalls & Hall).
  exists ramped, tae0, iae0. split; [exact Hcalls|].
  intros c Hc. destruct (Hall c Hc) as (iae & Hiae & Hdata).
  exists iae. split; [exact Hiae|exact Hdata].
Defined.

Lemma render_anechoic_reference_witness :
  tiny_render = (tiny_events, Ok ())
  ∧ ∃ brir_ch0 anechoic_brir target_anechoic,
      read_signal_default tiny_renderer tiny_fs
        (target_brir_fn (brir_stem tiny_renderer "dev" "R") 0) = ([], Ok brir_ch0)
      ∧ read_signal_default tiny_renderer tiny_fs (anechoic_brir_fn tiny_renderer "dev" "R")
        = ([], Ok anechoic_brir)
      ∧ ∀ data,
          (artifact "out/S1" (TargetAnechoic, None), data) ∈ written tiny_events
          ↔ data = Floats target_anechoic.
Proof.
  split; [exact tiny_render_ok|].
  destruct (render_anechoic_reference unit_metric add_signals
              "in" "out" 1 1 1%R 2%R 1%R 1%R 16 tiny_fs
              "T" "noise" "N" "R" "S1" 0 0 "dev" 1 1 tiny_events tiny_render_ok)
    as (padded & brir_ch0 & anech & ta & _ & Hb & Ha & _ & Hdata).
  exists brir_ch0, anech, ta. split; [exact Hb|]. split; [exact Ha|]. exact Hdata.
Defined.

Lemma render_writes_checked_files_witness :
  tiny_render = (tiny_events, Ok ())
  ∧ list_to_set (written tiny_events).*1
    =@{gset string} list_to_set (files_to_check "S1" "out" 1)
  ∧ size (list_to_set (written tiny_events).*1 : gset string) = 9%nat.
Proof.
  split; [exact tiny_render_ok|].
  destruct (render_writes_checked_files unit_metric add_signals
              "in" "out" 1 1 1%R 2%R 1%R 1%R 16 tiny_fs
              "T" "noise" "N" "R" "S1" 0 0 "dev" 1 1 tiny_events tiny_render_ok)
    as (Hset & Hsize & _).
  split; [exact Hset|exact Hsize].
Defined.
(** * Further properties of the renderer *)

(** ** __init__ and read_signal *)

Section InitRead.
Context {F : Type} `{!Float64 F}.
Implicit Types (self : Renderer (F:=F)) (fs : filesystem (F:=F)).

(** X1. The channel sequence that [__init__] configures has no repeated
    channel; for [num_channels = N] it holds exactly the channels 1..N and
    channel 0 ([N + 1] channels for [N >= 1], none at all for [N = 0], the
    eardrum channel alone for a negative [N]); the eardrum channel 0 comes
    last and, for [N >= 1], hearing-aid channel 1 comes first. *)
Theorem init_channel_sequence ip op N sr rd td pd pod nbits
    (self := Renderer_init ip op N sr rd td pd pod nbits) :
  NoDup (channels self)
  ∧ length (channels self) = (if (N =? 0)%Z then 0 else Z.to_nat N + 1)%nat
  ∧ (∀ c, c ∈ channels self ↔ N ≠ 0 ∧ (c = 0 ∨ 1 ≤ c ≤ N))
  ∧ (N ≠ 0 → last (channels self) = Some 0)
  ∧ (1 ≤ N → head (channels self) = Some 1).
Proof.
  subst self. simpl. rewrite init_channels.
  split; [rewrite <- init_channels; apply NoDup_init_channels|].
  destruct (N =? 0) eqn:HN.
  - apply Z.eqb_eq in HN as ->. split; [done|]. split; [|split; [done|lia]].
    intros c. split; [intros Hc; by apply elem_of_nil in Hc|by intros [? _]].
  - apply Z.eqb_neq in HN. split; [|split; [|split]].
    + rewrite length_app, length_seqZ. simpl. lia.
    + intros c. rewrite elem_of_app, elem_of_seqZ, list_elem_of_singleton. lia.
    + intros _. apply last_snoc.
    + intros HN1. rewrite (seqZ_cons 1 N) by lia. done.
Qed.

(** X2. [read_signal] with its default arguments returns exactly when the
    file exists and its sampling rate is the renderer's, and what it returns
    is the whole stored signal; it raises [Exception] otherwise, first for a
    missing file, then for the rate. *)
Theorem read_signal_default_whole_file self fs filename :
  (∀ a, read_signal_default self fs filename = ([], Ok a)
        ↔ ∃ w, fs !! filename = Some w
               ∧ samplerate w = sample_rate self ∧ a = frames w)
  ∧ (fs !! filename = None →
     read_signal_default self fs filename
     = ([], Raise (Exception ("Unable to read " +:+ filename +:+ "."))))
  ∧ (∀ w, fs !! filename = Some w → samplerate w ≠ sample_rate self →
          read_signal_default self fs filename
          = ([], Raise (Exception ("Sampling rate is not " +:+ pretty (sample_rate self)
                                     +:+ " for filename " +:+ filename +:+ "."))))
  ∧ silent (read_signal_default self fs filename).
Proof.
  assert (∀ w : SoundFile (F:=F), sf_read w 0 (-1) = frames w) as Hread.
  { intros w. unfold sf_read, arr_slice. simpl.
    assert (∀ A (l : list A), py_slice l (Some 0) None = l) as Hall.
    { intros A l. unfold py_slice, slice_bounds. simpl.
      rewrite slice_index_nonneg by lia. simpl.
      rewrite Nat.sub_0_r, drop_0. by apply take_ge. }
    destruct (frames w); by rewrite Hall. }
  unfold read_signal_default, read_signal.
  split; [|split; [|split]].
  - intros a. destruct (fs !! filename) as [w|]; simpl.
    + destruct (samplerate w =? sample_rate self) eqn:Hrate; simpl.
      * apply Z.eqb_eq in Hrate. rewrite Hread. split.
        -- intros [= <-]. by exists w.
        -- intros (w' & [= <-] & _ & ->). done.
      * apply Z.eqb_neq in Hrate. split; [done|].
        intros (w' & [= <-] & ? & _). done.
    + split; [done|]. by intros (w' & ? & _).
  - by intros ->.
  - intros w -> Hrate. simpl. apply Z.eqb_neq in Hrate. by rewrite Hrate.
  - exact (silent_read_signal self fs filename 0 (-1) 0 false).
Qed.

(** X3. Reading [nsamples >= 0] frames at a sample offset inside a file of
    the right rate returns the frames [offset .. offset + nsamples) that the
    file has: at most [nsamples] of them, and fewer, without any error, when
    the file ends earlier. *)
Theorem read_signal_excerpt self fs filename w offset nsamples :
  fs !! filename = Some w → samplerate w = sample_rate self →
  0 ≤ offset ≤ Z.of_nat (arr_len (frames w)) → 0 ≤ nsamples →
  ∃ a, read_signal self fs filename offset nsamples 0 true = ([], Ok a)
    ∧ a = match frames w with
          | Arr1 xs => Arr1 (take (Z.to_nat nsamples) (drop (Z.to_nat offset) xs))
          | Arr2 rows => Arr2 (take (Z.to_nat nsamples) (drop (Z.to_nat offset) rows))
          end
    ∧ arr_len a
      = (Z.to_nat nsamples `min` (arr_len (frames w) - Z.to_nat offset))%nat.
Proof.
  intros Hw Hrate Hoff Hn.
  assert (∀ A (l : list A), (Z.to_nat offset ≤ length l)%nat →
            py_slice l (Some (Z.of_nat (Z.to_nat offset)))
              (Some (Z.of_nat (Z.to_nat offset) + nsamples))
            = take (Z.to_nat nsamples) (drop (Z.to_nat offset) l)) as Hslice.
  { intros A l Hl. unfold py_slice, slice_bounds. simpl.
    rewrite !slice_index_nonneg by lia.
    rewrite Nat2Z.id, (Nat.min_l (Z.to_nat offset)) by lia.
    destruct (decide (Z.to_nat offset + Z.to_nat nsamples ≤ length l)%nat).
    - rewrite Nat.min_l, Nat.max_r by lia. f_equal. lia.
    - rewrite Nat.min_r, Nat.max_r by lia.
      rewrite !take_ge by (rewrite length_drop; lia). done. }
  assert (read_signal self fs filename offset nsamples 0 true
          = ([], Ok (sf_read w (Z.to_nat offset) nsamples))) as Hrun.
  { unfold read_signal. rewrite Hw. simpl. rewrite Hrate, Z.eqb_refl. simpl.
    destruct (offset =? 0) eqn:H0.
    - apply Z.eqb_eq in H0 as ->. done.
    - unfold sf_seek.
      replace ((0 <=? offset) && (offset <=? Z.of_nat (arr_len (frames w))))
        with true by (symmetry; apply andb_true_iff; split; apply Z.leb_le; lia).
      done. }
  eexists. split; [exact Hrun|].
  unfold sf_read. replace (nsamples <? 0) with false by (symmetry; apply Z.ltb_ge; lia).
  destruct (frames w) as [xs|rows]; simpl in *.
  - rewrite Hslice by lia.
    split; [done|]. rewrite length_take, length_drop. lia.
  - rewrite Hslice by lia.
    split; [done|]. rewrite length_take, length_drop. lia.
Qed.

End InitRead.

Lemma init_channel_sequence_witness :
  1 ≠ 0 ∧ 1 ≤ 1
  ∧ last (channels tiny_renderer) = Some 0
  ∧ head (channels tiny_renderer) = Some 1.
Proof.
  assert (1 ≠ 0) as Hne by lia. assert (1 ≤ 1) as Hle by lia.
  split; [exact Hne|]. split; [exact Hle|].
  destruct (init_channel_sequence "in" "out" 1 1 1%R 2%R 1%R 1%R 16)
    as (_ & _ & _ & Hlast & Hhead).
  split; [exact (Hlast Hne)|exact (Hhead Hle)].
Defined.

Lemma read_signal_default_whole_file_witness :
  tiny_fs !! "in/dev/targets/missing.wav" = None
  ∧ read_signal_default tiny_renderer tiny_fs "in/dev/targets/missing.wav"
    = ([], Raise (Exception "Unable to read in/dev/targets/missing.wav.")).
Proof.
  assert (tiny_fs !! "in/dev/targets/missing.wav" = None) as Hnone
    by (vm_compute; reflexivity).
  split; [exact Hnone|].
  destruct (read_signal_default_whole_file tiny_renderer tiny_fs
              "in/dev/targets/missing.wav") as (_ & Hmissing & _).
  exact (Hmissing Hnone).
Defined.

Lemma read_signal_excerpt_witness :
  tiny_fs !! "in/dev/interferers/noise/N.wav" = Some (mono_file [1; 1; 1; 1; 1]%R)
  ∧ ∃ a, read_signal tiny_renderer tiny_fs "in/dev/interferers/noise/N.wav" 2 10 0 true
         = ([], Ok a)
         ∧ arr_len a = 3%nat.
Proof.
  assert (tiny_fs !! "in/dev/interferers/noise/N.wav"
          = Some (mono_file [1; 1; 1; 1; 1]%R)) as Hfile by (vm_compute; reflexivity).
  split; [exact Hfile|].
  destruct (read_signal_excerpt tiny_renderer tiny_fs
              "in/dev/interferers/noise/N.wav" (mono_file [1; 1; 1; 1; 1]%R) 2 10 Hfile)
    as (a & Hrun & _ & Hlen); [reflexivity|simpl; lia|lia|].
  exists a. split; [exact Hrun|exact Hlen].
Defined.
(** ** write_signal *)

Section WriteExtras.
Context {F : Type} `{!Float64 F}.
Implicit Types (self : Renderer (F:=F)) (signal : ndarray F).

Lemma arr_flat_map_nil {A B} (f : A → B) (a : ndarray A) :
  arr_flat (arr_map f a) = [] ↔ arr_flat a = [].
Proof. destruct a as [[|??]|[|[??]?]]; simpl; split; intros; simplify_eq; done. Qed.

(** Every way [write_signal] can go. *)
Lemma write_signal_run self filename signal rate fp :
  write_signal self filename signal rate fp
  = if fp then
      (rate_warning self filename rate
         ++ [SoundfileWrite filename (Floats signal) rate "FLOAT"], Ok ())
    else if test_nbits self =? 16 then
      if decide (arr_flat signal = []) then
        (rate_warning self filename rate,
         Raise (ValueError
                  "zero-size array to reduction operation maximum which has no identity"))
      else
        (rate_warning self filename rate
           ++ [SoundfileWrite filename (Int16s (to_pcm16 signal)) rate "PCM_16"], Ok ())
    else if test_nbits self =? 24 then
      (rate_warning self filename rate
         ++ [SoundfileWrite filename (Floats signal) rate "PCM_24"], Ok ())
    else (rate_warning self filename rate, Raise (UnboundLocalError "subtype")).
Proof.
  unfold write_signal, rate_warning.
  assert (∀ (body : M F unit),
            ((if negb (rate =? sample_rate self)
              then emit (Log WARNING ("Sampling rate mismatch: " +:+ filename
                                        +:+ " with sample rate=" +:+ pretty rate +:+ "."))
              else mret ());; body)
            = ((if rate =? sample_rate self then []
                else [Log WARNING ("Sampling rate mismatch: " +:+ filename
                                     +:+ " with sample rate=" +:+ pretty rate +:+ ".")])
                 ++ body.1, body.2)) as Hwarn.
  { intros [evs r]. by destruct (rate =? sample_rate self). }
  rewrite Hwarn. clear Hwarn.
  destruct fp; simpl; [done|].
  destruct (test_nbits self =? 16) eqn:H16.
  - fold (to_pcm16 signal).
    pose proof (arr_flat_int16 (arr_map (λ x, fmul x (of_int 32768)) signal)) as Hrange.
    fold (to_pcm16 signal) in Hrange.
    case_decide as Hempty.
    + assert (arr_flat (to_pcm16 signal) = []) as ->
        by (unfold to_pcm16; by rewrite !arr_flat_map_nil).
      simpl. by rewrite app_nil_r.
    + destruct (arr_flat (to_pcm16 signal)) as [|x xs] eqn:Hflat.
      { exfalso. apply Hempty. unfold to_pcm16 in Hflat.
        by rewrite !arr_flat_map_nil in Hflat. }
      apply Forall_cons in Hrange as [Hx Hxs]. simpl.
      assert (foldr Z.max x xs ≤ 32767) as Hmax
        by (apply foldr_max_le; [lia|]; eapply Forall_impl; [done|]; simpl; lia).
      assert (-32768 ≤ foldr Z.min x xs) as Hmin
        by (apply foldr_min_ge; [lia|]; eapply Forall_impl; [done|]; simpl; lia).
      apply Z.leb_le in Hmax. apply Z.geb_le in Hmin.
      unfold mbind, M_bind, bind, mret, M_ret, ret. simpl.
      rewrite Hmax. simpl. rewrite Hmin. done.
  - destruct (test_nbits self =? 24); simpl; [done|]. by rewrite app_nil_r.
Qed.

Lemma written_rate_warning self filename rate :
  written (rate_warning self filename rate) = [].
Proof. unfold rate_warning. by case_match. Qed.

Lemma wrap16_small z : -32768 ≤ z ≤ 32767 → wrap16 z = z.
Proof. intros Hz. unfold wrap16. rewrite Z.mod_small by lia. lia. Qed.

Lemma arr_map_ext_flat {A B} (f g : A → B) (a : ndarray A) :
  Forall (λ x, f x = g x) (arr_flat a) → arr_map f a = arr_map g a.
Proof.
  destruct a as [xs|rows]; simpl; intros Hall; f_equal.
  - apply list_fmap_ext. intros i x Hx.
    by apply (Forall_lookup_1 _ _ _ _ Hall Hx).
  - induction rows as [|[l r] rows IH]; [done|]. simpl in *.
    apply Forall_cons in Hall as [Hl Hall]. apply Forall_cons in Hall as [Hr Hall].
    unfold prod_map at 1. simpl. rewrite Hl, Hr. f_equal. by apply IH.
Qed.

(** On a storage that can refuse a write, [write_signal] goes as on one
    that accepts every write, up to the answer of the storage. *)
Lemma write_signal_with_run write_error self filename signal rate fp :
  write_signal_with write_error self filename signal rate fp
  = ((write_signal self filename signal rate fp).1,
     match (write_signal self filename signal rate fp).2, write_error filename with
     | Ok _, Some e => Raise e
     | r, _ => r
     end).
Proof.
  unfold write_signal_with, write_signal, soundfile_write.
  destruct (negb (rate =? sample_rate self)); simpl;
    match goal with
    | |- context [mbind _ ?m] => destruct m as [evs [[d [st|]]|e]]
    end; simpl; destruct (write_error filename); simpl;
    by rewrite ?app_nil_r.
Qed.

(** X4. [write_signal] fails before it reaches [soundfile.write] in
    exactly two situations, both with [floating_point = False]: 16-bit
    output of an array without samples ([ValueError] from [np.max]), and a
    bit depth other than 16 or 24 ([UnboundLocalError]: [subtype] was never
    assigned).  In every other situation it calls [soundfile.write] exactly
    once and fails exactly when that call fails, with the exception of the
    call.  A sampling rate that differs from the
    renderer's is never an error. *)
Theorem write_signal_failures (write_error : string → option exn)
    self filename signal rate fp :
  (∀ e, raises (write_signal_with write_error self filename signal rate fp) e ↔
        (fp = false ∧ test_nbits self = 16 ∧ arr_flat signal = []
         ∧ e = ValueError
                 "zero-size array to reduction operation maximum which has no identity")
        ∨ (fp = false ∧ test_nbits self ≠ 16 ∧ test_nbits self ≠ 24
           ∧ e = UnboundLocalError "subtype")
        ∨ (¬ (fp = false ∧ test_nbits self = 16 ∧ arr_flat signal = [])
           ∧ ¬ (fp = false ∧ test_nbits self ≠ 16 ∧ test_nbits self ≠ 24)
           ∧ write_error filename = Some e))
  ∧ length (written (events (write_signal_with write_error self filename signal rate fp)))
    = (if decide (fp = false
                  ∧ ((test_nbits self = 16 ∧ arr_flat signal = [])
                     ∨ (test_nbits self ≠ 16 ∧ test_nbits self ≠ 24)))
       then 0%nat else 1%nat)
  ∧ (write_error filename = None →
     write_signal_with write_error self filename signal rate fp
     = write_signal self filename signal rate fp).
Proof.
  split; [|split].
  - intros e. rewrite write_signal_with_run, write_signal_run.
    unfold raises, outcome.
    destruct fp; simpl.
    { destruct (write_error filename) as [e'|]; split.
      - intros [= <-]. right. right. split; [by intros [? _]|].
        split; [by intros [? _]|done].
      - intros [(? & _)|[(? & _)|(_ & _ & [= <-])]]; done.
      - done.
      - intros [(? & _)|[(? & _)|(_ & _ & ?)]]; done. }
    destruct (test_nbits self =? 16) eqn:H16.
    + apply Z.eqb_eq in H16. destruct (decide (arr_flat signal = [])) as [Hempty|Hempty];
        simpl.
      * split.
        -- intros [= <-]. by left.
        -- intros [(_ & _ & _ & ->)|[(_ & ? & _)|(Hn & _)]]; [done|done|].
           exfalso. by apply Hn.
      * destruct (write_error filename) as [e'|]; split.
        -- intros [= <-]. right. right. split; [by intros (_ & _ & ?)|].
           split; [by intros (_ & ? & _)|done].
        -- intros [(_ & _ & ? & _)|[(_ & ? & _)|(_ & _ & [= <-])]]; done.
        -- done.
        -- intros [(_ & _ & ? & _)|[(_ & ? & _)|(_ & _ & ?)]]; done.
    + apply Z.eqb_neq in H16. destruct (test_nbits self =? 24) eqn:H24; simpl.
      * apply Z.eqb_eq in H24. destruct (write_error filename) as [e'|]; split.
        -- intros [= <-]. right. right. split; [by intros (_ & ? & _)|].
           split; [by intros (_ & _ & ?)|done].
        -- intros [(_ & ? & _)|[(_ & _ & ? & _)|(_ & _ & [= <-])]]; done.
        -- done.
        -- intros [(_ & ? & _)|[(_ & _ & ? & _)|(_ & _ & ?)]]; done.
      * apply Z.eqb_neq in H24. split.
        -- intros [= <-]. right. by left.
        -- intros [(_ & ? & _)|[(_ & _ & _ & ->)|(_ & Hn & _)]]; [done|done|].
           exfalso. by apply Hn.
  - rewrite write_signal_with_run, write_signal_run. unfold events.
    cbn [fst].
    match goal with
    | |- context [decide (fp = false ∧ ?Q)] =>
        destruct (decide (fp = false ∧ Q)) as [Hd|Hd]
    end.
    + destruct Hd as [-> [[H16 Hempty]|[H16 H24]]].
      * rewrite H16, Z.eqb_refl, decide_True by done. simpl.
        by rewrite written_rate_warning.
      * apply Z.eqb_neq in H16, H24. rewrite H16, H24. simpl.
        by rewrite written_rate_warning.
    + destruct fp; simpl; [by rewrite written_app, written_rate_warning|].
      destruct (test_nbits self =? 16) eqn:H16.
      * apply Z.eqb_eq in H16. destruct (decide (arr_flat signal = [])) as [Hempty|Hempty].
        -- exfalso. apply Hd. split; [done|]. by left.
        -- simpl. by rewrite written_app, written_rate_warning.
      * apply Z.eqb_neq in H16. destruct (test_nbits self =? 24) eqn:H24.
        -- simpl. by rewrite written_app, written_rate_warning.
        -- apply Z.eqb_neq in H24. exfalso. apply Hd. split; [done|]. by right.
  - intros Hnone. rewrite write_signal_with_run, Hnone.
    by destruct (write_signal self filename signal rate fp) as [evs [[]|e]].
Qed.

(** X5. With 16-bit output and at least one sample, [write_signal] with
    [floating_point = False] always returns and writes PCM_16 data whose
    samples all lie in [-32768, 32767]; where the scaled samples
    [int(x * 32768)] are themselves in that range, the data written are
    exactly these integers. *)
Theorem write_signal_pcm16_samples self filename signal rate :
  test_nbits self = 16 → arr_flat signal ≠ [] →
  write_signal self filename signal rate false
  = (rate_warning self filename rate
       ++ [SoundfileWrite filename (Int16s (to_pcm16 signal)) rate "PCM_16"], Ok ())
  ∧ Forall (λ z, -32768 ≤ z ≤ 32767) (arr_flat (to_pcm16 signal))
  ∧ (Forall (λ x, -32768 ≤ to_int (fmul x (of_int 32768)) ≤ 32767) (arr_flat signal) →
     to_pcm16 signal = arr_map (λ x, to_int (fmul x (of_int 32768))) signal).
Proof.
  intros Hbits Hne. split; [|split].
  - rewrite write_signal_run, Hbits. simpl. by rewrite decide_False.
  - apply arr_flat_int16.
  - intros Hall. unfold to_pcm16.
    assert (∀ (a : ndarray F) (f : F → F) (g : F → Z),
              arr_map g (arr_map f a) = arr_map (λ x, g (f x)) a) as Hcomp.
    { intros [xs|rows] f g; simpl; f_equal.
      - by rewrite <- list_fmap_compose.
      - rewrite <- list_fmap_compose. apply list_fmap_ext. by intros ? [??]. }
    rewrite Hcomp. apply arr_map_ext_flat.
    eapply Forall_impl; [exact Hall|]. intros x Hx. simpl.
    unfold astype_int16. by apply wrap16_small.
Qed.

End WriteExtras.

Lemma write_signal_failures_witness :
  raises (write_signal_with (λ _, Some (RuntimeError "Error opening file"))
            (default_renderer "in" "out" 1) "gone/S1_target.wav"
            (Arr1 [(5 / 10)%R]) 44100 true)
    (RuntimeError "Error opening file").
Proof.
  apply (proj1 (write_signal_failures (λ _, Some (RuntimeError "Error opening file"))
                  (default_renderer "in" "out" 1) "gone/S1_target.wav"
                  (Arr1 [(5 / 10)%R]) 44100 true)).
  right. right. split; [by intros [? _]|]. split; [by intros [? _]|done].
Defined.

Lemma write_signal_pcm16_samples_witness :
  test_nbits (default_renderer "in" "out" 1) = 16
  ∧ arr_flat (Arr1 [(5 / 10)%R]) ≠ []
  ∧ Forall (λ x : R, -32768 ≤ to_int (fmul x (of_int 32768)) ≤ 32767)
      (arr_flat (Arr1 [(5 / 10)%R]))
  ∧ write_signal (default_renderer "in" "out" 1) "out/S1_target.wav"
      (Arr1 [(5 / 10)%R]) 44100 false
    = ([SoundfileWrite "out/S1_target.wav" (Int16s (Arr1 [16384])) 44100 "PCM_16"],
       Ok ()).
Proof.
  assert (to_int (fmul (5 / 10)%R (of_int 32768)) = 16384) as Hhalf.
  { simpl. replace (5 / 10 * 32768)%R with (IZR 16384) by lra. apply Rtrunc_IZR. }
  assert (test_nbits (default_renderer "in" "out" 1) = 16) as Hbits by reflexivity.
  assert (arr_flat (Arr1 [(5 / 10)%R]) ≠ []) as Hne by done.
  assert (Forall (λ x : R, -32768 ≤ to_int (fmul x (of_int 32768)) ≤ 32767)
            (arr_flat (Arr1 [(5 / 10)%R]))) as Hall.
  { constructor; [|constructor]. cbv beta. rewrite Hhalf. lia. }
  split; [exact Hbits|]. split; [exact Hne|]. split; [exact Hall|].
  destruct (write_signal_pcm16_samples (default_renderer "in" "out" 1)
              "out/S1_target.wav" (Arr1 [(5 / 10)%R]) 44100 Hbits Hne)
    as (Hrun & _ & Hexact).
  rewrite Hrun, (Hexact Hall). cbv [arr_map]. cbn [fmap list_fmap].
  rewrite Hhalf. reflexivity.
Defined.
(** ** apply_ramp *)

Section RampExtras.
Context {F : Type} `{!Float64 F}.
Implicit Types (self : Renderer (F:=F)) (S w : list F).

Lemma slice_bounds_le n start stop :
  ((slice_bounds n start stop).1 ≤ (slice_bounds n start stop).2 ≤ n)%nat.
Proof.
  unfold slice_bounds. simpl.
  destruct start as [s|], stop as [t|]; simpl; unfold slice_index;
    repeat case_match; lia.
Qed.

Lemma broadcast_to_length k w evs w' :
  broadcast_to k w = (evs, Ok w') → length w' = k.
Proof.
  unfold broadcast_to. case_decide as Hlen.
  - by intros [= _ <-].
  - destruct w as [|c [|??]]; try done. intros [= _ <-]. apply length_replicate.
Qed.

(** An in-place multiplication leaves the shape as it is. *)
Lemma imul_slice_shape (a : ndarray F) start stop w evs out :
  imul_slice a start stop w = (evs, Ok out) → shape out = shape a.
Proof.
  unfold imul_slice.
  pose proof (slice_bounds_le (arr_len a) start stop) as Hb.
  destruct (slice_bounds (arr_len a) start stop) as [lo hi]. simpl in Hb.
  destruct a as [xs|rows]; simpl in *; intros Hrun.
  - inv_bind Hrun as w' Hw. apply broadcast_to_length in Hw.
    cbv [mret M_ret ret] in Hrun. injection Hrun as <- <-. simpl. f_equal.
    rewrite !length_app, length_zip_with, !length_take, !length_drop. lia.
  - inv_bind Hrun as w' Hw.
    cbv [mret M_ret ret] in Hrun. injection Hrun as <- <-. simpl. f_equal.
    rewrite !length_app, length_fmap, !length_take, !length_drop. lia.
Qed.

(** X6. Whenever [apply_ramp] returns, the ramped signal has the shape of
    the signal it was given, whatever the signal (mono or stereo) and the
    ramp duration. *)
Theorem apply_ramp_shape self (signal : ndarray F) D evs out :
  apply_ramp self signal D = (evs, Ok out) →
  shape out = shape signal ∧ arr_len out = arr_len signal ∧ evs = [].
Proof.
  intros Hrun.
  pose proof (silent_run _ _ _ (silent_apply_ramp _ _ _) Hrun) as ->.
  unfold apply_ramp in Hrun.
  inv_bind Hrun as ramp Hramp. inv_bind Hrun as s1 H1. inv_bind Hrun as s2 H2.
  cbv [mret M_ret ret] in Hrun. injection Hrun as _ <-.
  apply imul_slice_shape in H1, H2.
  assert (shape s2 = shape signal) as Hshape by congruence.
  split; [done|]. split; [|done].
  destruct s2, signal; simplify_eq/=; done.
Qed.

(** X7. A ramp of no duration is harmless only for the empty signal: with
    a window of zero samples [apply_ramp] returns an empty signal unchanged
    but raises [ValueError] on every non-empty one (the slice [-0:] is the
    whole signal and cannot be multiplied by an empty window); a negative
    window length is refused by [np.linspace]. *)
Theorem apply_ramp_degenerate_window self S (signal : ndarray F) D :
  (duration_samples self D = 0 →
   apply_ramp self (Arr1 S) D
   = if decide (S = []) then ([], Ok (Arr1 []))
     else ([], Raise (ValueError "operands could not be broadcast together")))
  ∧ (duration_samples self D < 0 →
     apply_ramp self signal D
     = ([], Raise (ValueError ("Number of samples, " +:+ pretty (duration_samples self D)
                                 +:+ ", must be non-negative.")))).
Proof.
  split; intros HL; unfold apply_ramp, half_cosine, linspace.
  - rewrite HL. simpl.
    unfold mbind, M_bind, bind, mret, M_ret, ret. simpl.
    unfold imul_slice, slice_bounds. simpl.
    destruct S as [|x S]; [done|]. simpl.
    unfold slice_index. simpl. done.
  - apply Z.ltb_lt in HL as Hneg. rewrite Hneg. done.
Qed.

(** The ramped signal, for a window that fits the signal. *)
Lemma apply_ramp_run self S D ramp :
  half_cosine (duration_samples self D) = ([], Ok ramp) →
  (1 ≤ length ramp ≤ length S)%nat →
  apply_ramp self (Arr1 S) D
  = ([], Ok (Arr1
       (take (length S - length ramp)
             (zip_with fmul (take (length ramp) S) ramp ++ drop (length ramp) S)
        ++ zip_with fmul
             (drop (length S - length ramp)
                   (zip_with fmul (take (length ramp) S) ramp ++ drop (length ramp) S))
             (reverse ramp)))).
Proof.
  intros Hramp Hlen. unfold apply_ramp. rewrite Hramp.
  erewrite bind_run by done. simpl.
  rewrite (imul_slice_head S ramp (length ramp)) by lia. simpl.
  set (S1 := zip_with fmul (take (length ramp) S) ramp ++ drop (length ramp) S).
  assert (length S1 = length S) as HS1.
  { subst S1. rewrite length_app, length_zip_with, length_take, length_drop. lia. }
  rewrite (imul_slice_tail S1 (reverse ramp) (length ramp))
    by (rewrite ?length_reverse; lia).
  simpl. by rewrite HS1.
Qed.

End RampExtras.

Lemma attenuated_refl x : attenuated x x.
Proof. exists 1%R. split; lra. Qed.

Lemma attenuated_trans x y z : attenuated x y → attenuated y z → attenuated x z.
Proof.
  intros (f & Hf & ->) (g & Hg & ->). exists (f * g)%R. split; [|lra].
  split; [apply Rmult_le_pos; lra|].
  replace 1%R with (1 * 1)%R by lra. apply Rmult_le_compat; lra.
Qed.

Lemma Forall2_attenuated_refl (l : list R) : Forall2 attenuated l l.
Proof. induction l; constructor; auto using attenuated_refl. Qed.

Lemma Forall2_attenuated_zip (xs ws : list R) :
  length xs = length ws → Forall (λ r, (0 <= r <= 1)%R) ws →
  Forall2 attenuated xs (zip_with Rmult xs ws).
Proof.
  revert ws. induction xs as [|x xs IH]; intros [|w ws] Hlen Hws;
    simplify_eq/=; constructor.
  - exists w. split; [|done]. by apply Forall_cons in Hws as [? _].
  - apply IH; [done|]. by apply Forall_cons in Hws as [_ ?].
Qed.

Section RampReal.
Variable int : R → Z.
Let machine : Float64 R := real_float64 int.
#[local] Existing Instance machine | 0.

Lemma half_cosine_bounds (n : Z) evs (ramp : list R) :
  half_cosine n = (evs, Ok ramp) → Forall (λ r, (0 <= r <= 1)%R) ramp.
Proof.
  unfold half_cosine. intros Hrun. inv_bind Hrun as grid Hgrid.
  cbv [mret M_ret ret] in Hrun. injection Hrun as _ <-.
  apply Forall_fmap, Forall_fmap, Forall_true. intros x. simpl.
  pose proof (COS_bound x). lra.
Qed.

(** X8. When the window fits the signal ([1 <= L <= len(S)] for
    [L = int(sample_rate * D)]), [apply_ramp] never amplifies and never
    flips a sample: every sample of the result is the sample of [S] at the
    same position times a factor between 0 and 1.  The samples are real
    numbers; [L] is the integer the conversion [int] makes of the product,
    whatever that conversion is. *)
Theorem apply_ramp_attenuates (self : Renderer (F:=R)) (S : list R) (D : R) :
  1 ≤ duration_samples self D ≤ Z.of_nat (length S) →
  ∃ out, apply_ramp self (Arr1 S) D = ([], Ok (Arr1 out))
    ∧ Forall2 attenuated S out.
Proof.
  intros HL.
  destruct (half_cosine_real int (duration_samples self D)) as (ramp & Hramp & Hlen & _);
    [lia|].
  pose proof (half_cosine_bounds _ _ _ Hramp) as Hbounds.
  assert (1 ≤ length ramp ≤ length S)%nat as Hfit by lia.
  eexists. split; [by apply apply_ramp_run|].
  set (S1 := zip_with fmul (take (length ramp) S) ramp ++ drop (length ramp) S).
  assert (length S1 = length S) as HS1.
  { subst S1. rewrite length_app, length_zip_with, length_take, length_drop. lia. }
  apply (Forall2_trans attenuated attenuated attenuated S S1);
    [apply attenuated_trans| |].
  - rewrite <- (take_drop (length ramp) S) at 1. subst S1.
    apply Forall2_app; [|apply Forall2_attenuated_refl].
    apply Forall2_attenuated_zip; [rewrite length_take; lia|done].
  - rewrite <- (take_drop (length S - length ramp) S1) at 1.
    apply Forall2_app; [apply Forall2_attenuated_refl|].
    apply Forall2_attenuated_zip;
      [rewrite length_drop, length_reverse; lia|by apply Forall_reverse].
Qed.

End RampReal.

Lemma apply_ramp_attenuates_witness :
  1 ≤ duration_samples tiny_renderer 1%R ≤ Z.of_nat (length [3; 4; 5; 6]%R)
  ∧ ∃ out, apply_ramp tiny_renderer (Arr1 [3; 4; 5; 6]%R) 1%R = ([], Ok (Arr1 out))
      ∧ Forall2 attenuated [3; 4; 5; 6]%R out.
Proof.
  assert (1 ≤ duration_samples tiny_renderer 1%R ≤ Z.of_nat (length [3; 4; 5; 6]%R))
    as HL by (rewrite (duration_samples_IZR tiny_renderer 1); simpl; lia).
  split; [exact HL|].
  exact (apply_ramp_attenuates Rtrunc tiny_renderer [3; 4; 5; 6]%R 1%R HL).
Defined.

Lemma apply_ramp_degenerate_window_witness :
  duration_samples tiny_renderer 0%R = 0
  ∧ duration_samples tiny_renderer (-1)%R < 0
  ∧ apply_ramp tiny_renderer (Arr1 [3; 4]%R) 0%R
    = ([], Raise (ValueError "operands could not be broadcast together"))
  ∧ ∃ msg, apply_ramp tiny_renderer (Arr1 [3; 4]%R) (-1)%R = ([], Raise (ValueError msg)).
Proof.
  assert (duration_samples tiny_renderer 0%R = 0) as H0
    by apply (duration_samples_IZR tiny_renderer 0).
  assert (duration_samples tiny_renderer (-1)%R < 0) as Hneg
    by (rewrite (duration_samples_IZR tiny_renderer (-1)); simpl; lia).
  split; [exact H0|]. split; [exact Hneg|].
  destruct (apply_ramp_degenerate_window tiny_renderer [3; 4]%R (Arr1 [3; 4]%R) 0%R)
    as [Hzero _].
  destruct (apply_ramp_degenerate_window tiny_renderer [3; 4]%R (Arr1 [3; 4]%R) (-1)%R)
    as [_ Hminus].
  split; [exact (Hzero H0)|]. eexists. exact (Hminus Hneg).
Defined.

Lemma apply_ramp_shape_witness :
  ∃ out, apply_ramp tiny_renderer (Arr1 [3; 4; 5; 6]%R) 1%R = ([], Ok out)
    ∧ shape out = [4%nat].
Proof.
  destruct (half_cosine_R (duration_samples tiny_renderer 1%R))
    as (ramp & Hramp & Hlen & _);
    [rewrite (duration_samples_IZR tiny_renderer 1); simpl; lia|].
  rewrite (duration_samples_IZR tiny_renderer 1) in Hlen. simpl in Hlen.
  eexists. split.
  - apply (apply_ramp_run tiny_renderer [3; 4; 5; 6]%R 1%R ramp Hramp).
    rewrite Hlen. simpl. lia.
  - refine (proj1 (apply_ramp_shape tiny_renderer (Arr1 [3; 4; 5; 6]%R) 1%R [] _ _)).
    apply (apply_ramp_run tiny_renderer [3; 4; 5; 6]%R 1%R ramp Hramp).
    rewrite Hlen. simpl. lia.
Defined.
(** ** apply_brir: outcomes, impulse responses, gains *)

Section BrirExtras.
Context {F : Type} `{!Float64 F}.
Implicit Types (self : Renderer (F:=F)) (S b : list F) (B : list (F * F)).

Lemma np_squeeze_two_dim (brir : ndarray F) :
  sq_ndim (np_squeeze brir) = 2%nat →
  ∃ B, brir = Arr2 B ∧ length B ≠ 1%nat.
Proof.
  destruct brir as [[|? [|? ?]]|[|[l r] [|? ?]]]; try done; intros _; eauto.
Qed.

Lemma length_ears_le sl sr B :
  length sl = length sr →
  (length (ears sl sr B) ≤ length sl + (length B - 1))%nat.
Proof.
  intros Hlen. unfold ears. rewrite length_zip, !length_convolve.
  destruct sl, sr, B; simplify_eq/=; rewrite ?length_fmap; lia.
Qed.

(** X9. [apply_brir] has two outcomes only, decided by the BRIR alone. A
    BRIR that is still two-dimensional after [np.squeeze] gives, for a mono
    or a stereo signal alike, a two-column array and no log; the two
    convolutions always agree in length, so stacking them never fails, and
    with [n_tail >= 0] the result has at most [len(signal) + n_tail] rows.
    Any other BRIR gives the error log followed by [UnboundLocalError]. *)
Theorem apply_brir_outcomes self (signal brir : ndarray F) :
  (sq_ndim (np_squeeze brir) = 2%nat
   ∧ ∃ rows, apply_brir self signal brir = ([], Ok (Arr2 rows))
       ∧ (0 ≤ n_tail self →
          (length rows ≤ arr_len signal + Z.to_nat (n_tail self))%nat))
  ∨ (sq_ndim (np_squeeze brir) ≠ 2%nat
     ∧ apply_brir self signal brir
       = ([Log ERROR "Signal does not have the required shape."],
          Raise (UnboundLocalError "signal_l"))).
Proof.
  destruct (decide (sq_ndim (np_squeeze brir) = 2%nat)) as [Hnd|Hnd];
    [left|right; split; [done|by apply apply_brir_else]].
  split; [done|].
  destruct (np_squeeze_two_dim brir Hnd) as (B & -> & HB).
  destruct signal as [S|rows]; eexists;
    (split; [by (apply apply_brir_mono || apply apply_brir_stereo)|]);
    intros Htail; simpl; rewrite py_slice_prefix by lia;
    rewrite length_take; lia.
Qed.

End BrirExtras.

(** *** Over the reals *)

Lemma vadd_zeros (k : nat) (v : list R) :
  (k ≤ length v)%nat → vadd (replicate k 0%R) v = v.
Proof.
  revert v. induction k as [|k IH]; intros [|y v] Hlen; simpl in *; try done; [lia|].
  rewrite IH by lia. f_equal. lra.
Qed.

Lemma fmap_mult_zeros (x : R) (k : nat) :
  fmul x <$> replicate k 0%R = replicate k 0%R.
Proof.
  induction k as [|k IH]; [done|].
  cbn [replicate fmap list_fmap]. cbn [fmap] in IH. rewrite IH. f_equal. simpl. lra.
Qed.

(** Convolution with a unit impulse followed by [k] zeros. *)
Lemma convolve_unit_impulse (S : list R) (k : nat) :
  S ≠ [] → convolve S (1%R :: replicate k 0%R) = S ++ replicate k 0%R.
Proof.
  unfold convolve. induction S as [|x S IH]; [done|]. intros _.
  cbn [convolve_sum]. rewrite fmap_mult_zeros.
  change ((x :: S) ++ replicate k 0%R) with (x :: (S ++ replicate k 0%R)).
  f_equal; [simpl; lra|].
  destruct S as [|y S]; [by destruct k|].
  rewrite IH by done. apply vadd_zeros. rewrite length_app, length_replicate. lia.
Qed.

Lemma length_duplicate (u : list R) : length (duplicate u) = length u.
Proof. apply length_fmap. Qed.

Lemma duplicate_app (u v : list R) : duplicate (u ++ v) = duplicate u ++ duplicate v.
Proof. apply fmap_app. Qed.

Lemma duplicate_replicate (k : nat) (x : R) :
  duplicate (replicate k x) = replicate k (x, x).
Proof. unfold duplicate. by rewrite fmap_replicate. Qed.

(** X10. A BRIR that is a unit impulse in both ears followed by [k >= 1]
    frames of silence passes a non-empty mono signal through unchanged:
    [apply_brir] returns the signal in both columns, followed by
    [min(n_tail, k)] frames of zeros. *)
Theorem apply_brir_unit_impulse (self : Renderer (F:=R)) (S : list R) (k : nat) :
  S ≠ [] → (1 ≤ k)%nat → 0 ≤ n_tail self →
  apply_brir self (Arr1 S) (Arr2 ((1, 1)%R :: replicate k (0, 0)%R))
  = ([], Ok (Arr2 (duplicate (S ++ replicate (Z.to_nat (n_tail self) `min` k) 0%R)))).
Proof.
  intros HS Hk Htail.
  rewrite apply_brir_mono by (simpl; rewrite length_replicate; lia).
  do 3 f_equal. rewrite py_slice_prefix by lia.
  unfold ears. rewrite !fmap_cons. cbn [fst snd].
  replace ((replicate k (0%R, 0%R)).*1) with (replicate k 0%R)
    by (by rewrite fmap_replicate).
  replace ((replicate k (0%R, 0%R)).*2) with (replicate k 0%R)
    by (by rewrite fmap_replicate).
  rewrite (convolve_unit_impulse S k HS), zip_diag, !duplicate_app.
  rewrite take_app_ge by (rewrite length_duplicate; lia).
  f_equal. rewrite length_duplicate, !duplicate_replicate.
  rewrite take_replicate. f_equal. lia.
Qed.

Lemma apply_brir_unit_impulse_witness :
  apply_brir tiny_renderer (Arr1 [3; 4]%R) (Arr2 [(1, 1); (0, 0); (0, 0); (0, 0)]%R)
  = ([], Ok (Arr2 [(3, 3); (4, 4); (0, 0); (0, 0)]%R)).
Proof.
  pose proof (apply_brir_unit_impulse tiny_renderer [3; 4]%R 3) as Hrun.
  rewrite tiny_n_tail in Hrun. apply Hrun; [done|lia|lia].
Defined.

Lemma vadd_scale (g : R) (u v : list R) :
  vadd ((λ x, x * g)%R <$> u) ((λ x, x * g)%R <$> v) = (λ x, x * g)%R <$> vadd u v.
Proof.
  revert v. induction u as [|x u IH]; intros [|y v]; simpl; try done.
  rewrite IH. f_equal. lra.
Qed.

Lemma convolve_scale (g : R) (a b : list R) :
  convolve ((λ x, x * g)%R <$> a) b = (λ x, x * g)%R <$> convolve a b.
Proof.
  destruct b as [|b0 b']; [done|]. unfold convolve.
  induction a as [|x a IH]; [done|].
  rewrite !fmap_cons. cbn [convolve_sum]. rewrite IH, fmap_cons.
  f_equal; [simpl; lra|].
  rewrite <- vadd_scale. f_equal.
  rewrite <- list_fmap_compose. apply list_fmap_ext. intros _ y _. simpl. lra.
Qed.

Lemma ears_scale (g : R) (sl sr : list R) (B : list (R * R)) :
  ears ((λ x, x * g)%R <$> sl) ((λ x, x * g)%R <$> sr) B
  = prod_map (λ x, x * g)%R (λ x, x * g)%R <$> ears sl sr B.
Proof.
  unfold ears. rewrite !convolve_scale.
  generalize (convolve sl B.*1) (convolve sr B.*2). intros u.
  induction u as [|x u IH]; intros [|y v]; simpl; try done. by rewrite IH.
Qed.

(** X11. [apply_brir] commutes with a gain: whenever it returns [out] for
    a signal, it returns [out] times [g] for the signal times [g], for a
    mono and a stereo signal alike. *)
Theorem apply_brir_gain (self : Renderer (F:=R)) (g : R)
    (signal brir : ndarray R) evs out :
  apply_brir self signal brir = (evs, Ok out) →
  apply_brir self (scale g signal) brir = (evs, Ok (scale g out)).
Proof.
  intros Hrun.
  destruct (decide (sq_ndim (np_squeeze brir) = 2%nat)) as [Hnd|Hnd];
    [|by rewrite apply_brir_else in Hrun].
  destruct (np_squeeze_two_dim brir Hnd) as (B & -> & HB).
  destruct signal as [S|rows]; simpl.
  - rewrite apply_brir_mono in Hrun by done. injection Hrun as <- <-.
    rewrite apply_brir_mono by done. rewrite length_fmap.
    simpl. do 3 f_equal. by rewrite ears_scale, py_slice_fmap.
  - rewrite apply_brir_stereo in Hrun by done. injection Hrun as <- <-.
    rewrite apply_brir_stereo by done. rewrite length_fmap.
    simpl. do 3 f_equal.
    rewrite <- py_slice_fmap, <- ears_scale. f_equal.
    rewrite <- !list_fmap_compose. f_equal; by apply list_fmap_ext.
Qed.

Lemma apply_brir_gain_witness :
  ∃ out,
    apply_brir tiny_renderer (Arr1 [3; 4]%R) (Arr2 [(1, 0); (0, 1)]%R) = ([], Ok out)
    ∧ apply_brir tiny_renderer (scale 2%R (Arr1 [3; 4]%R)) (Arr2 [(1, 0); (0, 1)]%R)
      = ([], Ok (scale 2%R out)).
Proof.
  eexists. split; [by apply apply_brir_mono|].
  apply (apply_brir_gain tiny_renderer 2%R (Arr1 [3; 4]%R) (Arr2 [(1, 0); (0, 1)]%R)).
  by apply apply_brir_mono.
Defined.
(** ** compute_snr: margins *)

Section SnrExtras.
Context {F : Type} `{!Float64 F}.
Variable metric : ndarray F → ndarray F → F.
Set Default Proof Using "Type".
Implicit Types (self : Renderer (F:=F)) (target noise : ndarray F).

(** X12. Signals of one length never make [compute_snr] raise, whatever
    the margins and whether the signals are mono or stereo: the two
    segments are cut at the same positions, and the metric is called on
    them. *)
Theorem compute_snr_equal_lengths self target noise pre post :
  arr_len target = arr_len noise →
  compute_snr metric self target noise pre post
  = ([SnrMetric (snr_segment self target) (snr_segment self noise)],
     Ok (metric (snr_segment self target) (snr_segment self noise))).
Proof.
  intros Hlen. rewrite compute_snr_run, decide_True; [done|].
  unfold snr_segment. by rewrite !arr_len_arr_slice, Hlen.
Qed.

(** X13. With margins [P = int(sample_rate * pre_duration) >= 0] and
    [Q = int(sample_rate * post_duration) > 0], a signal of [n] frames
    leaves a segment of [max(n - P - Q, 0)] frames.  So [compute_snr]
    raises exactly when these two counts differ, its message names them
    (not the lengths of the signals), and two signals that are both no
    longer than [P + Q] pass with empty segments even when their lengths
    differ. *)
Theorem compute_snr_margins self target noise pre post :
  0 ≤ duration_samples self (pre_duration self) →
  0 < duration_samples self (post_duration self) →
  let P := Z.to_nat (duration_samples self (pre_duration self)) in
  let Q := Z.to_nat (duration_samples self (post_duration self)) in
  compute_snr metric self target noise pre post
  = (if decide ((arr_len target - P - Q)%nat = (arr_len noise - P - Q)%nat)
     then ([SnrMetric (snr_segment self target) (snr_segment self noise)],
           Ok (metric (snr_segment self target) (snr_segment self noise)))
     else ([], Raise (ValueError (mismatch_message (arr_len target - P - Q)
                                    (arr_len noise - P - Q)))))
  ∧ ((arr_len target ≤ P + Q)%nat → (arr_len noise ≤ P + Q)%nat →
     arr_len (snr_segment self target) = 0%nat
     ∧ arr_len (snr_segment self noise) = 0%nat
     ∧ outcome (compute_snr metric self target noise pre post)
       = Ok (metric (snr_segment self target) (snr_segment self noise))).
Proof.
  intros Hpre Hpost P Q.
  assert (∀ a : ndarray F, arr_len (snr_segment self a) = (arr_len a - P - Q)%nat)
    as Hseg by (intros a; unfold snr_segment; by rewrite arr_len_trim).
  rewrite compute_snr_run, !Hseg. split; [done|].
  intros Ht Hn. rewrite decide_True by lia. repeat split; lia.
Qed.

(** X14. With a trailing margin of zero samples the slice
    [a[pre_samples:-0]] is [a[pre_samples:0]]: both segments are empty
    whatever the signals, so [compute_snr] never raises and calls the
    metric on two empty arrays. *)
Theorem compute_snr_zero_post self target noise pre post :
  duration_samples self (post_duration self) = 0 →
  arr_len (snr_segment self target) = 0%nat
  ∧ arr_len (snr_segment self noise) = 0%nat
  ∧ compute_snr metric self target noise pre post
    = ([SnrMetric (snr_segment self target) (snr_segment self noise)],
       Ok (metric (snr_segment self target) (snr_segment self noise))).
Proof.
  intros Hpost.
  assert (∀ a : ndarray F, arr_len (snr_segment self a) = 0%nat) as Hseg
    by (intros a; unfold snr_segment; rewrite Hpost; apply arr_len_to_zero).
  rewrite compute_snr_run, !Hseg. by rewrite decide_True.
Qed.

End SnrExtras.

Lemma compute_snr_equal_lengths_witness :
  compute_snr unit_metric trim_renderer
    (Arr1 [10; 11; 12; 13; 14]%R) (Arr2 [(0, 1); (2, 3); (4, 5); (6, 7); (8, 9)]%R) 0 0
  = ([SnrMetric (Arr1 [12; 13]%R) (Arr2 [(4, 5); (6, 7)]%R)], Ok 1%R).
Proof.
  rewrite (compute_snr_equal_lengths unit_metric trim_renderer
             (Arr1 [10; 11; 12; 13; 14]%R)
             (Arr2 [(0, 1); (2, 3); (4, 5); (6, 7); (8, 9)]%R) 0 0 eq_refl).
  by rewrite !trim_segment.
Defined.

Lemma compute_snr_margins_witness :
  0 ≤ duration_samples trim_renderer (pre_duration trim_renderer)
  ∧ 0 < duration_samples trim_renderer (post_duration trim_renderer)
  ∧ compute_snr unit_metric trim_renderer
      (Arr1 [10; 11; 12; 13; 14]%R) (Arr1 [20; 21; 22; 23]%R) 0 0
    = ([], Raise (ValueError "Target (2) differs in length from Noise (1)"))
  ∧ outcome (compute_snr unit_metric trim_renderer
               (Arr1 [10; 11; 12]%R) (Arr1 [20]%R) 0 0)
    = Ok 1%R.
Proof.
  assert (duration_samples trim_renderer (pre_duration trim_renderer) = 2) as Hpre
    by apply (duration_samples_IZR trim_renderer 2).
  assert (duration_samples trim_renderer (post_duration trim_renderer) = 1) as Hpost
    by apply (duration_samples_IZR trim_renderer 1).
  assert (0 ≤ duration_samples trim_renderer (pre_duration trim_renderer)) as H0
    by (rewrite Hpre; lia).
  assert (0 < duration_samples trim_renderer (post_duration trim_renderer)) as H1
    by (rewrite Hpost; lia).
  split; [exact H0|]. split; [exact H1|]. split.
  - destruct (compute_snr_margins unit_metric trim_renderer
                (Arr1 [10; 11; 12; 13; 14]%R) (Arr1 [20; 21; 22; 23]%R) 0 0 H0 H1)
      as [Hrun _].
    rewrite Hrun, Hpre, Hpost. reflexivity.
  - destruct (compute_snr_margins unit_metric trim_renderer
                (Arr1 [10; 11; 12]%R) (Arr1 [20]%R) 0 0 H0 H1)
      as [_ Hshort].
    rewrite Hpre, Hpost in Hshort. apply Hshort; simpl; lia.
Defined.

Lemma compute_snr_zero_post_witness :
  duration_samples (Renderer_init "in" "out" 1 1 1%R 2%R 1%R 0%R 16)
    (post_duration (Renderer_init "in" "out" 1 1 1%R 2%R 1%R 0%R 16)) = 0
  ∧ ∃ st sn, arr_len st = 0%nat ∧ arr_len sn = 0%nat
      ∧ compute_snr unit_metric (Renderer_init "in" "out" 1 1 1%R 2%R 1%R 0%R 16)
          (Arr1 [10; 11; 12; 13; 14]%R) (Arr1 [20; 21]%R) 0 0
        = ([SnrMetric st sn], Ok 1%R).
Proof.
  assert (duration_samples (Renderer_init "in" "out" 1 1 1%R 2%R 1%R 0%R 16)
            (post_duration (Renderer_init "in" "out" 1 1 1%R 2%R 1%R 0%R 16)) = 0)
    as Hpost
    by apply (duration_samples_IZR (Renderer_init "in" "out" 1 1 1%R 2%R 1%R 0%R 16) 0).
  split; [exact Hpost|].
  destruct (compute_snr_zero_post unit_metric
              (Renderer_init "in" "out" 1 1 1%R 2%R 1%R 0%R 16)
              (Arr1 [10; 11; 12; 13; 14]%R) (Arr1 [20; 21]%R) 0 0 Hpost)
    as (Ht & Hn & Hrun).
  eexists _, _. split; [exact Ht|]. split; [exact Hn|]. exact Hrun.
Defined.
(** ** render: the trace of a run, its writes, failures *)

(** As [inv_bind], naming the events of the first run. *)
Tactic Notation "inv_bind" hyp(H) "as" ident(a) ident(H1) "events" ident(e1) :=
  let e2 := fresh "e" in
  apply bind_Ok in H as (e1 & a & e2 & H1 & H & ->).

Section RenderExtras.
Context {F : Type} `{!Float64 F}.
Variable metric : ndarray F → ndarray F → F.
Variable sum_signals : list (ndarray F) → ndarray F.
Set Default Proof Using "Type".
Implicit Types (self : Renderer (F:=F)) (fs : filesystem (F:=F)).
Implicit Types (evs : list (event F)) (pair : ndarray F * ndarray F).
Implicit Types (entries : list (entry (F:=F))).

(** X15. [render] writes floating-point files only, so the bit depth
    [test_nbits] of the renderer has no effect on it: two renderers that
    differ in nothing else produce the same events and the same outcome. *)
Theorem render_ignores_test_nbits self nbits fs target noise_type interferer room scene
    offset snr_dB dataset pre post :
  render metric sum_signals (with_test_nbits self nbits) fs target noise_type
    interferer room scene offset snr_dB dataset pre post
  = render metric sum_signals self fs target noise_type
      interferer room scene offset snr_dB dataset pre post.
Proof. reflexivity. Qed.

(** The events of one completed round. *)
Lemma render_channel_events self fs stem prefix target signal snr_dB pre post st c
    evs st' pair :
  render_channel metric sum_signals self fs stem prefix target signal
    snr_dB pre post st c = (evs, Ok st') →
  at_ear self fs (target_brir_fn stem c) target = ([], Ok pair.1) →
  at_ear self fs (interferer_brir_fn stem c) signal = ([], Ok pair.2) →
  evs = channel_trace self snr_dB (bool_decide (st_snr_ref st = None)) c pair.
Proof.
  unfold render_channel. intros Hrun Hpt Hpi.
  inv_bind Hrun as tb Htb. inv_bind Hrun as ib Hib.
  inv_bind Hrun as tae Htae. inv_bind Hrun as iae Hiae.
  inv_bind Hrun as u Hlog. inv_bind Hrun as g Hg.
  unfold target_brir_fn in Hpt. unfold interferer_brir_fn in Hpi.
  rewrite (at_ear_intro _ _ _ _ _ _ _ _ Htb Htae) in Hpt.
  rewrite (at_ear_intro _ _ _ _ _ _ _ _ Hib Hiae) in Hpi.
  destruct pair as [p1 p2]. simpl in Hpt, Hpi. simplify_eq.
  pose proof (silent_run _ _ _ (silent_read_signal _ _ _ _ _ _ _) Htb) as ->.
  pose proof (silent_run _ _ _ (silent_read_signal _ _ _ _ _ _ _) Hib) as ->.
  apply apply_brir_Ok in Htae as ->. apply apply_brir_Ok in Hiae as ->.
  injection Hlog as <-. injection Hrun as <- _.
  unfold channel_trace. destruct (st_snr_ref st) as [g0|]; simpl in *.
  - by injection Hg as <- _.
  - inv_bind Hg as g1 Hsnr. injection Hg as <- _.
    rewrite compute_snr_run in Hsnr. case_decide; [|done].
    by injection Hsnr as <- _.
Qed.

(** The events of the whole loop. *)
Lemma render_loop_events self fs stem prefix target signal snr_dB pre post chans :
  ∀ st evs st' pairs,
  for_each (render_channel metric sum_signals self fs stem prefix target signal
              snr_dB pre post) chans st = (evs, Ok st') →
  at_ear_pairs self fs stem target signal chans pairs →
  evs = loop_trace self snr_dB (bool_decide (st_snr_ref st = None)) (zip chans pairs).
Proof.
  induction chans as [|c chans IH]; intros st evs st' pairs Hrun Hpairs;
    simpl in Hrun.
  - by injection Hrun as <- _.
  - apply Forall2_cons_inv_l in Hpairs as (pair & pairs' & [Hpt Hpi] & Hpairs & ->).
    inv_bind Hrun as st1 Hc.
    pose proof (render_channel_events _ _ _ _ _ _ _ _ _ _ _ _ _ _ Hc Hpt Hpi) as ->.
    apply render_channel_Ok in Hc as (tb & pair' & _ & _ & _ & -> & _).
    rewrite (IH _ _ _ _ Hrun Hpairs). done.
Qed.


(** X16. The complete trace of a [render] that succeeds.  It reads the
    target and pads it, reads the excerpt of the interferer and ramps it,
    and applies the BRIRs of every channel; its events are then, in this
    order: the debug message about lengths, logged exactly when the number
    of frames of the padded target differs from the number of characters of
    the interferer's name (the comparison is with the name, not with the
    signal read); for every channel the scaling message, followed in the
    first channel alone by the call of the metric and the message naming
    the reference channel; and one floating-point write at the renderer's
    sampling rate per recorded signal, in the order target, interferer,
    (mixed, target, interferer) per channel, anechoic target.  Nothing is
    written before all signals are computed, and no warning or error is
    logged. *)
Theorem render_trace self fs target noise_type interferer room scene
    offset snr_dB dataset pre post evs :
  render metric sum_signals self fs target noise_type interferer room scene
    offset snr_dB dataset pre post = (evs, Ok ()) →
  ∃ t0 padded sig0 ramped pairs ta,
    read_signal_default self fs (target_fn self dataset target) = ([], Ok t0)
    ∧ np_pad t0 pre post = ([], Ok padded)
    ∧ read_signal self fs (interferer_fn self dataset noise_type interferer)
        offset (Z.of_nat (arr_len padded)) 0 true = ([], Ok sig0)
    ∧ apply_ramp self sig0 (ramp_duration self) = ([], Ok ramped)
    ∧ at_ear_pairs self fs (brir_stem self dataset room) padded ramped
        (channels self) pairs
    ∧ evs
      = (if decide (arr_len padded ≠ String.length interferer)
         then [Log DEBUG "Target and interferer have different lengths"] else [])
        ++ loop_trace self snr_dB true (zip (channels self) pairs)
        ++ ((λ kv, SoundfileWrite (artifact (out_prefix self scene) kv.1) (Floats kv.2)
                     (sample_rate self) "FLOAT")
              <$> scene_entries sum_signals snr_dB (first_gain metric self pairs)
                    padded ramped (channels self) pairs ta).
Proof.
  intros (evs0 & outs & Houts & ->)%render_Ok.
  pose proof Houts as Hfacts.
  apply render_outputs_Ok in Hfacts
    as (t0 & padded & sig0 & ramped & pairs & tb & anech & ta & Ht0 & Hpad & Hsig
        & Hramp & Hpairs & Htb & Hanech & Hta & -> & _ & _).
  exists t0, padded, sig0, ramped, pairs, ta.
  repeat (split; [done|]).
  unfold render_outputs in Houts.
  fold (target_fn self dataset target) in Houts.
  fold (interferer_fn self dataset noise_type interferer) in Houts.
  fold (brir_stem self dataset room) in Houts.
  inv_bind Houts as t0' Ht0'. rewrite Ht0 in Ht0'. injection Ht0' as <- <-.
  inv_bind Houts as padded' Hpad'. rewrite Hpad in Hpad'. injection Hpad' as <- <-.
  inv_bind Houts as sig0' Hsig'. rewrite Hsig in Hsig'. injection Hsig' as <- <-.
  inv_bind Houts as u Hdbg events edbg.
  inv_bind Houts as ramped' Hramp'. rewrite Hramp in Hramp'. injection Hramp' as <- <-.
  inv_bind Houts as st Hloop events eloop.
  pose proof (render_loop_events _ _ _ _ _ _ _ _ _ _ _ _ _ _ Hloop Hpairs) as ->.
  simpl.
  inv_bind Houts as otb Hotb events etb.
  inv_bind Houts as anech' Hanech' events eanech.
  pose proof (silent_run _ _ _ (silent_read_signal _ _ _ _ _ _ _) Hanech') as ->.
  assert (etb = []) as ->.
  { case_decide as Hch.
    - inv_bind Hotb as tb' Htb' events etb'. cbv [mret M_ret ret] in Hotb.
      injection Hotb as <- _.
      by rewrite (silent_run _ _ _ (silent_read_signal _ _ _ _ _ _ _) Htb').
    - cbv [mret M_ret ret] in Hotb. by simplify_eq. }
  destruct otb as [tb'|]; [|done].
  inv_bind Houts as ta' Hta' events eta. apply apply_brir_Ok in Hta' as ->.
  injection Houts as <- _.
  assert (edbg = if decide (arr_len padded ≠ String.length interferer)
                 then [Log DEBUG "Target and interferer have different lengths"]
                 else []) as ->.
  { destruct (decide (arr_len padded ≠ String.length interferer));
      cbv [mret M_ret ret emit] in Hdbg; by simplify_eq. }
  rewrite !app_nil_r, <- !app_assoc. do 2 f_equal.
  unfold named. by rewrite <- list_fmap_compose.
Qed.






(** X18. In a [render] that succeeds, every channel has its three files
    written with signals that belong together: [_target_CH{c}] holds the
    channel's target BRIR applied to the padded target, and [_mixed_CH{c}]
    holds exactly [sum_signals] of the signals written to [_target_CH{c}]
    and to [_interferer_CH{c}], in this order. *)
Theorem render_mixed_is_sum self fs target noise_type interferer room scene
    offset snr_dB dataset pre post evs c :
  render metric sum_signals self fs target noise_type interferer room scene
    offset snr_dB dataset pre post = (evs, Ok ()) →
  c ∈ channels self →
  ∃ padded target_at_ear interferer_scaled,
    (artifact (out_prefix self scene) (Target, None), Floats padded) ∈ written evs
    ∧ at_ear self fs (target_brir_fn (brir_stem self dataset room) c) padded
      = ([], Ok target_at_ear)
    ∧ (∀ data, (artifact (out_prefix self scene) (Target, Some c), data) ∈ written evs
               ↔ data = Floats target_at_ear)
    ∧ (∀ data, (artifact (out_prefix self scene) (Interferer, Some c), data) ∈ written evs
               ↔ data = Floats interferer_scaled)
    ∧ (∀ data, (artifact (out_prefix self scene) (Mixed, Some c), data) ∈ written evs
               ↔ data = Floats (sum_signals [target_at_ear; interferer_scaled])).
Proof.
  intros Hrun Hc.
  apply render_written in Hrun
    as (t0 & padded & ramped & pairs & tb & anech & ta & _ & _ & Hpairs & _ & _ & _
        & _ & ->).
  unfold at_ear_pairs in Hpairs.
  destruct (Forall2_elem_zip _ _ _ _ Hpairs Hc) as [[tae iae] Hzip].
  pose proof (Forall2_zip_elem _ _ _ _ _ Hpairs Hzip) as [Htae Hiae].
  simpl in Htae, Hiae.
  exists padded, tae,
    (scale (db_gain snr_dB) (scale (first_gain metric self pairs) iae)).
  split; [apply elem_of_written; exists padded; split; [apply scene_entries_target|done]|].
  split; [done|].
  assert (∀ r a,
            ((r, Some c), a)
              ∈ scene_entries sum_signals snr_dB (first_gain metric self pairs)
                  padded ramped (channels self) pairs ta
            ↔ ((r, Some c), a)
                ∈ channel_entries sum_signals snr_dB (first_gain metric self pairs)
                    c (tae, iae)) as Hentries.
  { intros r a. rewrite scene_entries_channel. split.
    - intros ([tae' iae'] & Hzip' & Hin).
      pose proof (Forall2_zip_elem _ _ _ _ _ Hpairs Hzip') as [Htae' Hiae'].
      simpl in Htae', Hiae'. rewrite Htae in Htae'. rewrite Hiae in Hiae'.
      by simplify_eq.
    - intros Hin. by exists (tae, iae). }
  repeat split; intros Hin.
  - apply elem_of_written in Hin as (a & Hin & ->). apply Hentries in Hin.
    unfold channel_entries in Hin. by elem_cases.
  - subst data. apply elem_of_written. eexists. split; [|done].
    apply Hentries. unfold channel_entries. elem_here.
  - apply elem_of_written in Hin as (a & Hin & ->). apply Hentries in Hin.
    unfold channel_entries in Hin. by elem_cases.
  - subst data. apply elem_of_written. eexists. split; [|done].
    apply Hentries. unfold channel_entries. elem_here.
  - apply elem_of_written in Hin as (a & Hin & ->). apply Hentries in Hin.
    unfold channel_entries in Hin. by elem_cases.
  - subst data. apply elem_of_written. eexists. split; [|done].
    apply Hentries. unfold channel_entries. elem_here.
Qed.

(** Runs that write nothing, however they end. *)
Lemma written_bind {A B} (m : M F A) (k : A → M F B) :
  written (events m) = [] → (∀ a, written (events (k a)) = []) →
  written (events (m ≫= k)) = [].
Proof.
  unfold events. destruct m as [evs1 [a|e]]; simpl; intros Hm Hk; [|done].
  specialize (Hk a). unfold mbind, M_bind, bind.
  destruct (k a) as [evs2 r]. simpl in *. by rewrite written_app, Hm, Hk.
Qed.

Lemma written_silent {A} (m : M F A) : silent m → written (events m) = [].
Proof. unfold events. by intros ->. Qed.

Lemma written_apply_brir self (signal brir : ndarray F) :
  written (events (apply_brir self signal brir)) = [].
Proof.
  destruct (decide (sq_ndim (np_squeeze brir) = 2%nat)) as [Hnd|Hnd];
    [|by rewrite apply_brir_else].
  destruct (np_squeeze_two_dim brir Hnd) as (B & -> & HB).
  destruct signal; by rewrite ?apply_brir_mono, ?apply_brir_stereo.
Qed.

Lemma written_render_channel self fs stem prefix target signal snr_dB pre post st c :
  written (events (render_channel metric sum_signals self fs stem prefix target signal
                     snr_dB pre post st c)) = [].
Proof.
  unfold render_channel.
  apply written_bind; [apply written_silent, silent_read_signal|intros tb].
  apply written_bind; [apply written_silent, silent_read_signal|intros ib].
  apply written_bind; [apply written_apply_brir|intros tae].
  apply written_bind; [apply written_apply_brir|intros iae].
  apply written_bind; [reflexivity|intros _].
  apply written_bind; [|reflexivity].
  destruct (st_snr_ref st) as [g|]; [reflexivity|].
  apply written_bind; [|reflexivity].
  rewrite compute_snr_run. by case_decide.
Qed.

Lemma written_loop self fs stem prefix target signal snr_dB pre post chans :
  ∀ st,
  written (events (for_each (render_channel metric sum_signals self fs stem prefix
                               target signal snr_dB pre post) chans st)) = [].
Proof.
  induction chans as [|c chans IH]; intros st; [done|]. simpl.
  apply written_bind; [apply written_render_channel|apply IH].
Qed.

Lemma written_render_outputs self fs target noise_type interferer room scene
    offset snr_dB dataset pre post :
  written (events (render_outputs metric sum_signals self fs target noise_type
                     interferer room scene offset snr_dB dataset pre post)) = [].
Proof.
  unfold render_outputs.
  apply written_bind; [apply written_silent, silent_read_signal|intros t0].
  apply written_bind; [apply written_silent, silent_np_pad|intros padded].
  apply written_bind; [apply written_silent, silent_read_signal|intros sig0].
  apply written_bind; [by case_decide|intros _].
  apply written_bind; [apply written_silent, silent_apply_ramp|intros ramped].
  apply written_bind; [apply written_loop|intros st].
  apply written_bind.
  { case_decide; [|reflexivity].
    apply written_bind; [apply written_silent, silent_read_signal|reflexivity]. }
  intros otb.
  apply written_bind; [apply written_silent, silent_read_signal|intros anech].
  destruct otb as [tb|]; [|reflexivity].
  apply written_bind; [apply written_apply_brir|reflexivity].
Qed.

(** On a storage that accepts every write, [write_signal_with] is
    [write_signal]; a floating-point write fails only as the storage says. *)
Lemma write_signal_with_float write_error self filename (signal : ndarray F) :
  write_signal_with write_error self filename signal (sample_rate self) true
  = ([SoundfileWrite filename (Floats signal) (sample_rate self) "FLOAT"],
     match write_error filename with Some e => Raise e | None => Ok () end).
Proof.
  unfold write_signal_with, soundfile_write. rewrite Z.eqb_refl. simpl.
  by destruct (write_error filename).
Qed.

(** The loop that writes, when the storage accepts every file. *)
Lemma write_loop_accepted write_error self (outs : list (string * ndarray F)) :
  (∀ out, out ∈ outs → write_error out.1 = None) →
  for_each (λ _ out, write_signal_with write_error self out.1 out.2
                       (sample_rate self) true) outs ()
  = ((λ out, SoundfileWrite out.1 (Floats out.2) (sample_rate self) "FLOAT") <$> outs,
     Ok ()).
Proof.
  induction outs as [|out outs IH]; intros Hall; [done|]. simpl.
  erewrite bind_run by (rewrite write_signal_with_float, Hall; [done|elem_here]).
  rewrite IH; [done|]. intros o Ho. apply Hall. by apply elem_of_cons; right.
Qed.

(** The loop stops at the first file that the storage refuses. *)
Lemma write_loop_refused write_error self (outs : list (string * ndarray F)) :
  ∀ k out e,
  outs !! k = Some out → write_error out.1 = Some e →
  (∀ j o, (j < k)%nat → outs !! j = Some o → write_error o.1 = None) →
  for_each (λ _ out, write_signal_with write_error self out.1 out.2
                       (sample_rate self) true) outs ()
  = ((λ out, SoundfileWrite out.1 (Floats out.2) (sample_rate self) "FLOAT")
       <$> take (S k) outs,
     Raise e).
Proof.
  induction outs as [|o outs IH]; intros k out e Hk He Hbefore; [done|].
  destruct k as [|k]; simpl in Hk |- *.
  - injection Hk as ->.
    by erewrite bind_raise by (rewrite write_signal_with_float, He; done).
  - erewrite bind_run
      by (rewrite write_signal_with_float, (Hbefore 0%nat o); [done|lia|done]).
    rewrite (IH k out e Hk He); [done|].
    intros j o' Hj Ho'. apply (Hbefore (S j)); [lia|done].
Qed.

(** X19. [render] on a storage that can refuse a write.  A failure of
    [render] on a storage that accepts every write is a failure of its
    computations: it happens before the first call of [soundfile.write], so
    nothing is written, and the storage plays no part in it.  When the
    computations succeed, the files are written in order until the storage
    refuses one: if the file at position [k] is the first one refused,
    [render] ends in the exception of that call after [k + 1] calls of
    [soundfile.write]; the [k] files before it stay written, the files
    after it are never attempted, and nothing is undone.  [render]
    succeeds exactly as on the accepting storage when no file is refused.
    (An outcome [Unrepresented] stands for arrays outside the shapes
    modelled here; nothing is said of it.) *)
Theorem render_partial_writes (write_error : string → option exn)
    self fs target noise_type interferer room scene
    offset snr_dB dataset pre post evs :
  (∀ e, render metric sum_signals self fs target noise_type interferer room scene
          offset snr_dB dataset pre post = (evs, Raise e) →
        (∀ what, e ≠ Unrepresented what) →
        written evs = []
        ∧ render_with metric sum_signals write_error self fs target noise_type
            interferer room scene offset snr_dB dataset pre post = (evs, Raise e))
  ∧ (render metric sum_signals self fs target noise_type interferer room scene
       offset snr_dB dataset pre post = (evs, Ok ()) →
     ((∀ w, w ∈ written evs → write_error w.1 = None) →
      render_with metric sum_signals write_error self fs target noise_type
        interferer room scene offset snr_dB dataset pre post = (evs, Ok ()))
     ∧ ∀ k w e,
         written evs !! k = Some w → write_error w.1 = Some e →
         (∀ j w', (j < k)%nat → written evs !! j = Some w' → write_error w'.1 = None) →
         outcome (render_with metric sum_signals write_error self fs target noise_type
                    interferer room scene offset snr_dB dataset pre post) = Raise e
         ∧ written (events (render_with metric sum_signals write_error self fs target
                              noise_type interferer room scene offset snr_dB dataset
                              pre post))
           = take (S k) (written evs)).
Proof.
  pose proof (written_render_outputs self fs target noise_type interferer room scene
                offset snr_dB dataset pre post) as Hnone.
  unfold render, render_with.
  destruct (render_outputs metric sum_signals self fs target noise_type interferer
              room scene offset snr_dB dataset pre post) as [evs0 [outs|e0]] eqn:Hout;
    unfold events in Hnone; simpl in Hnone.
  - split; [intros e Hrun _; erewrite bind_run in Hrun by done;
            by rewrite write_all_run in Hrun|].
    intros Hrun. erewrite bind_run in Hrun by done.
    rewrite write_all_run in Hrun. injection Hrun as <-.
    assert (written (evs0 ++ ((λ out, SoundfileWrite out.1 (Floats out.2)
                                        (sample_rate self) "FLOAT") <$> outs))
            = (λ out, (out.1, Floats out.2)) <$> outs) as Hwr
      by (by rewrite written_app, Hnone, written_writes).
    rewrite Hwr. split.
    + intros Hall. erewrite bind_run by done.
      rewrite write_loop_accepted; [done|].
      intros out Hin. apply (Hall (out.1, Floats out.2)).
      apply list_elem_of_fmap. by exists out.
    + intros k w e Hk He Hbefore.
      rewrite list_lookup_fmap in Hk.
      destruct (outs !! k) as [out|] eqn:Hk'; [|done]. injection Hk as <-.
      erewrite bind_run by done.
      rewrite (write_loop_refused write_error self outs k out e Hk' He).
      * unfold outcome, events. simpl. split; [done|].
        by rewrite written_app, Hnone, written_writes, fmap_take.
      * intros j o Hj Ho. apply (Hbefore j (o.1, Floats o.2)); [done|].
        by rewrite list_lookup_fmap, Ho.
  - split; [|intros Hrun; by erewrite bind_raise in Hrun by done].
    intros e Hrun _. erewrite bind_raise in Hrun by done. injection Hrun as <- <-.
    split; [done|]. by erewrite bind_raise by done.
Qed.

End RenderExtras.

Lemma render_trace_witness :
  tiny_render = (tiny_events, Ok ())
  ∧ ∃ padded ramped pairs ta,
      tiny_events
      = (if decide (arr_len padded ≠ String.length "N")
         then [Log DEBUG "Target and interferer have different lengths"] else [])
        ++ loop_trace tiny_renderer 0 true (zip (channels tiny_renderer) pairs)
        ++ ((λ kv, SoundfileWrite (artifact (out_prefix tiny_renderer "S1") kv.1)
                     (Floats kv.2) (sample_rate tiny_renderer) "FLOAT")
              <$> scene_entries add_signals 0 (first_gain unit_metric tiny_renderer pairs)
                    padded ramped (channels tiny_renderer) pairs ta).
Proof.
  split; [exact tiny_render_ok|].
  destruct (render_trace unit_metric add_signals tiny_renderer tiny_fs
              "T" "noise" "N" "R" "S1" 0 0 "dev" 1 1 tiny_events tiny_render_ok)
    as (t0 & padded & sig0 & ramped & pairs & ta & _ & _ & _ & _ & _ & Hevs).
  exists padded, ramped, pairs, ta. exact Hevs.
Defined.


Lemma render_mixed_is_sum_witness :
  tiny_render = (tiny_events, Ok ())
  ∧ 1 ∈ channels tiny_renderer
  ∧ ∃ target_at_ear interferer_scaled,
      (∀ data, (artifact "out/S1" (Target, Some 1), data) ∈ written tiny_events
               ↔ data = Floats target_at_ear)
      ∧ (∀ data, (artifact "out/S1" (Interferer, Some 1), data) ∈ written tiny_events
                 ↔ data = Floats interferer_scaled)
      ∧ (∀ data, (artifact "out/S1" (Mixed, Some 1), data) ∈ written tiny_events
                 ↔ data = Floats (add_signals [target_at_ear; interferer_scaled])).
Proof.
  assert (1 ∈ channels tiny_renderer) as Hc by (apply elem_of_cons; by left).
  split; [exact tiny_render_ok|]. split; [exact Hc|].
  destruct (render_mixed_is_sum unit_metric add_signals tiny_renderer tiny_fs
              "T" "noise" "N" "R" "S1" 0 0 "dev" 1 1 tiny_events 1 tiny_render_ok Hc)
    as (padded & tae & isc & _ & _ & Ht & Hi & Hm).
  exists tae, isc. split; [exact Ht|]. split; [exact Hi|exact Hm].
Defined.

Lemma render_partial_writes_witness :
  tiny_render = (tiny_events, Ok ())
  ∧ ∃ w, written tiny_events !! 3%nat = Some w
      ∧ w.1 = "out/S1_target_CH1.wav"
      ∧ outcome (render_with unit_metric add_signals
                   (λ fn, if decide (fn = "out/S1_target_CH1.wav")
                          then Some (RuntimeError "Error opening file") else None)
                   tiny_renderer tiny_fs "T" "noise" "N" "R" "S1" 0 0 "dev" 1 1)
        = Raise (RuntimeError "Error opening file")
      ∧ written (events (render_with unit_metric add_signals
                           (λ fn, if decide (fn = "out/S1_target_CH1.wav")
                                  then Some (RuntimeError "Error opening file")
                                  else None)
                           tiny_renderer tiny_fs "T" "noise" "N" "R" "S1" 0 0 "dev" 1 1))
        = take 4 (written tiny_events).
Proof.
  split; [exact tiny_render_ok|].
  pose proof tiny_render_ok as Hrun. unfold tiny_render in Hrun.
  destruct (render_written _ _ _ _ _ _ _ _ _ _ _ _ _ _ _ Hrun)
    as (t0 & padded & ramped & pairs & tb & anech & ta & _ & _ & Hpairs & _ & _ & _
        & _ & Hwr).
  apply Forall2_length in Hpairs.
  destruct pairs as [|p1 [|p0 [|? ?]]]; try discriminate Hpairs.
  assert (written tiny_events
          = [ ("out/S1_target.wav", Floats padded);
              ("out/S1_interferer.wav", Floats ramped);
              ("out/S1_mixed_CH1.wav",
               Floats (add_signals
                         [p1.1; scale (db_gain 0)
                                  (scale (first_gain unit_metric tiny_renderer [p1; p0])
                                     p1.2)]));
              ("out/S1_target_CH1.wav", Floats p1.1);
              ("out/S1_interferer_CH1.wav",
               Floats (scale (db_gain 0)
                         (scale (first_gain unit_metric tiny_renderer [p1; p0]) p1.2)));
              ("out/S1_mixed_CH0.wav",
               Floats (add_signals
                         [p0.1; scale (db_gain 0)
                                  (scale (first_gain unit_metric tiny_renderer [p1; p0])
                                     p0.2)]));
              ("out/S1_target_CH0.wav", Floats p0.1);
              ("out/S1_interferer_CH0.wav",
               Floats (scale (db_gain 0)
                         (scale (first_gain unit_metric tiny_renderer [p1; p0]) p0.2)));
              ("out/S1_target_anechoic.wav", Floats ta) ]) as Hfiles
    by (rewrite Hwr; reflexivity).
  exists ("out/S1_target_CH1.wav", Floats p1.1).
  assert (written tiny_events !! 3%nat = Some ("out/S1_target_CH1.wav", Floats p1.1))
    as Hk by (by rewrite Hfiles).
  split; [exact Hk|]. split; [reflexivity|].
  apply (proj2 (proj2 (render_partial_writes unit_metric add_signals
                         (λ fn, if decide (fn = "out/S1_target_CH1.wav")
                                then Some (RuntimeError "Error opening file") else None)
                         tiny_renderer tiny_fs "T" "noise" "N" "R" "S1" 0 0 "dev" 1 1
                         tiny_events) tiny_render_ok)
           3%nat ("out/S1_target_CH1.wav", Floats p1.1)
           (RuntimeError "Error opening file") Hk).
  - vm_compute. reflexivity.
  - intros j w' Hj Hw'. rewrite Hfiles in Hw'.
    destruct j as [|[|[|j]]]; [| | |lia]; simpl in Hw'; injection Hw' as <-;
      vm_compute; reflexivity.
Defined.
(** ** check_scene_exists, and the gain of a level in decibels *)

Lemma length_bind_triples {A B} (f : A → list B) (l : list A) :
  (∀ x, length (f x) = 3%nat) → length (l ≫= f) = (3 * length l)%nat.
Proof.
  intros Hf. induction l as [|x l IH]; [done|].
  change ((x :: l) ≫= f) with (f x ++ (l ≫= f)).
  rewrite length_app, Hf, IH. simpl. lia.
Qed.

Lemma NoDup_checked_keys (chans : list Z) :
  NoDup chans →
  NoDup ([ (Target, None); (TargetAnechoic, None); (Interferer, None) ]
         ++ (chans ≫= λ c, [ (Mixed, Some c); (Interferer, Some c); (Target, Some c) ])).
Proof.
  intros Hnd. apply NoDup_app. split; [NoDup_explicit|]. split.
  - intros x Hx (c & Hc & _)%list_elem_of_bind. by elem_cases.
  - apply NoDup_bind; [| |done].
    + intros c1 c2 y _ _ H1 H2. by elem_cases.
    + intros c _. NoDup_explicit.
Qed.

(** X20. The files [check_scene_exists] tests are all distinct, and there
    are [3 + 3 * k] of them, where [k] is 0 for [num_channels = 0],
    [num_channels + 1] for a positive [num_channels] and 1 for a negative
    one: [range(1, num_channels + 1)] is then empty, and the files of
    channel 0 are still required. *)
Theorem files_to_check_distinct scene_id output_path N :
  NoDup (files_to_check scene_id output_path N)
  ∧ length (files_to_check scene_id output_path N)
    = (3 + 3 * (if (N =? 0)%Z then 0 else Z.to_nat N + 1))%nat
  ∧ (N < 0 →
     files_to_check scene_id output_path N
     = artifact (output_path +:+ "/" +:+ scene_id)
       <$> [ (Target, None); (TargetAnechoic, None); (Interferer, None);
             (Mixed, Some 0); (Interferer, Some 0); (Target, Some 0) ]).
Proof.
  rewrite files_to_check_artifacts. split; [|split].
  - apply (NoDup_fmap_2 _), NoDup_checked_keys, NoDup_init_channels.
  - rewrite length_fmap, length_app, length_bind_triples by done.
    rewrite init_channels. simpl. destruct (N =? 0); [done|].
    rewrite length_app, length_seqZ. simpl. lia.
  - intros HN. rewrite init_channels.
    replace (N =? 0) with false by (symmetry; apply Z.eqb_neq; lia).
    destruct N as [|p|p]; [lia|lia|]. done.
Qed.

Lemma files_to_check_distinct_witness :
  -2 < 0
  ∧ files_to_check "S1" "out" (-2)
    = [ "out/S1_target.wav"; "out/S1_target_anechoic.wav"; "out/S1_interferer.wav";
        "out/S1_mixed_CH0.wav"; "out/S1_interferer_CH0.wav"; "out/S1_target_CH0.wav" ].
Proof.
  assert (-2 < 0) as Hneg by lia. split; [exact Hneg|].
  destruct (files_to_check_distinct "S1" "out" (-2)) as (_ & _ & Hfiles).
  rewrite (Hfiles Hneg). reflexivity.
Defined.

(** X21. [check_scene_exists] raises [KeyError] for a scene without the
    key ["scene"], whatever files exist, and never raises otherwise; the
    other keys of the scene play no part.  It answers [False] exactly when
    at least one of the files it tests is missing. *)
Theorem check_scene_exists_outcome (path_exists : string → bool)
    (scene : gmap string string) (output_path : string) (N : Z) :
  (scene !! "scene" = None →
   check_scene_exists path_exists scene output_path N = Raise (KeyError "scene"))
  ∧ (∀ scene_id, scene !! "scene" = Some scene_id →
       check_scene_exists path_exists scene output_path N
       = check_scene_exists path_exists {[ "scene" := scene_id ]} output_path N
       ∧ ∃ b, check_scene_exists path_exists scene output_path N = Ok b
           ∧ (b = false ↔ ∃ f, f ∈ files_to_check scene_id output_path N
                               ∧ path_exists f = false)).
Proof.
  unfold check_scene_exists. split; [by intros ->|].
  intros scene_id ->. rewrite lookup_singleton. split; [done|].
  eexists. split; [done|].
  generalize (files_to_check scene_id output_path N). intros files.
  destruct (foldl (λ acc x, acc && path_exists x) true files) eqn:Hfold;
    pose proof (foldl_and_true path_exists files true) as Htrue.
  - split; [done|]. intros (f & Hf & Hmiss).
    apply Htrue in Hfold as [_ Hall]. rewrite (Hall f Hf) in Hmiss. done.
  - split; [intros _|done].
    assert (¬ ∀ f, f ∈ files → path_exists f = true) as Hnot.
    { intros Hall. assert (false = true) as Hft; [|done].
      rewrite <- Hfold. apply Htrue. by split. }
    clear Htrue Hfold. induction files as [|f files IH].
    + exfalso. apply Hnot. intros f Hf. by apply elem_of_nil in Hf.
    + destruct (path_exists f) eqn:Hf.
      * destruct IH as (f' & Hin & Hmiss).
        { intros Hall. apply Hnot. intros f' Hin.
          apply elem_of_cons in Hin as [->|Hin]; auto. }
        exists f'. split; [by apply elem_of_cons; right|done].
      * exists f. split; [apply elem_of_cons; by left|done].
Qed.

Lemma check_scene_exists_outcome_witness :
  ({[ "room" := "R1" ]} : gmap string string) !! "scene" = None
  ∧ check_scene_exists (λ _, true) {[ "room" := "R1" ]} "out" 1
    = Raise (KeyError "scene").
Proof.
  assert (({[ "room" := "R1" ]} : gmap string string) !! "scene" = None) as Hnone
    by (vm_compute; reflexivity).
  split; [exact Hnone|].
  exact (proj1 (check_scene_exists_outcome (λ _, true) {[ "room" := "R1" ]} "out" 1)
           Hnone).
Defined.

(** X22. The gain [10 ** ((-snr_dB) / 20)] that [render] applies to the
    interferer, over the reals: it is positive, it is 1 at 0 dB and one
    tenth at 20 dB, the levels add up as the gains multiply, and a higher
    SNR gives a strictly smaller gain. *)
Theorem db_gain_decibels (s t : Z) :
  db_gain (F:=R) 0 = 1%R
  ∧ db_gain (F:=R) 20 = (1 / 10)%R
  ∧ (0 < db_gain (F:=R) s)%R
  ∧ db_gain (F:=R) (s + t) = (db_gain s * db_gain t)%R
  ∧ (s < t → (db_gain (F:=R) t < db_gain s)%R).
Proof.
  unfold db_gain. cbn [of_int fpow fdiv R_float64]. rewrite !opp_IZR.
  assert (0 < 10)%R as H10 by lra.
  split; [|split; [|split; [|split]]].
  - replace (- (0) / 20)%R with 0%R by lra. by apply Rpower_O.
  - replace (- (20) / 20)%R with (- (1))%R by lra.
    rewrite Rpower_Ropp, Rpower_1 by done. lra.
  - unfold Rpower. apply exp_pos.
  - rewrite <- Rpower_plus. f_equal. rewrite plus_IZR. lra.
  - intros Hst. apply Rpower_lt; [lra|]. apply IZR_lt in Hst. lra.
Qed.

Lemma db_gain_decibels_witness :
  3 < 6 ∧ (db_gain (F:=R) 6 < db_gain 3)%R.
Proof.
  assert (3 < 6) as Hlt by lia. split; [exact Hlt|].
  exact (proj2 (proj2 (proj2 (proj2 (db_gain_decibels 3 6)))) Hlt).
Defined.
(** ** read_signal: the order of the checks; apply_ramp on stereo signals *)

Section ReadRampExtras.
Context {F : Type} `{!Float64 F}.
Implicit Types (self : Renderer (F:=F)) (fs : filesystem (F:=F)).

(** X23. On a file that exists, [read_signal] checks the number of
    channels before the sampling rate: a file with the wrong number of
    channels is refused with the message about channels even when its rate
    is wrong as well, and [nchannels = 0] accepts any number.  An offset of
    a whole number of seconds is the offset in samples multiplied by the
    rate of the file. *)
Theorem read_signal_checks self fs filename w offset nsamples nchannels samples :
  fs !! filename = Some w →
  (nchannels ≠ 0 → nchannels ≠ sf_channels w →
   read_signal self fs filename offset nsamples nchannels samples
   = ([], Raise (Exception ("Wav file (" +:+ filename +:+ ") was expected to have "
                              +:+ pretty nchannels +:+ " channels."))))
  ∧ (nchannels = 0 ∨ nchannels = sf_channels w →
     samplerate w ≠ sample_rate self →
     read_signal self fs filename offset nsamples nchannels samples
     = ([], Raise (Exception ("Sampling rate is not " +:+ pretty (sample_rate self)
                                +:+ " for filename " +:+ filename +:+ "."))))
  ∧ read_signal self fs filename offset nsamples nchannels false
    = read_signal self fs filename (offset * samplerate w) nsamples nchannels true.
Proof.
  intros Hw. unfold read_signal. rewrite Hw. split; [|split].
  - intros H0 Hch.
    replace (nchannels =? 0) with false by (symmetry; by apply Z.eqb_neq).
    replace (nchannels =? sf_channels w) with false by (symmetry; by apply Z.eqb_neq).
    done.
  - intros Hch Hrate.
    replace ((nchannels =? 0) || (nchannels =? sf_channels w)) with true
      by (symmetry; apply orb_true_iff; destruct Hch; [left|right]; by apply Z.eqb_eq).
    replace (samplerate w =? sample_rate self) with false
      by (symmetry; by apply Z.eqb_neq).
    done.
  - done.
Qed.

Lemma broadcast_row_mismatch (w : list F) :
  length w ≠ 1%nat → length w ≠ 2%nat →
  broadcast_row w = ([], Raise (ValueError "operands could not be broadcast together")).
Proof. destruct w as [|? [|? [|? ?]]]; done. Qed.

Lemma imul_slice_rows_mismatch (rows : list (F * F)) start stop (w : list F) :
  length w ≠ 1%nat → length w ≠ 2%nat →
  imul_slice (Arr2 rows) start stop w
  = ([], Raise (ValueError "operands could not be broadcast together")).
Proof.
  intros H1 H2. unfold imul_slice. destruct (slice_bounds _ _ _).
  by rewrite broadcast_row_mismatch.
Qed.

Lemma imul_slice_rows_Ok (rows : list (F * F)) start stop (w : list F) :
  length w = 1%nat ∨ length w = 2%nat →
  ∃ rows', imul_slice (Arr2 rows) start stop w = ([], Ok (Arr2 rows')).
Proof.
  intros Hw. unfold imul_slice. destruct (slice_bounds _ _ _).
  destruct w as [|c0 [|c1 [|? ?]]]; simpl in Hw; try lia; by eexists.
Qed.

(** X24. On a stereo signal [apply_ramp] multiplies a slice of shape
    [(L, 2)] by a window of shape [(L,)], which numpy can broadcast only
    for [L = 1] or [L = 2] (and then along the two columns).  So for a
    stereo signal of any length it returns when the ramp has one or two
    samples, and raises [ValueError] when the ramp has none or at least
    three. *)
Theorem apply_ramp_stereo self (rows : list (F * F)) D :
  (duration_samples self D = 0 ∨ 3 ≤ duration_samples self D →
   apply_ramp self (Arr2 rows) D
   = ([], Raise (ValueError "operands could not be broadcast together")))
  ∧ (duration_samples self D = 1 ∨ duration_samples self D = 2 →
     ∃ rows', apply_ramp self (Arr2 rows) D = ([], Ok (Arr2 rows'))
              ∧ length rows' = length rows).
Proof.
  split; intros HL.
  - destruct (half_cosine_run (F:=F) (duration_samples self D)) as (ramp & Hramp & Hlen & _);
      [lia|].
    unfold apply_ramp. erewrite bind_run by done.
    rewrite imul_slice_rows_mismatch by lia. done.
  - destruct (half_cosine_run (F:=F) (duration_samples self D)) as (ramp & Hramp & Hlen & _);
      [lia|].
    destruct (imul_slice_rows_Ok rows (Some 0) (Some (Z.of_nat (length ramp))) ramp)
      as [rows1 H1]; [lia|].
    destruct (imul_slice_rows_Ok rows1 (Some (- Z.of_nat (length ramp))) None
                (reverse ramp)) as [rows2 H2]; [rewrite length_reverse; lia|].
    exists rows2.
    assert (apply_ramp self (Arr2 rows) D = ([], Ok (Arr2 rows2))) as Hrun.
    { unfold apply_ramp. erewrite bind_run by done.
      erewrite bind_run by done. erewrite bind_run by done. done. }
    split; [done|].
    apply imul_slice_shape in H1, H2. simpl in H1, H2.
    injection H1 as H1. injection H2 as H2. congruence.
Qed.

End ReadRampExtras.

Lemma read_signal_checks_witness :
  tiny_fs !! "in/dev/interferers/noise/N.wav" = Some (mono_file [1; 1; 1; 1; 1]%R)
  ∧ read_signal tiny_renderer tiny_fs "in/dev/interferers/noise/N.wav" 0 (-1) 2 false
    = ([], Raise (Exception
         "Wav file (in/dev/interferers/noise/N.wav) was expected to have 2 channels.")).
Proof.
  assert (tiny_fs !! "in/dev/interferers/noise/N.wav"
          = Some (mono_file [1; 1; 1; 1; 1]%R)) as Hfile by (vm_compute; reflexivity).
  split; [exact Hfile|].
  destruct (read_signal_checks tiny_renderer tiny_fs "in/dev/interferers/noise/N.wav"
              (mono_file [1; 1; 1; 1; 1]%R) 0 (-1) 2 false Hfile) as (Hch & _ & _).
  apply Hch; [discriminate|discriminate].
Defined.

Lemma apply_ramp_stereo_witness :
  (duration_samples tiny_renderer 3%R = 0 ∨ 3 ≤ duration_samples tiny_renderer 3%R)
  ∧ apply_ramp tiny_renderer
      (Arr2 [(1, 1); (2, 2); (3, 3); (4, 4); (5, 5); (6, 6)]%R) 3%R
    = ([], Raise (ValueError "operands could not be broadcast together")).
Proof.
  assert (duration_samples tiny_renderer 3%R = 0 ∨ 3 ≤ duration_samples tiny_renderer 3%R)
    as HL by (right; rewrite (duration_samples_IZR tiny_renderer 3); simpl; lia).
  split; [exact HL|].
  exact (proj1 (apply_ramp_stereo tiny_renderer
                  [(1, 1); (2, 2); (3, 3); (4, 4); (5, 5); (6, 6)]%R 3%R) HL).
Defined.
